(** * Christmas tree particle scene: generation, interpolation, gestures

    A shallow embedding of [src/components/ChristmasTree.jsx]:
    the three point-set generators, the per-frame position interpolator of
    the [Particles] component, the hand-gesture classifier
    [processGestures] and the rotation controller of the [Scene] component.

    Numbers.  JavaScript numbers are modelled as exact rationals ([Q]):
    comparisons, [Math.floor], [Math.min] and [Math.max] are computed
    exactly, rounding of binary64 is not modelled, and the numbers have no
    NaN or infinity (every division the program executes has a non-zero
    literal or loop-guarded divisor).  The entries of the [Float32Array]
    buffers are binary32 values ([float32]): every store rounds to the
    nearest binary32 number, ties to even ([Math_fround]), and an entry
    can be an infinity or NaN.  The transcendental
    functions of the [Math] object are an interface ([JSMath]) whose
    values the properties below never depend on.  [Math.random] is an
    explicit source of draws, threaded through the generators in the
    order in which the program consumes it. *)

From Stdlib Require Import QArith Qround Qabs Qpower Qreduction Lqa ZArith Lia
  String.
From Stdlib Require Import PrimFloat FloatOps SpecFloat.
From stdpp Require Import base list strings gmap.

Local Open Scope Q_scope.

(** ** Numbers *)

(** [x < y] on JavaScript numbers. *)
Definition Qltb (x y : Q) : bool := negb (Qle_bool y x).

(** [x === y] on JavaScript numbers. *)
Definition Qeqb (x y : Q) : bool := Qeq_bool x y.

Definition Math_floor (x : Q) : Q := inject_Z (Qfloor x).
Definition Math_max (x y : Q) : Q := if Qltb x y then y else x.
Definition Math_min (x y : Q) : Q := if Qltb y x then y else x.

(** The part of the [Math] object that is not rational arithmetic. *)
Class JSMath : Type := {
  Math_PI : Q;
  Math_pow : Q -> Q -> Q;
  Math_sin : Q -> Q;
  Math_cos : Q -> Q;
  Math_sqrt : Q -> Q;
  Math_hypot : Q -> Q -> Q
}.

(** The integer part of a binary64 value, [None] on NaN and infinities.
    Only used to cross-check the one place where a count of particles is
    obtained from a floating-point product. *)
Definition floor_binary64 (f : float) : option Z :=
  match Prim2SF f with
  | S754_zero _ => Some 0%Z
  | S754_finite s m e =>
      let n := match e with
               | Z0 => Z.pos m
               | Zpos p => Z.shiftl (Z.pos m) (Z.pos p)
               | Zneg p => Z.shiftr (Z.pos m) (Z.pos p)
               end in
      let exact := match e with
                   | Zneg p => (Z.shiftl n (Z.pos p) =? Z.pos m)%Z
                   | _ => true
                   end in
      Some (if s then (if exact then - n else - n - 1)%Z else n)
  | _ => None
  end.

(** ** Float32Array entries

    The binary32 format: 24 bits of precision, exponents of the last bit
    from -149 (the subnormal range) up, overflow to an infinity from
    [2 ^ 128]. *)

Definition pow2 (e : Z) : Q := 2 ^ e.

(** [floor(log2(a))] for a positive [a]. *)
Definition ilog2 (a : Q) : Z :=
  let k := (Z.log2 (Qnum a) - Z.log2 (Z.pos (Qden a)))%Z in
  if Qle_bool (pow2 k) a then k else (k - 1)%Z.

(** The integer nearest to [y], the even one at a tie. *)
Definition rne (y : Q) : Z :=
  let f := Qfloor y in
  match Qcompare (y - inject_Z f) (1 # 2) with
  | Lt => f
  | Gt => (f + 1)%Z
  | Eq => if Z.even f then f else (f + 1)%Z
  end.

(** The exponent of the last of the 24 bits kept of [q]; -149 in the
    subnormal range. *)
Definition exponent32 (q : Q) : Z := Z.max (ilog2 (Qabs q) - 23) (-149).

(** The multiple of [2 ^ exponent32 q] nearest to [q], the even one at a
    tie, as a fraction in lowest terms: the binary32 rounding of [q]
    before the overflow test. *)
Definition round32 (q : Q) : Q :=
  if Qeq_bool q 0 then 0
  else
    let e := exponent32 q in
    Qred (inject_Z (rne (q / pow2 e)) * pow2 e).

(** A binary32 value.  The sign of zero is not kept: nothing the program
    does with a buffer entry tells the two zeros apart. *)
Inductive float32 : Type :=
| Finite (q : Q)
| Infinite (negative : bool)
| NaN.

(** [Math.fround(q)], the value a Float32Array holds after [q] is
    assigned to one of its elements. *)
Definition Math_fround (q : Q) : float32 :=
  let r := round32 q in
  if Qle_bool (pow2 128) (Qabs r) then Infinite (Qltb r 0) else Finite r.

(** The same rounding by the Standard Library's model of IEEE 754 formats
    at precision 24 and maximal exponent 128, for a number given as
    [m * 2 ^ e].  Only used to cross-check [Math_fround]. *)
Definition float32_of_spec (f : spec_float) : float32 :=
  match f with
  | S754_zero _ => Finite 0
  | S754_infinity s => Infinite s
  | S754_nan => NaN
  | S754_finite s m e =>
      Finite (Qred ((if s then -1 else 1) * inject_Z (Z.pos m) * pow2 e))
  end.

Definition binary32_normalize (m e : Z) : float32 :=
  float32_of_spec (binary_normalize 24 128 m e false).

(** ** Data model *)

(** A JavaScript array [[x, y, z]]. *)
Definition Vec3 : Type := (Q * Q * Q)%type.

(** [v[c]] for [c] in 0..2. *)
Definition at3 (v : Vec3) (c : nat) : Q :=
  let '(v0, v1, v2) := v in
  match c with
  | O => v0
  | S O => v1
  | _ => v2
  end.

Module THREE.
(** [new THREE.Color(r, g, b)] stores its three arguments unchanged. *)
Record Color : Type := { r : Q; g : Q; b : Q }.
End THREE.

(** An element of [points]: [{ position, scatterPos, heartPos, color }];
    a missing property is [None]. *)
Record Particle : Type := {
  position : Vec3;
  scatterPos : option Vec3;
  heartPos : option Vec3;
  color : THREE.Color
}.

Inductive Mode : Type := TREE | SCATTER | HEART.

Definition Mode_eqb (m1 m2 : Mode) : bool :=
  match m1, m2 with
  | TREE, TREE | SCATTER, SCATTER | HEART, HEART => true
  | _, _ => false
  end.

(** *** CONFIG *)

Record Config : Type := {
  TREE_POINTS : Q;
  GROUND_POINTS : Q;
  STAR_POINTS : Q;
  HEART_POINTS : Q;
  SNOW2D_POINTS : Q;
  TREE_HEIGHT : Q;
  CAM_DIST : Q;
  CAM_HEIGHT : Q;
  PITCH : Q
}.

Definition CONFIG : Config := {|
  TREE_POINTS := 50000;
  GROUND_POINTS := 4000;
  STAR_POINTS := 1200;
  HEART_POINTS := 1000;
  SNOW2D_POINTS := 10;
  TREE_HEIGHT := 12.0;
  CAM_DIST := 27;
  CAM_HEIGHT := 5.0;
  PITCH := -0.25
|}.

(** *** COLOR_THEMES (the [music] entry, a URL, is left out) *)

Definition RGB255 : Type := (Q * Q * Q)%type.

Record TreePalette : Type := {
  deep : RGB255;
  medium : RGB255;
  light : RGB255;
  white : bool
}.

(** [ground.b] is either a number or a pair [[lo, hi]]. *)
Inductive BlueSpec : Type :=
| BNumber (v : Q)
| BArray (lo hi : Q).

Record GroundPalette : Type := {
  r : Q * Q;
  g : Q * Q;
  b : BlueSpec
}.

Record Theme : Type := {
  name : string;
  tree : TreePalette;
  ground : GroundPalette;
  heart : RGB255;
  stars : Q * Q
}.

Definition classic : Theme := {|
  name := "Pink & White";
  tree := {| deep := (255, 60, 180); medium := (255, 100, 190);
             light := (255, 160, 200); white := true |};
  ground := {| r := (100, 150); g := (150, 200); b := BNumber 255 |};
  heart := (255, 220, 50);
  stars := (215, 255)
|}.

Definition traditional : Theme := {|
  name := "Christmas Green";
  tree := {| deep := (0, 80, 0); medium := (34, 139, 34);
             light := (50, 150, 50); white := true |};
  ground := {| r := (34, 80); g := (80, 120); b := BArray 34 60 |};
  heart := (255, 215, 0);
  stars := (200, 255)
|}.

Definition red : Theme := {|
  name := "Vermillion Red";
  tree := {| deep := (220, 20, 60); medium := (255, 47, 0);
             light := (255, 99, 71); white := false |};
  ground := {| r := (139, 200); g := (0, 50); b := BArray 0 30 |};
  heart := (255, 215, 0);
  stars := (255, 200)
|}.

Definition blue : Theme := {|
  name := "Ice Blue";
  tree := {| deep := (0, 100, 255); medium := (50, 150, 255);
             light := (100, 200, 255); white := true |};
  ground := {| r := (0, 50); g := (50, 150); b := BNumber 255 |};
  heart := (255, 255, 200);
  stars := (150, 255)
|}.

Definition purple : Theme := {|
  name := "Purple Dream";
  tree := {| deep := (138, 43, 226); medium := (147, 112, 219);
             light := (186, 85, 211); white := false |};
  ground := {| r := (75, 150); g := (0, 80); b := BArray 130 255 |};
  heart := (255, 215, 0);
  stars := (180, 255)
|}.

Definition COLOR_THEMES : list (string * Theme) :=
  [ ("classic"%string, classic); ("traditional"%string, traditional);
    ("red"%string, red); ("blue"%string, blue); ("purple"%string, purple) ].

(** ** The random source and loops *)

(** A computation that consumes draws of [Math.random]: the state is the
    number of draws consumed so far. *)
Definition Gen (A : Type) : Type := nat -> A * nat.

#[global] Instance Gen_ret : MRet Gen := fun A a s => (a, s).
#[global] Instance Gen_bind : MBind Gen :=
  fun A B k m s => let '(a, s') := m s in k a s'.

(** [for (let i = 0; i < n; i++) body]: the loop carries the array it
    pushes to.  For a number [n] the body runs for i = 0, 1, ... while
    [i < n], that is [ceil n] times when [n] is positive. *)
Fixpoint for_range {S : Type} (i count : nat) (body : nat -> S -> Gen S)
    (acc : S) : Gen S :=
  match count with
  | O => mret acc
  | Datatypes.S k => acc' ← body i acc; for_range (Datatypes.S i) k body acc'
  end.

Definition for_lt {S : Type} (n : Q) (body : nat -> S -> Gen S) (acc : S)
    : Gen S :=
  for_range 0 (Z.to_nat (Qceiling n)) body acc.

Definition ofNat (i : nat) : Q := inject_Z (Z.of_nat i).

(** [points.push(p)] *)
Definition push (points : list Particle) (p : Particle) : list Particle :=
  points ++ [p].

(** ** Point-set generators *)

Section Generators.
Context {M : JSMath}.

(** [random n] is the value of the [n]-th call of [Math.random()]. *)
Variable random : nat -> Q.

(** The generators read the global [CONFIG]; it is passed explicitly so
    that statements can range over the counts.  The program runs them
    at [cfg := CONFIG]. *)
Variable cfg : Config.

Definition Math_random : Gen Q := fun s => (random s, Datatypes.S s).

Definition mkColor (cr cg cb : Q) : THREE.Color :=
  {| THREE.r := cr; THREE.g := cg; THREE.b := cb |}.

(** [colors.deep[0] === 0 && colors.deep[1] === 80 && colors.deep[2] === 0] *)
Definition deepIs_0_80_0 (colors : TreePalette) : bool :=
  Qeqb (at3 (deep colors) 0) 0 && Qeqb (at3 (deep colors) 1) 80
  && Qeqb (at3 (deep colors) 2) 0.

(** [new THREE.Color(r/255, (g + Math.random() * 20)/255,
    (b + Math.random() * 20)/255)] for [[r, g, b] = c]. *)
Definition shimmer (c : RGB255) : Gen THREE.Color :=
  let '(r, g, b) := c in
  j1 ← Math_random;
  j2 ← Math_random;
  mret (mkColor (r / 255) ((g + j1 * 20) / 255) ((b + j2 * 20) / 255)).

(** The heart curve, lines 188-193 and 273-278. *)
Definition bigHeartPos : Gen Vec3 :=
  rt ← Math_random;
  let t := rt * Math_PI * 2 in
  let heartScale := 3.0 in
  let heartX := heartScale * 16 * Math_pow (Math_sin t) 3 in
  let heartY := heartScale * (13 * Math_cos t - 5 * Math_cos (2 * t)
                              - 2 * Math_cos (3 * t) - Math_cos (4 * t)) in
  rz ← Math_random;
  let heartZ := (rz - 0.5) * 2.0 in
  mret (heartX / 16, heartY / 16 + 12, heartZ).

(** *** generateTreePoints *)

(** Lines 115-150. *)
Definition spiralColor (colors : TreePalette) : Gen THREE.Color :=
  colorRand ← Math_random;
  if deepIs_0_80_0 colors && Qltb colorRand 0.10 then
    mret (mkColor (200 / 255) (20 / 255) (20 / 255))
  else if Qltb colorRand 0.15 then shimmer (deep colors)
  else if Qltb colorRand 0.3 then shimmer (medium colors)
  else if Qltb colorRand 0.45 then shimmer (light colors)
  else if white colors then
    if deepIs_0_80_0 colors then
      rb ← Math_random;
      let brightness := Math_floor (rb * 25 + 60) in
      mret (mkColor (brightness * 0.15 / 255) (brightness / 255)
                    (brightness * 0.15 / 255))
    else
      rb ← Math_random;
      let brightness := Math_floor (rb * 50 + 205) in
      mret (mkColor (brightness / 255) (brightness / 255) (brightness / 255))
  else
    let '(r, g, b) := light colors in
    mret (mkColor ((r + 30) / 255) ((g + 30) / 255) ((b + 30) / 255)).

(** One iteration of the first loop, lines 86-152. *)
Definition spiralParticle (colors : TreePalette) : Gen Particle :=
  let loops := 9 in
  u ← Math_random;
  let h := Math_pow u 1.6 in
  let y := TREE_HEIGHT cfg * h + 0.2 in
  let baseR := Math_pow (1 - h) 1.1 * 3.2 in
  let branchWave := Math_max 0 (Math_sin ((h * 5.8 + 0.15) * Math_PI * 2)) in
  let branchFactor := 1.0 + 0.65 * branchWave in
  let baseR := baseR * branchFactor in
  let t := u * loops * Math_PI * 2 in
  ra ← Math_random;
  let angle := t + (ra - 0.5) * 0.44 in
  rr ← Math_random;
  let r := baseR * (0.85 + rr * 0.23) in
  let x := Math_cos angle * r in
  let z := Math_sin angle * r in
  ri ← Math_random;
  let armIndex := Math_floor (ri * 2) in
  let armAngleOffset := armIndex * Math_PI in
  rd ← Math_random;
  let distFromCenter := 2 + rd * 12 in
  let spiralTightness := 0.5 in
  rj ← Math_random;
  let armAngle :=
    armAngleOffset + spiralTightness * distFromCenter + (rj - 0.5) * 0.4 in
  s0 ← Math_random;
  s1 ← Math_random;
  s2 ← Math_random;
  let scatterPos :=
    (Math_cos armAngle * distFromCenter + (s0 - 0.5) * 1.0,
     -2 + (s1 - 0.5) * 0.4,
     Math_sin armAngle * distFromCenter + (s2 - 0.5) * 1.0) in
  color ← spiralColor colors;
  mret {| position := (x, y, z); scatterPos := Some scatterPos;
          heartPos := None; color := color |}.

(** Lines 195-222. *)
Definition fillColor (colors : TreePalette) : Gen THREE.Color :=
  colorRand ← Math_random;
  if Qltb colorRand 0.25 then shimmer (deep colors)
  else if Qltb colorRand 0.5 then shimmer (medium colors)
  else if Qltb colorRand 0.75 then shimmer (light colors)
  else if white colors then
    if deepIs_0_80_0 colors then
      rb ← Math_random;
      let brightness := Math_floor (rb * 30 + 100) in
      mret (mkColor (brightness * 0.2 / 255) (brightness / 255)
                    (brightness * 0.2 / 255))
    else
      rb ← Math_random;
      let brightness := Math_floor (rb * 50 + 205) in
      mret (mkColor (brightness / 255) (brightness / 255) (brightness / 255))
  else
    let '(r, g, b) := light colors in
    mret (mkColor ((r + 40) / 255) ((g + 40) / 255) ((b + 40) / 255)).

(** One iteration of the second loop, lines 158-224. *)
Definition fillParticle (colors : TreePalette) : Gen Particle :=
  rh ← Math_random;
  let h := Math_pow rh 1.9 in
  ry ← Math_random;
  let y := TREE_HEIGHT cfg * h + 0.2 + (ry - 0.5) * 0.16 in
  let baseR := Math_pow (1 - h) 1.1 * 4.3 in
  let branchWave := Math_max 0 (Math_sin ((h * 5.8 + 0.15) * Math_PI * 2)) in
  let branchFactor := 1.0 + 0.65 * branchWave in
  let baseR := baseR * branchFactor in
  rr ← Math_random;
  let r := baseR * Math_sqrt rr in
  ra ← Math_random;
  let angle := ra * Math_PI * 2 in
  jx ← Math_random;
  let x := Math_cos angle * r + (jx - 0.5) * 0.16 in
  jz ← Math_random;
  let z := Math_sin angle * r + (jz - 0.5) * 0.16 in
  ri ← Math_random;
  let armIndex := Math_floor (ri * 2) in
  let armAngleOffset := armIndex * Math_PI in
  distRandom ← Math_random;
  rd ← Math_random;
  let distFromCenter :=
    if Qltb distRandom 0.5 then 0.3 + rd * 3 else 3 + rd * 8 in
  let spiralTightness := 2.5 in
  rj ← Math_random;
  let armAngle :=
    armAngleOffset + spiralTightness * distFromCenter + (rj - 0.5) * 0.1 in
  s0 ← Math_random;
  s1 ← Math_random;
  s2 ← Math_random;
  let scatterPos :=
    (Math_cos armAngle * distFromCenter + (s0 - 0.5) * 0.15,
     -2 + (s1 - 0.5) * 0.12,
     Math_sin armAngle * distFromCenter + (s2 - 0.5) * 0.15) in
  heartPos ← bigHeartPos;
  color ← fillColor colors;
  mret {| position := (x, y, z); scatterPos := Some scatterPos;
          heartPos := Some heartPos; color := color |}.

Definition spiralN : Q := Math_floor (TREE_POINTS cfg * 0.7).
Definition fillN : Q := TREE_POINTS cfg - spiralN.

Definition generateTreePoints (theme : Theme) : Gen (list Particle) :=
  let points := [] in
  let colors := tree theme in
  points ← for_lt spiralN
    (fun i points => p ← spiralParticle colors; mret (push points p)) points;
  points ← for_lt fillN
    (fun i points => p ← fillParticle colors; mret (push points p)) points;
  mret points.

(** *** generateGroundPoints *)

Definition rings : list Q := [4.6; 6.0; 7.4; 8.8; 10.2; 11.4].

(** [Array.isArray(ground.b) ? ground.b[1] : ground.b] *)
Definition blueTop (gb : BlueSpec) : Q :=
  match gb with
  | BArray _ hi => hi
  | BNumber v => v
  end.

(** Lines 280-297. *)
Definition groundColor (ground : GroundPalette) : Gen THREE.Color :=
  colorRand ← Math_random;
  if Qltb colorRand 0.3 then
    rr ← Math_random;
    let cr := Math_floor (rr * (snd (r ground) - fst (r ground))
                          + fst (r ground)) in
    rg ← Math_random;
    let cg := Math_floor (rg * (snd (g ground) - fst (g ground))
                          + fst (g ground)) in
    cb ← match b ground with
         | BArray lo hi =>
             rb ← Math_random; mret (Math_floor (rb * (hi - lo) + lo))
         | BNumber v => mret v
         end;
    mret (mkColor (cr / 255) (cg / 255) (cb / 255))
  else if Qltb colorRand 0.6 then
    rr ← Math_random;
    let cr := Math_floor (rr * 30 + fst (r ground)) in
    rg ← Math_random;
    let cg := Math_floor (rg * 40 + fst (g ground)) in
    let cb := blueTop (b ground) in
    mret (mkColor (cr / 255) (cg / 255) (cb / 255))
  else
    rr ← Math_random;
    let cr := Math_floor (rr * 30 + Math_min 150 (snd (r ground))) in
    rg ← Math_random;
    let cg := Math_floor (rg * 30 + Math_min 200 (snd (g ground))) in
    let cb := blueTop (b ground) in
    mret (mkColor (cr / 255) (cg / 255) (cb / 255)).

(** One iteration of the loop, lines 237-299.  [rings[k]] for an index
    outside the array, which no draw in [0, 1) produces, reads as 0. *)
Definition groundParticle (ground : GroundPalette) : Gen Particle :=
  rk ← Math_random;
  let ring :=
    default 0 (rings !! Z.to_nat (Qfloor (rk * ofNat (length rings)))) in
  rr ← Math_random;
  let r := ring + (rr - 0.5) * 0.6 in
  rt ← Math_random;
  let theta := rt * Math_PI * 2 in
  let x := Math_cos theta * r in
  let z := Math_sin theta * r in
  let y := -0.25 in
  rc ← Math_random;
  let useCenter := Qltb rc 0.85 in
  scatterPos ←
    (if useCenter then
       c1 ← Math_random;
       c2 ← Math_random;
       let rCore := c1 * c2 * 2.0 in
       c3 ← Math_random;
       let thetaCore := c3 * Math_PI * 2 in
       c4 ← Math_random;
       mret (Math_cos thetaCore * rCore,
             -2 + (c4 - 0.5) * 0.2,
             Math_sin thetaCore * rCore)
     else
       ri ← Math_random;
       let armIndex := Math_floor (ri * 2) in
       let armAngleOffset := armIndex * Math_PI in
       rd ← Math_random;
       let distFromCenter := 1.5 + rd * 9 in
       let spiralTightness := 2.3 in
       rj ← Math_random;
       let armAngle := armAngleOffset + spiralTightness * distFromCenter
                       + (rj - 0.5) * 0.1 in
       s0 ← Math_random;
       s1 ← Math_random;
       s2 ← Math_random;
       mret (Math_cos armAngle * distFromCenter + (s0 - 0.5) * 0.2,
             -2 + (s1 - 0.5) * 0.15,
             Math_sin armAngle * distFromCenter + (s2 - 0.5) * 0.2));
  heartPos ← bigHeartPos;
  color ← groundColor ground;
  mret {| position := (x, y, z); scatterPos := Some scatterPos;
          heartPos := Some heartPos; color := color |}.

Definition generateGroundPoints (theme : Theme) : Gen (list Particle) :=
  let points := [] in
  let ground := ground theme in
  points ← for_lt (GROUND_POINTS cfg)
    (fun i points => p ← groundParticle ground; mret (push points p)) points;
  mret points.

(** *** generateStarPoints *)

Definition numHearts : Q := 15.
Definition particlesPerHeart : Q := Math_floor (STAR_POINTS cfg / numHearts).

(** One iteration of the inner loop, lines 322-343. *)
Definition starParticle (min max : Q)
    (heartCenterX heartCenterY heartCenterZ heartScale : Q) (i : nat)
    : Gen Particle :=
  rx ← Math_random;
  let x := (rx - 0.5) * 36 in
  rz ← Math_random;
  let z := (rz - 0.5) * 36 in
  ry ← Math_random;
  let y := 3 + ry * 15 in
  let scatterPos := (x, y, z) in
  let t := (ofNat i / particlesPerHeart) * Math_PI * 2 in
  let heartX := heartScale * 16 * Math_pow (Math_sin t) 3 in
  let heartY := heartScale * (13 * Math_cos t - 5 * Math_cos (2 * t)
                              - 2 * Math_cos (3 * t) - Math_cos (4 * t)) in
  let heartPos :=
    (heartX / 16 + heartCenterX, heartY / 16 + heartCenterY, heartCenterZ) in
  rb ← Math_random;
  let base := Math_floor (rb * (max - min) + min) in
  let color := mkColor (base / 255) (base / 255) (255 / 255) in
  mret {| position := (x, y, z); scatterPos := Some scatterPos;
          heartPos := Some heartPos; color := color |}.

(** One iteration of the outer loop, lines 315-344. *)
Definition smallHeart (min max : Q) (points : list Particle)
    : Gen (list Particle) :=
  cx ← Math_random;
  let heartCenterX := (cx - 0.5) * 30 in
  cy ← Math_random;
  let heartCenterY := 5 + cy * 10 in
  cz ← Math_random;
  let heartCenterZ := (cz - 0.5) * 30 in
  cs ← Math_random;
  let heartScale := 0.5 + cs * 0.5 in
  for_lt particlesPerHeart
    (fun i points =>
       p ← starParticle min max heartCenterX heartCenterY heartCenterZ
             heartScale i;
       mret (push points p)) points.

Definition generateStarPoints (theme : Theme) : Gen (list Particle) :=
  let points := [] in
  let '(min, max) := stars theme in
  points ← for_lt numHearts (fun h points => smallHeart min max points) points;
  mret points.

(** [generateHeartPoints], line 429: the group was removed. *)
Definition generateHeartPoints (theme : Theme) : list Particle := [].

End Generators.


(** ** Shape interpolator: the frame callback of [Particles] *)

(** Lines 473-488: the target of a particle under a mode. *)
Definition selectTarget (mode : Mode) (p : Particle) : Vec3 :=
  match (if Mode_eqb mode HEART then heartPos p else None) with
  | Some heartPos => heartPos
  | None =>
      match (if Mode_eqb mode SCATTER then scatterPos p else None) with
      | Some scatterPos => scatterPos
      | None => position p
      end
  end.

(** The value [current + (target - current) * lerpSpeed] as the typed
    array stores it, for an entry [current] of the array and numbers
    [target] and [lerpSpeed].  From an infinite entry,
    [target - current] is the opposite infinity; its product with
    [lerpSpeed] is NaN at 0 and an infinity otherwise, and the sum with
    [current] is an infinity only when both have the same sign. *)
Definition lerp (current : float32) (target lerpSpeed : Q) : float32 :=
  match current with
  | Finite current => Math_fround (current + (target - current) * lerpSpeed)
  | Infinite negative => if Qltb lerpSpeed 0 then Infinite negative else NaN
  | NaN => NaN
  end.

(** [positions[idx] += (target - positions[idx]) * lerpSpeed] on the typed
    array [positions]; an index outside the array is neither read into a
    number nor written. *)
Definition lerpAt (idx : nat) (target lerpSpeed : Q) (positions : list float32)
    : list float32 :=
  match positions !! idx with
  | Some current => <[idx := lerp current target lerpSpeed]> positions
  | None => positions
  end.

(** The callback of [points.forEach], lines 469-494. *)
Definition moveParticle (mode : Mode) (lerpSpeed : Q) (i : nat) (p : Particle)
    (positions : list float32) : list float32 :=
  let idx := (i * 3)%nat in
  let '(targetX, targetY, targetZ) := selectTarget mode p in
  let positions := lerpAt idx targetX lerpSpeed positions in
  let positions := lerpAt (idx + 1) targetY lerpSpeed positions in
  lerpAt (idx + 2) targetZ lerpSpeed positions.

(** [l.forEach((a, i) => ...)] with the index starting at [i]. *)
Fixpoint forEach_from {A S : Type} (i : nat) (f : nat -> A -> S -> S)
    (l : list A) (acc : S) : S :=
  match l with
  | [] => acc
  | a :: l' => forEach_from (Datatypes.S i) f l' (f i a acc)
  end.

(** The [useFrame] callback of [Particles], lines 463-498.  [mesh] is the
    position array of the mounted mesh, [None] while [meshRef.current] or
    [positionsRef.current] is still unset. *)
Definition Particles_useFrame (points : list Particle) (mode : Mode)
    (delta : Q) (mesh : option (list float32)) : option (list float32) :=
  match mesh with
  | Some positions =>
      let lerpSpeed := 2.0 * delta in
      Some (forEach_from 0 (moveParticle mode lerpSpeed) points positions)
  | None => None
  end.

(** Lines 451-460: the initial contents of the position array. *)
Definition initialPositions (points : list Particle) : list float32 :=
  concat (map (fun p => let '(px, py, pz) := position p in
                        [Math_fround px; Math_fround py; Math_fround pz])
              points).

(** A run of frames with frame times [deltas] under a fixed mode. *)
Fixpoint Particles_frames (points : list Particle) (mode : Mode)
    (deltas : list Q) (mesh : option (list float32))
    : option (list float32) :=
  match deltas with
  | [] => mesh
  | delta :: rest =>
      Particles_frames points mode rest
        (Particles_useFrame points mode delta mesh)
  end.



(** ** Gesture state *)

Module Landmark.
Record t : Type := { x : Q; y : Q; z : Q }.
End Landmark.

Module Hand.
Record t : Type := { detected : bool; x : Q; y : Q }.
End Hand.

Module Rotation.
Record t : Type := { x : Q; y : Q }.
End Rotation.

(** The object held by [useState] at line 674, shared by the classifier
    and the scene. *)
Record GestureState : Type := {
  mode : Mode;
  hand : Hand.t;
  rotation : Rotation.t
}.

Definition initialGestureState : GestureState := {|
  mode := TREE;
  hand := {| Hand.detected := false; Hand.x := 0; Hand.y := 0 |};
  rotation := {| Rotation.x := 0; Rotation.y := 0 |}
|}.

Definition set_mode (m : Mode) (gs : GestureState) : GestureState :=
  {| mode := m; hand := hand gs; rotation := rotation gs |}.

Definition set_hand_detected (d : bool) (gs : GestureState) : GestureState :=
  {| mode := mode gs;
     hand := {| Hand.detected := d; Hand.x := Hand.x (hand gs);
                Hand.y := Hand.y (hand gs) |};
     rotation := rotation gs |}.

Definition set_hand_x (v : Q) (gs : GestureState) : GestureState :=
  {| mode := mode gs;
     hand := {| Hand.detected := Hand.detected (hand gs); Hand.x := v;
                Hand.y := Hand.y (hand gs) |};
     rotation := rotation gs |}.

Definition set_hand_y (v : Q) (gs : GestureState) : GestureState :=
  {| mode := mode gs;
     hand := {| Hand.detected := Hand.detected (hand gs);
                Hand.x := Hand.x (hand gs); Hand.y := v |};
     rotation := rotation gs |}.

Definition set_rotation_x (v : Q) (gs : GestureState) : GestureState :=
  {| mode := mode gs; hand := hand gs;
     rotation := {| Rotation.x := v; Rotation.y := Rotation.y (rotation gs) |} |}.

Definition set_rotation_y (v : Q) (gs : GestureState) : GestureState :=
  {| mode := mode gs; hand := hand gs;
     rotation := {| Rotation.x := Rotation.x (rotation gs); Rotation.y := v |} |}.

(** ** Gesture classifier: [processGestures] *)

(** The result of [detectForVideo]: [landmarks] is a list of hands, each a
    list of landmarks, or is missing. *)
Record HandLandmarkerResult : Type := {
  landmarks : option (list (list Landmark.t))
}.

(** The argument of [setGestureHint], without its formatting. *)
Inductive GestureHint : Type :=
| HintHeart (pinchDist : Q)
| HintTree (openDist : Q)
| HintScatter (openDist : Q)
| HintTransition (openDist pinchDist : Q)
| HintWaiting.

(** How a call of [processGestures] ends: normally, with the hint it set,
    or by the TypeError of reading a property of a landmark the array does
    not hold (caught by the caller, line 794).  Either way the writes made
    to the shared state so far remain. *)
Inductive Completion : Type :=
| Normal (gs : GestureState) (hint : GestureHint)
| Throw (gs : GestureState).

Definition stateOf (c : Completion) : GestureState :=
  match c with
  | Normal gs _ => gs
  | Throw gs => gs
  end.

Section Classifier.
Context {M : JSMath}.

(** Line 821. *)
Definition pinchDistOf (thumb index : Landmark.t) : Q :=
  Math_hypot (Landmark.x thumb - Landmark.x index)
             (Landmark.y thumb - Landmark.y index).

(** Lines 823-826. *)
Definition openDistOf (wrist : Landmark.t) (tips : list Landmark.t) : Q :=
  let openDist :=
    foldl (fun openDist t =>
             openDist + Math_hypot (Landmark.x t - Landmark.x wrist)
                                   (Landmark.y t - Landmark.y wrist))
          0 tips in
  openDist / 4.

(** Lines 818-826: the two features of a hand, [None] when one of the
    landmarks 4, 8, 0, 12, 16, 20 is missing. *)
Definition features (lm : list Landmark.t) : option (Q * Q) :=
  thumb ← lm !! 4%nat;
  index ← lm !! 8%nat;
  wrist ← lm !! 0%nat;
  let pinchDist := pinchDistOf thumb index in
  lm8 ← lm !! 8%nat;
  lm12 ← lm !! 12%nat;
  lm16 ← lm !! 16%nat;
  lm20 ← lm !! 20%nat;
  let tips := [lm8; lm12; lm16; lm20] in
  Some (pinchDist, openDistOf wrist tips).

(** Lines 829-844. *)
Definition classify (pinchDist openDist : Q) (gs : GestureState)
    : Completion :=
  if Qltb pinchDist 0.05 then
    Normal (set_mode HEART gs) (HintHeart pinchDist)
  else if Qltb openDist 0.30 then
    Normal (set_mode TREE gs) (HintTree openDist)
  else if Qltb 0.35 openDist then
    Normal (set_mode SCATTER gs) (HintScatter openDist)
  else
    Normal gs (HintTransition openDist pinchDist).

(** Lines 811-850. *)
Definition processGestures (result : HandLandmarkerResult)
    (gestureState : GestureState) : Completion :=
  match landmarks result with
  | Some (lm :: _) =>
      let gestureState := set_hand_detected true gestureState in
      match lm !! 9%nat with
      | None => Throw gestureState
      | Some lm9 =>
          let gestureState :=
            set_hand_x ((Landmark.x lm9 - 0.5) * 2) gestureState in
          let gestureState :=
            set_hand_y ((Landmark.y lm9 - 0.5) * 2) gestureState in
          match features lm with
          | None => Throw gestureState
          | Some (pinchDist, openDist) =>
              classify pinchDist openDist gestureState
          end
      end
  | _ =>
      let gestureState := set_hand_detected false gestureState in
      let gestureState := set_mode TREE gestureState in
      Normal gestureState HintWaiting
  end.

(** The classifier over a sequence of video frames. *)
Definition processFrames (results : list HandLandmarkerResult)
    (gestureState : GestureState) : GestureState :=
  foldl (fun gs result => stateOf (processGestures result gs))
        gestureState results.

End Classifier.

(** ** Rotation controller: the frame callback of [Scene] *)

(** What the callback reads and writes: the rotation of the group behind
    [groupRef] ([None] while the ref is unset) and the [gestureState] prop
    ([None] when the prop is absent). *)
Record SceneState : Type := {
  groupRef : option Rotation.t;
  gestureState : option GestureState
}.

(** Lines 615-639. *)
Definition rotateByGesture (delta : Q) (gestureState : GestureState)
    : GestureState :=
  let threshold := 0.3 in
  let speed := 1.2 in
  if Mode_eqb (mode gestureState) SCATTER && Hand.detected (hand gestureState)
  then
    let gestureState :=
      if Qltb threshold (Hand.x (hand gestureState)) then
        set_rotation_y
          (Rotation.y (rotation gestureState)
           + speed * delta * (Hand.x (hand gestureState) - threshold))
          gestureState
      else if Qltb (Hand.x (hand gestureState)) (- threshold) then
        set_rotation_y
          (Rotation.y (rotation gestureState)
           + speed * delta * (Hand.x (hand gestureState) + threshold))
          gestureState
      else gestureState in
    if Qltb threshold (Hand.y (hand gestureState)) then
      set_rotation_x
        (Rotation.x (rotation gestureState)
         + speed * delta * (Hand.y (hand gestureState) - threshold))
        gestureState
    else if Qltb (Hand.y (hand gestureState)) (- threshold) then
      set_rotation_x
        (Rotation.x (rotation gestureState)
         + speed * delta * (Hand.y (hand gestureState) + threshold))
        gestureState
    else gestureState
  else if Mode_eqb (mode gestureState) TREE then
    let gestureState :=
      set_rotation_y (Rotation.y (rotation gestureState) + 0.15 * delta)
                     gestureState in
    set_rotation_x
      (Rotation.x (rotation gestureState)
       + (0 - Rotation.x (rotation gestureState)) * 2.0 * delta)
      gestureState
  else if Mode_eqb (mode gestureState) HEART then
    let gestureState :=
      set_rotation_y (Rotation.y (rotation gestureState) + 0.1 * delta)
                     gestureState in
    set_rotation_x
      (Rotation.x (rotation gestureState)
       + (0 - Rotation.x (rotation gestureState)) * 1.5 * delta)
      gestureState
  else
    set_rotation_y (Rotation.y (rotation gestureState) + 0.05 * delta)
                   gestureState.

(** The [useFrame] callback of [Scene], lines 609-647. *)
Definition Scene_useFrame (delta : Q) (st : SceneState) : SceneState :=
  match groupRef st, gestureState st with
  | Some _, Some gs =>
      let gs := rotateByGesture delta gs in
      {| groupRef := Some {| Rotation.x := Rotation.x (rotation gs);
                             Rotation.y := Rotation.y (rotation gs) |};
         gestureState := Some gs |}
  | Some group, None =>
      {| groupRef := Some {| Rotation.x := Rotation.x group;
                             Rotation.y := Rotation.y group + 0.002 |};
         gestureState := None |}
  | None, _ => st
  end.

(** The part of a hand coordinate beyond the dead zone of half-width
    [threshold]. *)
Definition excess (threshold v : Q) : Q :=
  if Qltb threshold v then v - threshold
  else if Qltb v (- threshold) then v + threshold
  else 0.


(** ** Buffers of [Particles] *)

(** [new Float32Array(n)]: [n] zeros. *)
Definition Float32Array_new (n : nat) : list float32 := replicate n (Finite 0).

(** Lines 438-448: the colour buffer.  An assignment to an element of a
    Float32Array stores the binary32 rounding of the number. *)
Definition colorsArray (points : list Particle) : list float32 :=
  let colors := Float32Array_new (length points * 3) in
  forEach_from 0
    (fun i p colors =>
       let colors := <[(i * 3)%nat := Math_fround (THREE.r (color p))]> colors in
       let colors :=
         <[(i * 3 + 1)%nat := Math_fround (THREE.g (color p))]> colors in
       <[(i * 3 + 2)%nat := Math_fround (THREE.b (color p))]> colors)
    points colors.

(** Lines 451-460, as written: a zeroed buffer filled by [forEach]. *)
Definition positionsArray (points : list Particle) : list float32 :=
  let positions := Float32Array_new (length points * 3) in
  forEach_from 0
    (fun i p positions =>
       let positions :=
         <[(i * 3)%nat := Math_fround (at3 (position p) 0)]> positions in
       let positions :=
         <[(i * 3 + 1)%nat := Math_fround (at3 (position p) 1)]> positions in
       <[(i * 3 + 2)%nat := Math_fround (at3 (position p) 2)]> positions)
    points positions.

(** ** StarMesh: the colours of the star, lines 353 and 382-387 *)

Definition starColor (theme : Theme) : THREE.Color :=
  let '(r, g, b) := heart theme in
  mkColor (r / 255) (g / 255) (b / 255).

Definition emissiveColor (theme : Theme) : THREE.Color :=
  let '(r, g, b) := heart theme in
  mkColor (Math_max 0 (r - 50) / 255) (Math_max 0 (g - 50) / 255)
          (Math_max 0 (b - 50) / 255).

(** ** Snowflakes *)

Record Window : Type := { innerWidth : Q; innerHeight : Q }.

Module Flake.
Record t : Type := { x : Q; y : Q; radius : Q; speed : Q }.
End Flake.

(** The length [Array.from({ length: n }, ...)] gives its result. *)
Definition ToLength (n : Q) : nat :=
  Z.to_nat (Z.min (Qfloor n) (2 ^ 53 - 1)).

(** [f] called [n] times in order, collecting the results. *)
Fixpoint replicate_Gen {A : Type} (n : nat) (f : Gen A) : Gen (list A) :=
  match n with
  | O => mret []
  | Datatypes.S k => a ← f; rest ← replicate_Gen k f; mret (a :: rest)
  end.

(** [l.map(f)] for a callback that draws random numbers. *)
Fixpoint map_Gen {A B : Type} (f : A -> Gen B) (l : list A) : Gen (list B) :=
  match l with
  | [] => mret []
  | a :: l' => b ← f a; rest ← map_Gen f l'; mret (b :: rest)
  end.

Section Snowflakes.
Variable random : nat -> Q.

(** Lines 524-529: one initial flake; [window] is [None] where
    [typeof window] is ['undefined']. *)
Definition newFlake (window : option Window) : Gen Flake.t :=
  rx ← Math_random random;
  let x := rx * match window with
                | Some w => innerWidth w
                | None => 1600
                end in
  ry ← Math_random random;
  let y := -80 - ry * 70 in
  rr ← Math_random random;
  let radius := 10 + rr * 6 in
  rs ← Math_random random;
  let speed := 30 + rs * 15 in
  mret {| Flake.x := x; Flake.y := y; Flake.radius := radius;
          Flake.speed := speed |}.

(** Lines 523-530. *)
Definition initialFlakes (cfg : Config) (window : option Window)
    : Gen (list Flake.t) :=
  replicate_Gen (ToLength (SNOW2D_POINTS cfg)) (newFlake window).

(** Lines 542-552: the callback of [prev.map]. *)
Definition moveFlake (window : Window) (delta : Q) (flake : Flake.t)
    : Gen Flake.t :=
  let newY := Flake.y flake + Flake.speed flake * delta in
  let newX := Flake.x flake in
  if Qltb (innerHeight window + 50) newY then
    ry ← Math_random random;
    let newY := -80 - ry * 70 in
    rx ← Math_random random;
    let newX := rx * innerWidth window in
    mret {| Flake.x := newX; Flake.y := newY;
            Flake.radius := Flake.radius flake;
            Flake.speed := Flake.speed flake |}
  else
    mret {| Flake.x := newX; Flake.y := newY;
            Flake.radius := Flake.radius flake;
            Flake.speed := Flake.speed flake |}.

(** Lines 536-553: one tick of [animate], from the clock readings [now]
    and [lastTime] in milliseconds. *)
Definition animate (window : Window) (now lastTime : Q)
    (prev : list Flake.t) : Gen (list Flake.t) :=
  let delta := (now - lastTime) / 1000 in
  map_Gen (moveFlake window delta) prev.

End Snowflakes.

(** ** Theme selection *)

(** [Object.keys(COLOR_THEMES)] *)
Definition themeKeys : list string := map fst COLOR_THEMES.

(** The own property [COLOR_THEMES[key]]. *)
Fixpoint ownProperty (entries : list (string * Theme)) (key : string)
    : option Theme :=
  match entries with
  | [] => None
  | (k, theme) :: rest =>
      if String.eqb k key then Some theme else ownProperty rest key
  end.

(** [l.indexOf(key)], -1 when absent. *)
Fixpoint indexOf (l : list string) (key : string) : Z :=
  match l with
  | [] => -1
  | k :: rest =>
      if String.eqb k key then 0%Z
      else let i := indexOf rest key in
           if (i <? 0)%Z then (-1)%Z else (i + 1)%Z
  end.

Section ThemeSelection.

(** The property names [COLOR_THEMES] inherits from [Object.prototype]
    (such as ["toString"]): reading one of them from the object yields a
    truthy value that is no theme. *)
Variable inherited : string -> bool.

(** Truthiness of [COLOR_THEMES[key]]. *)
Definition hasProperty (key : string) : bool :=
  match ownProperty COLOR_THEMES key with
  | Some _ => true
  | None => inherited key
  end.

(** Lines 665-668: the initial value of [currentTheme]. *)
Definition initialTheme (localStorage : gmap string string) : string :=
  match localStorage !! "christmasTheme"%string with
  | Some saved =>
      if negb (String.eqb saved "") && hasProperty saved then saved
      else "classic"%string
  | None => "classic"%string
  end.

End ThemeSelection.

(** Lines 878-881: the theme after [currentTheme], [None] for
    [undefined]. *)
Definition nextThemeOf (currentTheme : string) : option string :=
  let themes := themeKeys in
  let currentIndex := indexOf themes currentTheme in
  let nextIndex := Z.rem (currentIndex + 1) (Z.of_nat (length themes)) in
  if (nextIndex <? 0)%Z then None else themes !! Z.to_nat nextIndex.

(** Lines 877-883: [cycleTheme] on the theme state and the storage; an
    [undefined] theme is stored as the string ["undefined"]. *)
Definition cycleTheme (currentTheme : string)
    (localStorage : gmap string string)
    : option string * gmap string string :=
  let nextTheme := nextThemeOf currentTheme in
  (nextTheme,
   <["christmasTheme"%string := default "undefined"%string nextTheme]>
     localStorage).

(** ** The detection loop *)

(** What [detectGestures] keeps between animation frames. *)
Record DetectState : Type := {
  lastVideoTime : Q;
  gesture : GestureState
}.

(** Lines 783-798: one round of [detectGestures].  [video] is the
    [currentTime] of the video element ([None] while [videoRef.current] is
    unset); [detection] is the result of [detectForVideo] ([None] when
    there is no landmarker or the call throws). *)
Definition detectGestures {M : JSMath} (video : option Q)
    (detection : option HandLandmarkerResult) (st : DetectState)
    : DetectState :=
  match video with
  | Some currentTime =>
      if negb (Qeqb currentTime (lastVideoTime st)) then
        {| lastVideoTime := currentTime;
           gesture := match detection with
                      | Some result =>
                          stateOf (processGestures result (gesture st))
                      | None => gesture st
                      end |}
      else st
  | None => st
  end.

(** ** Classifier and scene on one shared state *)

Inductive Event : Type :=
| Classify (result : HandLandmarkerResult)
| Render (delta : Q).

Definition runEvent {M : JSMath} (e : Event) (st : SceneState) : SceneState :=
  match e with
  | Classify result =>
      {| groupRef := groupRef st;
         gestureState :=
           (fun gs => stateOf (processGestures result gs)) <$> gestureState st |}
  | Render delta => Scene_useFrame delta st
  end.

Definition runEvents {M : JSMath} (events : list Event) (st : SceneState)
    : SceneState :=
  foldl (fun st e => runEvent e st) st events.

(** ** Electron permission handlers (electron.js, lines 20-36) *)

Definition allowedPermissions : list string :=
  [ "media"; "mediaKeySystem"; "geolocation"; "notifications"; "midiSysex";
    "pointerLock"; "fullscreen" ]%string.

(** [allowedPermissions.includes(permission)] *)
Definition permissionRequestHandler (permission : string) : bool :=
  existsb (String.eqb permission) allowedPermissions.

Definition permissionCheckHandler (permission : string) : bool :=
  String.eqb permission "media".

(** ** Vocabulary of the statements *)

(** Total time of a run of frames. *)
Definition elapsed (deltas : list Q) : Q := foldr Qplus 0 deltas.

(** What remains of an offset from the target after a run of frames:
    each frame of time [delta] scales it by [1 - 2.0 * delta]. *)
Definition decay (deltas : list Q) : Q :=
  foldr (fun delta acc => (1 - 2.0 * delta) * acc) 1 deltas.

(** A frame time for which the interpolation factor lies strictly
    between 0 and 1. *)
Definition short_frame (delta : Q) : Prop := 0 < delta /\ delta < 1 # 2.

(** The numbers [m * 2 ^ e] with at most 24 bits of [m] and [e] at least
    -149: the finite binary32 numbers, without the upper bound. *)
Definition grid32 (w : Q) : Prop :=
  exists m e,
    (Z.abs m <= 2 ^ 24)%Z /\ (-149 <= e)%Z /\ w == inject_Z m * pow2 e.

(** A number that an entry of a Float32Array holds exactly. *)
Definition is_float32 (v : Q) : Prop := Math_fround v = Finite v.

(** Numbers [m * 2 ^ e] on which the rounding is cross-checked: the
    binary64 values of 0.1 and 0.2, small integers, ties and near-ties
    at 25 bits, the subnormal range and the overflow threshold. *)
Definition roundingSamples : list (Z * Z) :=
  [(0x1999999999999A, -56); (0x1999999999999A, -55);
   (-0x1999999999999A, -55); (1, 0); (5, -1); (1, -150); (3, -150);
   (1, -149); (1, -151); (2 ^ 24 + 1, 0); (2 ^ 24 + 3, 0);
   (2 ^ 25 - 1, 100); (2 ^ 25 - 1, 103); (2 ^ 24 - 1, 104); (1, 128);
   (-1, 128); (0x1FFFFFF, -170); (0x1000001, -173); (0x1000003, -173);
   (12345678901234567, -80)]%Z.

(** All three channels of a colour lie in [0, hi]. *)
Definition color_within (hi : Q) (c : THREE.Color) : Prop :=
  (0 <= THREE.r c /\ THREE.r c <= hi)
  /\ (0 <= THREE.g c /\ THREE.g c <= hi)
  /\ (0 <= THREE.b c /\ THREE.b c <= hi).

(** Every draw of the source is in [0, 1), as [Math.random] promises. *)
Definition canonical (random : nat -> Q) : Prop :=
  forall n, 0 <= random n /\ random n < 1.

(** A frame without a hand: [result.landmarks] missing or empty. *)
Definition noHand (result : HandLandmarkerResult) : Prop :=
  landmarks result = None \/ landmarks result = Some [].

(** A computable instance of the [Math] interface, for running the model
    on concrete inputs: square roots are taken to six decimals, sine,
    cosine and powers are coarse polynomial stand-ins.  No statement
    below depends on the values it gives. *)
Definition approx_sqrt (q : Q) : Q :=
  inject_Z (Z.sqrt (Qfloor (q * 1000000000000))) / 1000000.

#[global] Instance approxMath : JSMath := {|
  Math_PI := 3.141592653589793;
  Math_pow := fun v e => Qpower v (Qfloor e);
  Math_sin := fun v => v - v * v * v / 6;
  Math_cos := fun v => 1 - v * v / 2;
  Math_sqrt := approx_sqrt;
  Math_hypot := fun u v => approx_sqrt (u * u + v * v)
|}.

(** A loop body that pushes exactly [k] elements, each satisfying [P],
    whatever the array and the state of the random source it starts from. *)
Definition appends {A : Type} (k : nat) (P : A -> Prop)
    (body : list A -> Gen (list A)) : Prop :=
  forall acc s, exists ps,
    (body acc s).1 = acc ++ ps /\ length ps = k /\ Forall P ps.

(** A small configuration and a constant random source, for running the
    generators on concrete inputs. *)
Definition tinyConfig : Config := {|
  TREE_POINTS := 3;
  GROUND_POINTS := 2;
  STAR_POINTS := 31;
  HEART_POINTS := 0;
  SNOW2D_POINTS := 0;
  TREE_HEIGHT := 12.0;
  CAM_DIST := 27;
  CAM_HEIGHT := 5.0;
  PITCH := -0.25
|}.

Definition halves : nat -> Q := fun _ => 1 # 2.

Definition zeros : nat -> Q := fun _ => 0.


(** A hand of 21 landmarks: wrist at index 0, thumb tip at 4, the four
    finger tips at 8, 12, 16 and 20, and [palm] everywhere else, in
    particular at the reference index 9. *)
Definition mkHand (wrist thumb index middle ring pinky palm : Landmark.t)
    : list Landmark.t :=
  [wrist; palm; palm; palm; thumb; palm; palm; palm; index; palm; palm;
   palm; middle; palm; palm; palm; ring; palm; palm; palm; pinky].

Definition point (px py : Q) : Landmark.t :=
  {| Landmark.x := px; Landmark.y := py; Landmark.z := 0 |}.

(** An open hand: every finger tip 0.5 away from the wrist, thumb and
    index tips 0.3 apart, palm at (0.75, 0.25). *)
Definition openHand : list Landmark.t :=
  mkHand (point 0.5 0.9) (point 0.2 0.4) (point 0.5 0.4) (point 0.5 0.4)
         (point 0.5 0.4) (point 0.5 0.4) (point 0.75 0.25).

Definition scatterState : GestureState := {|
  mode := SCATTER;
  hand := {| Hand.detected := true; Hand.x := 0.8; Hand.y := -0.1 |};
  rotation := {| Rotation.x := 0.25; Rotation.y := 1.5 |}
|}.

(** A palette entry whose shimmered colour (green and blue raised by up
    to 20 levels) stays within [0, hi]. *)
Definition shimmer_ok (hi : Q) (c : RGB255) : Prop :=
  let '(cr, cg, cb) := c in
  (0 <= cr /\ cr <= 255 * hi)
  /\ (0 <= cg /\ cg + 20 <= 255 * hi)
  /\ (0 <= cb /\ cb + 20 <= 255 * hi).

(** A palette entry that stays within [0, hi] when every channel is
    raised by 40 levels. *)
Definition lifted_ok (hi : Q) (c : RGB255) : Prop :=
  let '(cr, cg, cb) := c in
  (0 <= cr /\ cr + 40 <= 255 * hi)
  /\ (0 <= cg /\ cg + 40 <= 255 * hi)
  /\ (0 <= cb /\ cb + 40 <= 255 * hi).

Definition tree_palette_ok (hi : Q) (colors : TreePalette) : Prop :=
  1 <= hi
  /\ shimmer_ok hi (deep colors)
  /\ shimmer_ok hi (medium colors)
  /\ shimmer_ok hi (light colors)
  /\ (white colors = false -> lifted_ok hi (light colors)).

Definition level (v : Q) : Prop := 0 <= v /\ v <= 255.

Definition ground_palette_ok (ground : GroundPalette) : Prop :=
  (level (fst (r ground)) /\ level (snd (r ground))
   /\ fst (r ground) + 30 <= 255)
  /\ (level (fst (g ground)) /\ level (snd (g ground))
      /\ fst (g ground) + 40 <= 255)
  /\ match b ground with
     | BNumber v => level v
     | BArray lo hi => level lo /\ level hi
     end.

Definition theme_ok (hi : Q) (theme : Theme) : Prop :=
  tree_palette_ok hi (tree theme)
  /\ ground_palette_ok (ground theme)
  /\ level (fst (stars theme)) /\ level (snd (stars theme)).

(** The vertical coordinate of a scatter target lies within [half] of
    the galaxy plane y = -2. *)
Definition scatter_near_plane (half : Q) (p : Particle) : Prop :=
  exists sx sy sz,
    scatterPos p = Some (sx, sy, sz) /\ -2 - half <= sy /\ sy <= -2 + half.

(** A ground particle sits at height -0.25 on a circle whose radius is
    within 0.3 of one of the rings. *)
Definition on_a_ring {M : JSMath} (p : Particle) : Prop :=
  exists ring radius theta,
    ring ∈ rings
    /\ ring - 0.3 <= radius /\ radius < ring + 0.3
    /\ position p
       = (Math_cos theta * radius, -0.25, Math_sin theta * radius).

(** An ornamental particle lies in the closed box of the star field, and
    its colour is a blue-white: equal red and green, full blue. *)
Definition in_star_field (p : Particle) : Prop :=
  (-18 <= at3 (position p) 0 /\ at3 (position p) 0 <= 18)
  /\ (3 <= at3 (position p) 1 /\ at3 (position p) 1 <= 18)
  /\ (-18 <= at3 (position p) 2 /\ at3 (position p) 2 <= 18)
  /\ THREE.r (color p) = THREE.g (color p)
  /\ THREE.b (color p) == 1.

(** The particles of one small heart: their heart targets share the
    depth [cz] of the heart's centre. *)
Definition flat_heart (count : nat) (block : list Particle) : Prop :=
  length block = count
  /\ exists cz, (-15 <= cz /\ cz < 15)
       /\ Forall (fun p => exists hx hy, heartPos p = Some (hx, hy, cz)) block.

(** A loop body that pushes one block satisfying [B]. *)
Definition appends_block {A : Type} (B : list A -> Prop)
    (body : list A -> Gen (list A)) : Prop :=
  forall acc s, exists ps, (body acc s).1 = acc ++ ps /\ B ps.

(** Channel [k] of a colour, in the order r, g, b of the colour buffer. *)
Definition channel (c : THREE.Color) (k : nat) : Q :=
  match k with
  | O => THREE.r c
  | Datatypes.S O => THREE.g c
  | _ => THREE.b c
  end.

(** Writing the three values [f p 0], [f p 1], [f p 2] of particle [i]
    into a flat buffer, the shape of both [forEach] callbacks that fill
    the buffers. *)
Definition write3 {A : Type} (f : Particle -> nat -> A) (i : nat)
    (p : Particle) (a : list A) : list A :=
  <[(i * 3 + 2)%nat := f p 2%nat]>
    (<[(i * 3 + 1)%nat := f p 1%nat]> (<[(i * 3)%nat := f p 0%nat]> a)).

(** A frame whose hand lies in the dead band of the classifier: no pinch,
    openness between the two thresholds. *)
Definition in_dead_band {M : JSMath} (result : HandLandmarkerResult) : Prop :=
  exists lm rest pinchDist openDist,
    landmarks result = Some (lm :: rest)
    /\ length lm = 21%nat
    /\ features lm = Some (pinchDist, openDist)
    /\ 0.05 <= pinchDist /\ 0.30 <= openDist /\ openDist <= 0.35.

(** The state never shows a mode other than TREE without a detected
    hand. *)
Definition tracked (gs : GestureState) : Prop :=
  Hand.detected (hand gs) = false -> mode gs = TREE.

Definition isClassify (e : Event) : bool :=
  match e with
  | Classify _ => true
  | Render _ => false
  end.

(** What the classifier owns of the shared state. *)
Definition classified (st : SceneState) : option (Mode * Hand.t) :=
  (fun gs => (mode gs, hand gs)) <$> gestureState st.

(** A freshly spawned flake: above the top edge, with its size and
    speed in their ranges. *)
Definition fresh_flake (width : Q) (flake : Flake.t) : Prop :=
  (-150 <= Flake.y flake /\ Flake.y flake <= -80)
  /\ (10 <= Flake.radius flake /\ Flake.radius flake <= 16)
  /\ (30 <= Flake.speed flake /\ Flake.speed flake <= 45)
  /\ exists u, (0 <= u /\ u <= 1) /\ Flake.x flake = u * width.

(** One tick of a flake: it keeps its size and speed, and either falls
    by [speed * delta] in its column or, once that would take it more
    than 50 below the bottom edge, restarts above the top edge. *)
Definition flake_step (window : Window) (delta : Q) (flake flake' : Flake.t)
    : Prop :=
  Flake.radius flake' = Flake.radius flake
  /\ Flake.speed flake' = Flake.speed flake
  /\ ((Flake.y flake + Flake.speed flake * delta <= innerHeight window + 50
       /\ Flake.x flake' = Flake.x flake
       /\ Flake.y flake' = Flake.y flake + Flake.speed flake * delta)
      \/ (innerHeight window + 50 < Flake.y flake + Flake.speed flake * delta
          /\ (-150 < Flake.y flake' /\ Flake.y flake' <= -80)
          /\ exists u, (0 <= u /\ u < 1)
               /\ Flake.x flake' = u * innerWidth window)).

(** [n] presses of the theme button, [None] once the theme is
    [undefined]. *)
Fixpoint cycleN (n : nat) (currentTheme : string) : option string :=
  match n with
  | O => Some currentTheme
  | Datatypes.S k =>
      match nextThemeOf currentTheme with
      | Some t => cycleN k t
      | None => None
      end
  end.

(** A particle without heart target, for concrete runs: base position
    [(1, 0, 0)], scatter target [(5, -2, 0)]. *)
Definition sampleParticle : Particle := {|
  position := (1, 0, 0);
  scatterPos := Some (5, -2, 0);
  heartPos := None;
  color := {| THREE.r := 1; THREE.g := 1; THREE.b := 1 |}
|}.

(** * Properties *)

(** ** Numbers *)

Lemma Qltb_true (u v : Q) : Qltb u v = true <-> u < v.
Proof.
  unfold Qltb. rewrite negb_true_iff.
  destruct (Qle_bool v u) eqn:E.
  - apply Qle_bool_iff in E. split; [discriminate | intros H; lra].
  - split; [intros _ | reflexivity].
    apply Qnot_le_lt. intros H. apply Qle_bool_iff in H. congruence.
Qed.

Lemma Qltb_false (u v : Q) : Qltb u v = false <-> v <= u.
Proof.
  destruct (Qltb u v) eqn:E.
  - apply Qltb_true in E. split; [discriminate | intros H; lra].
  - split; [intros _ | reflexivity].
    apply Qnot_lt_le. intros H. apply Qltb_true in H. congruence.
Qed.

Lemma Math_floor_le (v : Q) : Math_floor v <= v.
Proof. apply Qfloor_le. Qed.

Lemma Math_floor_ge (z : Z) (v : Q) : inject_Z z <= v -> inject_Z z <= Math_floor v.
Proof.
  intros H. unfold Math_floor. rewrite <- Zle_Qle.
  rewrite <- (Qfloor_Z z). now apply Qfloor_resp_le.
Qed.

(** Turn divisions by literals into multiplications, for [lra]. *)
Ltac qconst :=
  unfold Qdiv in *;
  repeat match goal with
  | |- context [Qinv ?c] =>
      let v := eval vm_compute in (Qinv c) in change (Qinv c) with v
  | H : context [Qinv ?c] |- _ =>
      let v := eval vm_compute in (Qinv c) in change (Qinv c) with v in H
  end.

(** In binary64 the product [50000 * 0.7] is exactly 35000 (the literal
    0.7 denotes the double 0x1.6666666666666p-1), so
    [Math.floor(CONFIG.TREE_POINTS * 0.7)] is the count the rational
    model computes. *)
Lemma spiralN_binary64 :
  floor_binary64 (50000 * 0x1.6666666666666p-1)%float = Some 35000%Z
  /\ Qfloor (TREE_POINTS CONFIG * 0.7) = 35000%Z.
Proof. split; vm_compute; reflexivity. Qed.

(** ** Rounding to binary32 *)

Lemma pow2_pos (e : Z) : 0 < pow2 e.
Proof. apply Qpower_0_lt. reflexivity. Qed.

Lemma pow2_add (a b : Z) : pow2 (a + b) == pow2 a * pow2 b.
Proof. apply Qpower_plus. discriminate. Qed.

Lemma pow2_succ (a : Z) : pow2 (a + 1) == 2 * pow2 a.
Proof. rewrite pow2_add. change (pow2 1) with 2. ring. Qed.

Lemma pow2_le (a b : Z) : (a <= b)%Z -> pow2 a <= pow2 b.
Proof. intros H. apply Qpower_le_compat_l; [assumption | discriminate]. Qed.

Lemma pow2_lt_inv (a b : Z) : pow2 a < pow2 b -> (a < b)%Z.
Proof.
  intros H. destruct (Z_lt_le_dec a b) as [| Hle]; [assumption |].
  apply pow2_le in Hle. lra.
Qed.

Lemma pow2_Z (e : Z) : (0 <= e)%Z -> pow2 e == inject_Z (2 ^ e).
Proof. intros H. unfold pow2. now rewrite Zpower_Qpower. Qed.

Lemma inject_Z_1 (a b : Z) : (a < b)%Z -> inject_Z a + 1 <= inject_Z b.
Proof.
  intros H. change 1 with (inject_Z 1). rewrite <- inject_Z_plus.
  rewrite <- Zle_Qle. lia.
Qed.

Lemma ilog2_spec (a : Q) :
  0 < a -> pow2 (ilog2 a) <= a /\ a < pow2 (ilog2 a + 1).
Proof.
  intros Ha. destruct a as [n d]. unfold ilog2. cbn [Qnum Qden].
  assert (Hn : (0 < n)%Z).
  { unfold Qlt in Ha. simpl in Ha. lia. }
  set (ln := Z.log2 n). set (ld := Z.log2 (Z.pos d)).
  destruct (Z.log2_spec n Hn) as [N1 N2]. fold ln in N1, N2.
  destruct (Z.log2_spec (Z.pos d) (Pos2Z.is_pos d)) as [D1 D2]. fold ld in D1, D2.
  assert (Hln : (0 <= ln)%Z) by apply Z.log2_nonneg.
  assert (Hld : (0 <= ld)%Z) by apply Z.log2_nonneg.
  rewrite Zle_Qle, <- pow2_Z in N1, D1 by assumption.
  replace (Z.succ ln) with (ln + 1)%Z in N2 by lia.
  replace (Z.succ ld) with (ld + 1)%Z in D2 by lia.
  rewrite Zlt_Qlt, <- pow2_Z, pow2_succ in N2, D2 by lia.
  assert (EA : (n # d) * inject_Z (Z.pos d) == inject_Z n).
  { rewrite (Qmake_Qdiv n d). field.
    intros E. assert (0 < inject_Z (Z.pos d)).
    { rewrite <- (Zlt_Qlt 0). apply Pos2Z.is_pos. }
    lra. }
  assert (EK : pow2 (ln - ld) * pow2 ld == pow2 ln).
  { rewrite <- pow2_add. replace (ln - ld + ld)%Z with ln by lia. reflexivity. }
  pose proof (pow2_pos ld) as PD. pose proof (pow2_pos (ln - ld)) as PK.
  set (A := n # d) in *. set (N := inject_Z n) in *.
  set (D := inject_Z (Z.pos d)) in *.
  set (PN := pow2 ln) in *. set (PDv := pow2 ld) in *.
  set (k := (ln - ld)%Z) in *.
  destruct (Qle_bool (pow2 k) A) eqn:E.
  - apply Qle_bool_iff in E. split; [assumption |].
    rewrite pow2_succ. set (PKv := pow2 k) in *. nra.
  - assert (E' : A < pow2 k).
    { destruct (Qlt_le_dec A (pow2 k)) as [| Hle]; [assumption |].
      apply Qle_bool_iff in Hle. congruence. }
    replace (k - 1 + 1)%Z with k by lia.
    split; [| assumption].
    assert (E2 : pow2 k == 2 * pow2 (k - 1)).
    { rewrite <- pow2_succ. replace (k - 1 + 1)%Z with k by lia. reflexivity. }
    set (PKv := pow2 k) in *. set (PK1 := pow2 (k - 1)) in *. nra.
Qed.

Lemma ilog2_unique (a : Q) (k : Z) :
  pow2 k <= a -> a < pow2 (k + 1) -> ilog2 a = k.
Proof.
  intros H1 H2.
  assert (Ha : 0 < a) by (pose proof (pow2_pos k); lra).
  destruct (ilog2_spec a Ha) as [S1 S2].
  assert (ilog2 a < k + 1)%Z by (apply pow2_lt_inv; lra).
  assert (k < ilog2 a + 1)%Z by (apply pow2_lt_inv; lra).
  lia.
Qed.

Lemma ilog2_comp (a b : Q) : 0 < a -> a == b -> ilog2 a = ilog2 b.
Proof.
  intros Ha E. destruct (ilog2_spec a Ha) as [S1 S2].
  symmetry. apply ilog2_unique; rewrite <- E; assumption.
Qed.

Lemma rne_comp (x y : Q) : x == y -> rne x = rne y.
Proof.
  intros E. unfold rne. rewrite (Qfloor_comp _ _ E).
  assert (E2 : x - inject_Z (Qfloor y) == y - inject_Z (Qfloor y)) by (rewrite E; reflexivity).
  rewrite (Qcompare_comp _ _ E2 (1 # 2) (1 # 2) (Qeq_refl _)). reflexivity.
Qed.

Lemma rne_near (y : Q) : Qabs (inject_Z (rne y) - y) <= 1 # 2.
Proof.
  unfold rne. pose proof (Qfloor_le y) as F1. pose proof (Qlt_floor y) as F2.
  rewrite inject_Z_plus in F2. change (inject_Z 1) with 1 in F2.
  set (f := Qfloor y) in *.
  destruct (Qcompare_spec (y - inject_Z f) (1 # 2)) as [E | E | E].
  - destruct (Z.even f); [| rewrite inject_Z_plus; change (inject_Z 1) with 1];
      apply Qabs_case; intros; lra.
  - apply Qabs_case; intros; lra.
  - rewrite inject_Z_plus; change (inject_Z 1) with 1.
    apply Qabs_case; intros; lra.
Qed.

(** [rne y] is an integer nearest to [y]. *)
Lemma rne_nearest (y : Q) (k : Z) :
  Qabs (inject_Z (rne y) - y) <= Qabs (inject_Z k - y).
Proof.
  pose proof (rne_near y) as H.
  destruct (Z.lt_total k (rne y)) as [L | [-> | L]].
  - apply inject_Z_1 in L. revert H. do 2 (apply Qabs_case; intros); lra.
  - lra.
  - apply inject_Z_1 in L. revert H. do 2 (apply Qabs_case; intros); lra.
Qed.

Lemma round32_zero (q : Q) : q == 0 -> round32 q = 0.
Proof. intros E. unfold round32. now rewrite (Qeq_eq_bool _ _ E). Qed.

Lemma round32_eq (q : Q) :
  ~ q == 0 ->
  round32 q == inject_Z (rne (q / pow2 (exponent32 q))) * pow2 (exponent32 q).
Proof.
  intros E. unfold round32.
  destruct (Qeq_bool q 0) eqn:B; [apply Qeq_bool_eq in B; contradiction |].
  apply Qred_correct.
Qed.

(** Case analysis on every absolute value of the goal and of the
    hypotheses, then linear arithmetic. *)
Ltac qabs :=
  repeat match goal with
         | H : context [Qabs _] |- _ => revert H
         end;
  repeat match goal with
         | |- context [Qabs ?x] => apply (Qabs_case x); intros ?
         end;
  intros; lra.

Lemma Qabs_pos_iff (q : Q) : ~ q == 0 -> 0 < Qabs q.
Proof. intros E. qabs. Qed.

Lemma exponent32_comp (x y : Q) : ~ x == 0 -> x == y -> exponent32 x = exponent32 y.
Proof.
  intros N E. unfold exponent32.
  rewrite (ilog2_comp (Qabs x) (Qabs y)); [reflexivity | now apply Qabs_pos_iff |].
  now rewrite E.
Qed.

Lemma round32_comp (x y : Q) : x == y -> round32 x = round32 y.
Proof.
  intros E. unfold round32. rewrite (Qeqb_comp _ _ E 0 0 (Qeq_refl 0)).
  destruct (Qeq_bool y 0) eqn:B; [reflexivity |].
  apply Qeq_bool_neq in B.
  assert (N : ~ x == 0) by (rewrite E; assumption).
  rewrite (exponent32_comp x y N E).
  apply Qred_complete. rewrite (rne_comp (x / pow2 (exponent32 y)) (y / pow2 (exponent32 y))).
  - reflexivity.
  - now rewrite E.
Qed.

Lemma round32_canon (q : Q) : Qred (round32 q) = round32 q.
Proof.
  unfold round32. destruct (Qeq_bool q 0); [reflexivity |].
  apply Qcanon.Qred_involutive.
Qed.

(** Equal values of [round32] are the same fraction. *)
Lemma round32_eq_leibniz (x y : Q) : round32 x == round32 y -> round32 x = round32 y.
Proof.
  intros E. rewrite <- (round32_canon x), <- (round32_canon y).
  now apply Qred_complete.
Qed.

Lemma exponent32_bounds (q : Q) :
  ~ q == 0 ->
  (-149 <= exponent32 q)%Z
  /\ Qabs q < pow2 (exponent32 q + 24)
  /\ ((-149 < exponent32 q)%Z -> pow2 (exponent32 q + 23) <= Qabs q).
Proof.
  intros N. destruct (ilog2_spec (Qabs q) (Qabs_pos_iff q N)) as [S1 S2].
  unfold exponent32.
  destruct (Z.max_spec (ilog2 (Qabs q) - 23) (-149)) as [[L ->] | [L ->]].
  - split; [lia |]. split.
    + eapply Qlt_le_trans; [exact S2 |]. apply pow2_le. lia.
    + lia.
  - split; [lia |]. split.
    + replace (ilog2 (Qabs q) - 23 + 24)%Z with (ilog2 (Qabs q) + 1)%Z by lia.
      exact S2.
    + intros _. replace (ilog2 (Qabs q) - 23 + 23)%Z with (ilog2 (Qabs q)) by lia.
      exact S1.
Qed.

Lemma Qabs_mult_pos (a p : Q) : 0 < p -> Qabs (a * p) == Qabs a * p.
Proof. intros H. rewrite Qabs_Qmult, (Qabs_pos p); [reflexivity | lra]. Qed.

(** [round32 t] is a multiple of [2 ^ exponent32 t] nearest to [t]. *)
Lemma round32_nearest_multiple (t : Q) (k : Z) :
  ~ t == 0 ->
  Qabs (round32 t - t) <= Qabs (inject_Z k * pow2 (exponent32 t) - t).
Proof.
  intros N. rewrite (round32_eq t N).
  set (P := pow2 (exponent32 t)). pose proof (pow2_pos (exponent32 t)) as HP.
  fold P in HP. set (y := t / P).
  assert (Et : t == y * P) by (unfold y; field; lra).
  assert (E1 : inject_Z (rne y) * P - t == (inject_Z (rne y) - y) * P)
    by (rewrite Et at 1; ring).
  assert (E2 : inject_Z k * P - t == (inject_Z k - y) * P)
    by (rewrite Et at 1; ring).
  rewrite E1, E2, !Qabs_mult_pos by assumption.
  pose proof (rne_nearest y k). nra.
Qed.

Lemma round32_grid (t : Q) : grid32 (round32 t).
Proof.
  destruct (Qeq_dec t 0) as [Z0 | N].
  - rewrite (round32_zero t Z0). exists 0%Z, 0%Z. repeat split; lia || reflexivity.
  - destruct (exponent32_bounds t N) as (B1 & B2 & _).
    exists (rne (t / pow2 (exponent32 t))), (exponent32 t).
    split; [| split; [assumption | now apply round32_eq]].
    set (P := pow2 (exponent32 t)) in *. pose proof (pow2_pos (exponent32 t)) as HP.
    fold P in HP. set (y := t / P).
    assert (Et : t == y * P) by (unfold y; field; lra).
    rewrite Z.add_comm, pow2_add in B2. fold P in B2.
    rewrite Et, Qabs_mult_pos in B2 by assumption.
    change (pow2 24) with (inject_Z (2 ^ 24)) in B2.
    assert (Hy : Qabs y < inject_Z (2 ^ 24)) by nra.
    pose proof (rne_near y) as Hn.
    assert (H1 : inject_Z (rne y) < inject_Z (2 ^ 24 + 1)).
    { rewrite inject_Z_plus. change (inject_Z 1) with 1.
      qabs. }
    assert (H2 : inject_Z (- (2 ^ 24 + 1)) < inject_Z (rne y)).
    { rewrite inject_Z_opp, inject_Z_plus. change (inject_Z 1) with 1.
      qabs. }
    rewrite <- Zlt_Qlt in H1, H2. lia.
Qed.

(** No binary32 number is nearer to [t] than [round32 t]. *)
Lemma round32_nearest (t w : Q) :
  grid32 w -> Qabs (round32 t - t) <= Qabs (w - t).
Proof.
  intros (m & e' & Hm & He' & Ew).
  destruct (Qeq_dec t 0) as [Z0 | N].
  { rewrite (round32_zero t Z0). rewrite Z0.
    qabs. }
  destruct (exponent32_bounds t N) as (B1 & B2 & B3).
  set (e := exponent32 t) in *.
  destruct (Z_le_gt_dec e e') as [Hle | Hgt].
  - assert (Ek : w == inject_Z (m * 2 ^ (e' - e)) * pow2 e).
    { rewrite Ew, inject_Z_mult, <- pow2_Z by lia.
      replace e' with ((e' - e) + e)%Z at 1 by lia. rewrite pow2_add. ring. }
    rewrite Ek. now apply round32_nearest_multiple.
  - specialize (B3 ltac:(lia)).
    assert (EB : inject_Z (2 ^ 23) * pow2 e == pow2 (e + 23)).
    { rewrite Z.add_comm, pow2_add. reflexivity. }
    assert (Hw : Qabs w <= pow2 (e + 23)).
    { rewrite Ew, Qabs_mult_pos by apply pow2_pos.
      assert (Qabs (inject_Z m) <= pow2 24).
      { change (pow2 24) with (inject_Z (2 ^ 24)).
        apply Qabs_case; intros _; [| rewrite <- inject_Z_opp];
          rewrite <- Zle_Qle; lia. }
      apply Qle_trans with (pow2 24 * pow2 e').
      - pose proof (pow2_pos e'). nra.
      - rewrite <- pow2_add. apply pow2_le. lia. }
    destruct (Qlt_le_dec 0 t) as [Hpos | Hneg].
    + pose proof (round32_nearest_multiple t (2 ^ 23) N) as Hn. fold e in Hn.
      rewrite EB in Hn. rewrite (Qabs_pos t) in B3 by lra.
      eapply Qle_trans; [exact Hn |].
      qabs.
    + pose proof (round32_nearest_multiple t (- 2 ^ 23) N) as Hn. fold e in Hn.
      rewrite inject_Z_opp in Hn.
      assert (EB' : - inject_Z (2 ^ 23) * pow2 e == - pow2 (e + 23))
        by (rewrite <- EB; ring).
      rewrite EB' in Hn. rewrite (Qabs_neg t) in B3 by lra.
      eapply Qle_trans; [exact Hn |].
      qabs.
Qed.

Lemma round32_fixed (w : Q) : grid32 w -> round32 w == w.
Proof.
  intros G. pose proof (round32_nearest w w G) as H.
  qabs.
Qed.

Lemma round32_idempotent (t : Q) : round32 (round32 t) = round32 t.
Proof.
  rewrite <- (round32_canon t) at 2. rewrite <- (round32_canon (round32 t)).
  apply Qred_complete. apply round32_fixed, round32_grid.
Qed.

Lemma round32_monotone (x y : Q) : x <= y -> round32 x <= round32 y.
Proof.
  intros Hxy.
  destruct (Qlt_le_dec (round32 y) (round32 x)) as [Hlt | Hle]; [| assumption].
  pose proof (round32_nearest x (round32 y) (round32_grid y)) as Hx.
  pose proof (round32_nearest y (round32 x) (round32_grid x)) as Hy.
  assert (E : x == y).
  { qabs. }
  rewrite (round32_comp x y E) in Hlt. lra.
Qed.

(** ** [Math.fround] *)

Lemma Math_fround_comp (x y : Q) : x == y -> Math_fround x = Math_fround y.
Proof. intros E. unfold Math_fround. now rewrite (round32_comp x y E). Qed.

Lemma Math_fround_finite (x : Q) :
  Qabs (round32 x) < pow2 128 -> Math_fround x = Finite (round32 x).
Proof.
  intros H. unfold Math_fround.
  destruct (Qle_bool (pow2 128) (Qabs (round32 x))) eqn:E; [| reflexivity].
  apply Qle_bool_iff in E. lra.
Qed.

Lemma Math_fround_Finite_inv (x r : Q) :
  Math_fround x = Finite r -> r = round32 x /\ Qabs r < pow2 128.
Proof.
  unfold Math_fround.
  destruct (Qle_bool (pow2 128) (Qabs (round32 x))) eqn:E; [discriminate |].
  intros [= <-]. split; [reflexivity |].
  destruct (Qlt_le_dec (Qabs (round32 x)) (pow2 128)) as [| Hle]; [assumption |].
  apply Qle_bool_iff in Hle. congruence.
Qed.

(** What [Math.fround] returns is a binary32 number. *)
Lemma Math_fround_is_float32 (x r : Q) : Math_fround x = Finite r -> is_float32 r.
Proof.
  intros H. destruct (Math_fround_Finite_inv x r H) as [-> Hb].
  unfold is_float32. rewrite Math_fround_finite; rewrite round32_idempotent;
    [reflexivity | assumption].
Qed.

Lemma is_float32_fixed (v : Q) : is_float32 v -> round32 v = v /\ Qabs v < pow2 128.
Proof.
  intros H. destruct (Math_fround_Finite_inv v v H) as [E Hb].
  split; [now symmetry | assumption].
Qed.

Lemma is_float32_eq (a b : Q) : is_float32 a -> is_float32 b -> a == b -> a = b.
Proof.
  intros Ha Hb E.
  destruct (is_float32_fixed a Ha) as [<- _].
  destruct (is_float32_fixed b Hb) as [<- _].
  now apply round32_comp.
Qed.

(** Rounding is monotone: the rounding of a number between [a] and [b]
    lies between the roundings of [a] and [b], and is finite when they
    are. *)
Lemma Math_fround_between (a b x ra rb : Q) :
  Math_fround a = Finite ra -> Math_fround b = Finite rb ->
  a <= x -> x <= b ->
  exists r, Math_fround x = Finite r /\ is_float32 r /\ ra <= r /\ r <= rb.
Proof.
  intros Ha Hb H1 H2.
  destruct (Math_fround_Finite_inv a ra Ha) as [E1 B1].
  destruct (Math_fround_Finite_inv b rb Hb) as [E2 B2].
  pose proof (round32_monotone a x H1) as R1.
  pose proof (round32_monotone x b H2) as R2.
  rewrite <- E1 in R1. rewrite <- E2 in R2.
  assert (HF : Math_fround x = Finite (round32 x)).
  { apply Math_fround_finite. qabs. }
  exists (round32 x). split; [exact HF |]. split; [| split; assumption].
  eapply Math_fround_is_float32. exact HF.
Qed.

(** On the samples [Math_fround] is the rounding to nearest, ties to
    even, of the library's binary32 format; 0.1 and 0.2 are stored as
    0.100000001490116... and 0.200000002980232.... *)
Example Math_fround_samples :
  map (fun '(m, e) => Math_fround (inject_Z m * pow2 e)) roundingSamples
  = map (fun '(m, e) => binary32_normalize m e) roundingSamples
  /\ Math_fround 0.1 = Finite (13421773 # 134217728)
  /\ Math_fround 0.2 = Finite (13421773 # 67108864)
  /\ Math_fround (pow2 128 - pow2 103) = Infinite false
  /\ Math_fround (- pow2 128) = Infinite true
  /\ is_float32 ((pow2 24 - 1) * pow2 104).
Proof. repeat split; vm_compute; reflexivity. Qed.

(** ** Buffers of [Particles] *)

Lemma write3_length {A : Type} (f : Particle -> nat -> A) i p (a : list A) :
  length (write3 f i p a) = length a.
Proof. unfold write3. now rewrite !length_insert. Qed.

Lemma forEach_write3_length {A : Type} (f : Particle -> nat -> A)
    (points : list Particle) :
  forall k (a : list A), length (forEach_from k (write3 f) points a) = length a.
Proof.
  induction points as [| p points IH]; intros k a; simpl; [reflexivity |].
  now rewrite IH, write3_length.
Qed.

Lemma write3_lookup_other {A : Type} (f : Particle -> nat -> A) i p
    (a : list A) j :
  (j < i * 3 \/ i * 3 + 3 <= j)%nat -> write3 f i p a !! j = a !! j.
Proof.
  intros H. unfold write3. now rewrite !list_lookup_insert_ne by lia.
Qed.

Lemma write3_lookup_own {A : Type} (f : Particle -> nat -> A) i p
    (a : list A) c :
  (c < 3)%nat -> (i * 3 + c < length a)%nat ->
  write3 f i p a !! (i * 3 + c)%nat = Some (f p c).
Proof.
  intros Hc Hlen. unfold write3.
  destruct c as [| [| [| c]]]; [| | | lia].
  - rewrite !list_lookup_insert_ne by lia. rewrite Nat.add_0_r in *.
    now apply list_lookup_insert_eq.
  - rewrite list_lookup_insert_ne by lia.
    apply list_lookup_insert_eq. now rewrite length_insert.
  - apply list_lookup_insert_eq. now rewrite !length_insert.
Qed.

Lemma forEach_write3_before {A : Type} (f : Particle -> nat -> A)
    (points : list Particle) :
  forall k (a : list A) j,
    (j < k * 3)%nat -> forEach_from k (write3 f) points a !! j = a !! j.
Proof.
  induction points as [| p points IH]; intros k a j Hj; simpl; [reflexivity |].
  rewrite IH by lia. apply write3_lookup_other. lia.
Qed.

Lemma forEach_write3_lookup {A : Type} (f : Particle -> nat -> A)
    (points : list Particle) :
  forall k (a : list A) i p c,
    points !! i = Some p ->
    (c < 3)%nat ->
    ((k + i) * 3 + c < length a)%nat ->
    forEach_from k (write3 f) points a !! ((k + i) * 3 + c)%nat = Some (f p c).
Proof.
  induction points as [| q points IH]; intros k a i p c Hp Hc Hlen.
  - discriminate.
  - destruct i as [| i]; simpl in Hp |- *.
    + injection Hp as ->. rewrite Nat.add_0_r in *.
      rewrite forEach_write3_before by lia. now apply write3_lookup_own.
    + replace (k + Datatypes.S i)%nat with (Datatypes.S k + i)%nat in * by lia.
      apply IH; [assumption | assumption |]. now rewrite write3_length.
Qed.

Lemma initialPositions_length (points : list Particle) :
  length (initialPositions points) = (length points * 3)%nat.
Proof.
  unfold initialPositions. induction points as [| p points IH]; [reflexivity |].
  simpl. destruct (position p) as [[px py] pz]. simpl. rewrite IH. lia.
Qed.

Lemma initialPositions_lookup (points : list Particle) :
  forall i p c,
    points !! i = Some p -> (c < 3)%nat ->
    initialPositions points !! (i * 3 + c)%nat
    = Some (Math_fround (at3 (position p) c)).
Proof.
  unfold initialPositions.
  induction points as [| q points IH]; intros i p c Hp Hc; [discriminate |].
  simpl. destruct i as [| i]; simpl in Hp.
  - injection Hp as ->. destruct (position p) as [[px py] pz].
    destruct c as [| [| [| c]]]; [reflexivity | reflexivity | reflexivity | lia].
  - destruct (position q) as [[qx qy] qz].
    replace (Datatypes.S i * 3 + c)%nat
      with (Datatypes.S (Datatypes.S (Datatypes.S (i * 3 + c)))) by lia.
    simpl. now apply IH.
Qed.

Lemma positionsArray_lookup (points : list Particle) i p c :
  points !! i = Some p -> (c < 3)%nat ->
  positionsArray points !! (i * 3 + c)%nat
  = Some (Math_fround (at3 (position p) c)).
Proof.
  intros Hp Hc.
  apply (forEach_write3_lookup (fun p k => Math_fround (at3 (position p) k))
           points 0 (Float32Array_new (length points * 3)) i p c Hp Hc).
  unfold Float32Array_new. rewrite length_replicate.
  apply lookup_lt_Some in Hp. simpl. lia.
Qed.

Lemma positionsArray_length (points : list Particle) :
  length (positionsArray points) = (length points * 3)%nat.
Proof.
  unfold positionsArray.
  rewrite (forEach_write3_length (fun p k => Math_fround (at3 (position p) k))).
  apply length_replicate.
Qed.

(** ** Interpolator *)

Lemma lerpAt_length idx t s (positions : list float32) :
  length (lerpAt idx t s positions) = length positions.
Proof.
  unfold lerpAt. destruct (positions !! idx); [apply length_insert | reflexivity].
Qed.

Lemma lerpAt_lookup_eq idx t s (positions : list float32) v :
  positions !! idx = Some v ->
  lerpAt idx t s positions !! idx = Some (lerp v t s).
Proof.
  intros H. unfold lerpAt. rewrite H.
  apply list_lookup_insert_eq. eapply lookup_lt_Some; eassumption.
Qed.

Lemma lerpAt_lookup_ne idx j t s (positions : list float32) :
  idx <> j -> lerpAt idx t s positions !! j = positions !! j.
Proof.
  intros H. unfold lerpAt. destruct (positions !! idx); [| reflexivity].
  now apply list_lookup_insert_ne.
Qed.

Lemma moveParticle_lookup_other mode s i p (positions : list float32) j :
  (j < i * 3 \/ i * 3 + 3 <= j)%nat ->
  moveParticle mode s i p positions !! j = positions !! j.
Proof.
  intros H. unfold moveParticle. destruct (selectTarget mode p) as [[tx ty] tz].
  rewrite !lerpAt_lookup_ne by lia. reflexivity.
Qed.

Lemma moveParticle_lookup_own mode s i p (positions : list float32) c v :
  (c < 3)%nat ->
  positions !! (i * 3 + c)%nat = Some v ->
  moveParticle mode s i p positions !! (i * 3 + c)%nat
  = Some (lerp v (at3 (selectTarget mode p) c) s).
Proof.
  intros Hc Hv. unfold moveParticle.
  destruct (selectTarget mode p) as [[tx ty] tz]. simpl at3.
  destruct c as [| [| [| c]]]; [| | | lia].
  - rewrite !lerpAt_lookup_ne by lia. rewrite Nat.add_0_r in *.
    now apply lerpAt_lookup_eq.
  - rewrite lerpAt_lookup_ne by lia.
    apply lerpAt_lookup_eq. now rewrite lerpAt_lookup_ne by lia.
  - apply lerpAt_lookup_eq. now rewrite !lerpAt_lookup_ne by lia.
Qed.

Lemma forEach_move_lookup_before mode s (points : list Particle) :
  forall k (positions : list float32) j,
    (j < k * 3)%nat ->
    forEach_from k (moveParticle mode s) points positions !! j = positions !! j.
Proof.
  induction points as [| p points IH]; intros k positions j Hj; simpl.
  - reflexivity.
  - rewrite IH by lia. apply moveParticle_lookup_other. lia.
Qed.

(** One frame moves coordinate [c] of particle [k + i] by one
    interpolation step toward its target and touches it only once. *)
Lemma forEach_move_lookup mode s (points : list Particle) :
  forall k (positions : list float32) i p c v,
    points !! i = Some p ->
    (c < 3)%nat ->
    positions !! ((k + i) * 3 + c)%nat = Some v ->
    forEach_from k (moveParticle mode s) points positions !! ((k + i) * 3 + c)%nat
    = Some (lerp v (at3 (selectTarget mode p) c) s).
Proof.
  induction points as [| q points IH]; intros k positions i p c v Hp Hc Hv.
  - discriminate.
  - destruct i as [| i]; simpl in Hp |- *.
    + injection Hp as ->. rewrite Nat.add_0_r in *.
      rewrite forEach_move_lookup_before by lia.
      now apply moveParticle_lookup_own.
    + replace (k + Datatypes.S i)%nat with (Datatypes.S k + i)%nat in * by lia.
      apply IH; [assumption | assumption |].
      rewrite moveParticle_lookup_other by lia. assumption.
Qed.

Lemma Particles_useFrame_lookup points mode delta (positions : list float32)
    i p c v :
  points !! i = Some p ->
  (c < 3)%nat ->
  positions !! (i * 3 + c)%nat = Some v ->
  exists positions',
    Particles_useFrame points mode delta (Some positions) = Some positions'
    /\ positions' !! (i * 3 + c)%nat
       = Some (lerp v (at3 (selectTarget mode p) c) (2.0 * delta)).
Proof.
  intros Hp Hc Hv. eexists. split; [reflexivity |].
  apply (forEach_move_lookup mode (2.0 * delta) points 0 positions i p c v);
    assumption.
Qed.



Lemma decay_cons delta deltas :
  decay (delta :: deltas) = (1 - 2.0 * delta) * decay deltas.
Proof. reflexivity. Qed.

Lemma decay_short deltas :
  Forall short_frame deltas ->
  0 < decay deltas /\ decay deltas <= 1
  /\ decay deltas * (1 + 2 * elapsed deltas) <= 1
  /\ 0 <= elapsed deltas.
Proof.
  induction 1 as [| delta deltas [Hd0 Hd1] _ (IH0 & IH1 & IH2 & IH3)].
  - cbn. repeat split; lra.
  - rewrite decay_cons. change (elapsed (delta :: deltas)) with (delta + elapsed deltas).
    set (D := decay deltas) in *. set (T := elapsed deltas) in *.
    repeat split; try nra.
Qed.


(** A property of an entry that every frame of a kind [F] preserves
    holds after any run of such frames. *)
Lemma Particles_frames_invariant (I : float32 -> Prop) (F : Q -> Prop)
    points mode i p c :
  points !! i = Some p ->
  (c < 3)%nat ->
  (forall delta cur,
     F delta -> I cur ->
     I (lerp cur (at3 (selectTarget mode p) c) (2.0 * delta))) ->
  forall deltas (positions : list float32) cur,
    Forall F deltas ->
    positions !! (i * 3 + c)%nat = Some cur ->
    I cur ->
    exists positions' cur',
      Particles_frames points mode deltas (Some positions) = Some positions'
      /\ positions' !! (i * 3 + c)%nat = Some cur'
      /\ I cur'.
Proof.
  intros Hp Hc Hstep.
  induction deltas as [| delta deltas IH]; intros positions cur HF Hv HI.
  - exists positions, cur. repeat split; assumption.
  - inversion HF as [| ? ? Hd HF']; subst.
    destruct (Particles_useFrame_lookup points mode delta positions i p c cur
                Hp Hc Hv) as (positions1 & Hrun1 & Hv1).
    destruct (IH positions1 _ HF' Hv1 (Hstep _ _ Hd HI))
      as (positions' & cur' & Hrun & Hv' & HI').
    exists positions', cur'.
    change (Particles_frames points mode (delta :: deltas) (Some positions))
      with (Particles_frames points mode deltas
              (Particles_useFrame points mode delta (Some positions))).
    rewrite Hrun1. repeat split; assumption.
Qed.

Lemma Qabs_scale (a b d : Q) : 0 <= d -> a == b * d -> Qabs a == Qabs b * d.
Proof.
  intros Hd H. rewrite H, Qabs_Qmult. rewrite (Qabs_pos d) by assumption.
  reflexivity.
Qed.

(** One step with a factor in [0, 1], from a binary32 entry toward a
    target whose rounding [rt] is finite: the stored result is a binary32
    number between the entry and [rt], and no farther from the target. *)
Lemma lerp_settles (v t rt lam : Q) :
  is_float32 v ->
  Math_fround t = Finite rt ->
  0 <= lam -> lam <= 1 ->
  exists v',
    Math_fround (v + (t - v) * lam) = Finite v'
    /\ is_float32 v'
    /\ (v <= rt -> v <= v' /\ v' <= rt)
    /\ (rt <= v -> rt <= v' /\ v' <= v)
    /\ Qabs (v' - t) <= Qabs (v - t).
Proof.
  intros Hv Ht L0 L1.
  destruct (Math_fround_Finite_inv t rt Ht) as [Ert _].
  destruct (is_float32_fixed v Hv) as [Ev _].
  assert (Hnear : Qabs (rt - t) <= Qabs (v - t)).
  { rewrite Ert. apply round32_nearest. rewrite <- Ev. apply round32_grid. }
  destruct (Qlt_le_dec t v) as [Hgt | Hle].
  - destruct (Math_fround_between t v (v + (t - v) * lam) rt v Ht Hv)
      as (r & Hr & Fr & R1 & R2); [nra | nra |].
    exists r. repeat apply conj; try assumption; try lra;
      try (intros; split; lra).
    qabs.
  - destruct (Math_fround_between v t (v + (t - v) * lam) v rt Hv Ht)
      as (r & Hr & Fr & R1 & R2); [nra | nra |].
    exists r. repeat apply conj; try assumption; try lra;
      try (intros; split; lra).
    qabs.
Qed.

(** An entry that holds the rounding of its target stays there under a
    step with a factor in [0, 1]. *)
Lemma lerp_rests (t v lam : Q) :
  Math_fround t = Finite v ->
  0 <= lam -> lam <= 1 ->
  Math_fround (v + (t - v) * lam) = Finite v.
Proof.
  intros Ht L0 L1.
  pose proof (Math_fround_is_float32 t v Ht) as Hv.
  destruct (lerp_settles v t v lam Hv Ht L0 L1) as (v' & Hr & Fr & R1 & _ & _).
  rewrite Hr. f_equal. apply is_float32_eq; [assumption | assumption |].
  specialize (R1 ltac:(lra)). lra.
Qed.







(** ** Loops of the generators *)

Lemma Gen_bind_run {A B : Type} (m : Gen A) (k : A -> Gen B) (s : nat) :
  (a ← m; k a) s = k (m s).1 (m s).2.
Proof. unfold mbind, Gen_bind. destruct (m s). reflexivity. Qed.

Lemma for_range_appends {A : Type} (k : nat) (P : A -> Prop)
    (body : nat -> list A -> Gen (list A)) :
  (forall i, appends k P (body i)) ->
  forall n i, appends (n * k) P (for_range i n body).
Proof.
  intros Hbody. induction n as [| n IH]; intros i acc s.
  - exists []. simpl. rewrite app_nil_r. auto.
  - destruct (Hbody i acc s) as (ps1 & E1 & L1 & F1).
    destruct (IH (Datatypes.S i) (body i acc s).1 (body i acc s).2)
      as (ps2 & E2 & L2 & F2).
    exists (ps1 ++ ps2).
    change (for_range i (Datatypes.S n) body acc s)
      with ((acc' ← body i acc; for_range (Datatypes.S i) n body acc') s).
    rewrite Gen_bind_run, E2, E1, <- app_assoc.
    split; [reflexivity |]. split.
    + rewrite length_app. simpl. lia.
    + apply Forall_app. auto.
Qed.

Lemma for_lt_appends {A : Type} (k : nat) (P : A -> Prop) (n : Q)
    (body : nat -> list A -> Gen (list A)) :
  (forall i, appends k P (body i)) ->
  appends (Z.to_nat (Qceiling n) * k) P (for_lt n body).
Proof. intros H. apply for_range_appends. assumption. Qed.

Lemma push_appends (P : Particle -> Prop) (f : Gen Particle) :
  (forall s, P (f s).1) ->
  appends 1 P (fun points => p ← f; mret (push points p)).
Proof.
  intros H acc s. exists [(f s).1].
  rewrite Gen_bind_run. repeat split.
  constructor; [apply H | constructor].
Qed.

Section GeneratorFacts.
Context {M : JSMath}.
Variable random : nat -> Q.
Variable cfg : Config.

(** The canopy is the pushes of the first loop followed by those of the
    second. *)
Lemma generateTreePoints_split (P1 P2 : Particle -> Prop) theme :
  (forall s, P1 (spiralParticle random cfg (tree theme) s).1) ->
  (forall s, P2 (fillParticle random cfg (tree theme) s).1) ->
  forall s, exists spiral fill,
    (generateTreePoints random cfg theme s).1 = spiral ++ fill
    /\ length spiral = Z.to_nat (Qceiling (spiralN cfg))
    /\ length fill = Z.to_nat (Qceiling (fillN cfg))
    /\ Forall P1 spiral
    /\ Forall P2 fill.
Proof.
  intros H1 H2 s. unfold generateTreePoints.
  pose proof (for_lt_appends 1 P1 (spiralN cfg) _
                (fun _ => push_appends P1 _ H1)) as L1.
  pose proof (for_lt_appends 1 P2 (fillN cfg) _
                (fun _ => push_appends P2 _ H2)) as L2.
  destruct (L1 [] s) as (spiral & E1 & N1 & F1).
  rewrite Gen_bind_run, E1. simpl app. rewrite Gen_bind_run.
  match goal with |- context [for_lt (fillN cfg) ?body spiral ?s'] =>
    destruct (L2 spiral s') as (fill & E2 & N2 & F2)
  end.
  exists spiral, fill. cbn [mret Gen_ret fst].
  repeat split; try assumption; lia.
Qed.

Lemma spiralParticle_heartPos colors s :
  heartPos (spiralParticle random cfg colors s).1 = None.
Proof.
  unfold spiralParticle. rewrite !Gen_bind_run. reflexivity.
Qed.

Lemma fillParticle_heartPos colors s :
  is_Some (heartPos (fillParticle random cfg colors s).1).
Proof.
  unfold fillParticle. rewrite !Gen_bind_run. eexists. reflexivity.
Qed.

End GeneratorFacts.

Lemma for_range_push_first (f : Gen Particle) n i s :
  (for_range i (Datatypes.S n)
     (fun _ points => p ← f; mret (push points p)) [] s).1 !! 0%nat
  = Some (f s).1.
Proof.
  cbn [for_range]. rewrite !Gen_bind_run. cbn [mret Gen_ret fst snd].
  match goal with
  | |- context [for_range ?j n ?body ?acc ?s'] =>
      destruct (for_range_appends 1 (fun _ => True) body
                  (fun _ => push_appends _ _ (fun _ => I)) n j acc s')
        as (ps & E & _ & _)
  end.
  rewrite E. reflexivity.
Qed.

(** The first particle of the canopy is the one the first iteration of
    the spiral loop pushes. *)
Lemma generateTreePoints_first {M : JSMath} random cfg theme s :
  (0 < Z.to_nat (Qceiling (spiralN cfg)))%nat ->
  (generateTreePoints random cfg theme s).1 !! 0%nat
  = Some (spiralParticle random cfg (tree theme) s).1.
Proof.
  intros Hpos. unfold generateTreePoints.
  rewrite !Gen_bind_run. cbn [mret Gen_ret fst snd].
  match goal with
  | |- context [for_lt (fillN cfg) ?body ?acc ?s'] =>
      destruct (for_lt_appends 1 (fun _ => True) (fillN cfg) body
                  (fun _ => push_appends _ _ (fun _ => I)) acc s')
        as (ps2 & E2 & _ & _)
  end.
  rewrite E2. unfold for_lt.
  destruct (Z.to_nat (Qceiling (spiralN cfg))) as [| n]; [lia |].
  pose proof (for_range_push_first (spiralParticle random cfg (tree theme))
                n 0%nat s) as F.
  rewrite lookup_app_l; [exact F |].
  eapply lookup_lt_Some. exact F.
Qed.

(** C5.  Under every theme and every random draw, the canopy generated
    with [TREE_POINTS = 50000] is 35000 particles pushed by the spiral
    loop followed by 15000 particles pushed by the fill loop, 50000 in
    all.  The spiral particles are those without heart target. *)
Theorem C5_canopy_counts (M : JSMath) (random : nat -> Q) (theme : Theme)
    (s : nat) :
  exists spiral fill,
    (generateTreePoints random CONFIG theme s).1 = spiral ++ fill
    /\ Z.of_nat (length spiral) = 35000%Z
    /\ Z.of_nat (length fill) = 15000%Z
    /\ Z.of_nat (length (generateTreePoints random CONFIG theme s).1) = 50000%Z
    /\ Forall (fun p => (exists s', p = (spiralParticle random CONFIG (tree theme) s').1)
                        /\ heartPos p = None) spiral
    /\ Forall (fun p => (exists s', p = (fillParticle random CONFIG (tree theme) s').1)
                        /\ is_Some (heartPos p)) fill.
Proof.
  destruct (generateTreePoints_split random CONFIG
              (fun p => (exists s', p = (spiralParticle random CONFIG (tree theme) s').1)
                        /\ heartPos p = None)
              (fun p => (exists s', p = (fillParticle random CONFIG (tree theme) s').1)
                        /\ is_Some (heartPos p))
              theme) with (s := s) as (spiral & fill & E & N1 & N2 & F1 & F2).
  - intros s'. split; [eexists; reflexivity | apply spiralParticle_heartPos].
  - intros s'. split; [eexists; reflexivity | apply fillParticle_heartPos].
  - exists spiral, fill.
    assert (L1 : Z.of_nat (length spiral) = 35000%Z)
      by (rewrite N1, Z2Nat.id; vm_compute; [reflexivity | discriminate]).
    assert (L2 : Z.of_nat (length fill) = 15000%Z)
      by (rewrite N2, Z2Nat.id; vm_compute; [reflexivity | discriminate]).
    repeat apply conj; try assumption.
    rewrite E, length_app. lia.
Qed.

(** C6 (amended).  A particle pushed by the spiral loop of the canopy has
    no heart target; in HEART mode the interpolator selects its base
    position as target; and an entry of it that rests at its base
    coordinate, which in the buffer is the binary32 rounding of that
    coordinate, is left there by a HEART-mode frame of at most half a
    second. *)
Theorem C6_spiral_particles_stay_in_heart_mode (M : JSMath)
    (random : nat -> Q) (cfg : Config) (theme : Theme) (s i : nat)
    (p : Particle) :
  (generateTreePoints random cfg theme s).1 !! i = Some p ->
  (i < Z.to_nat (Qceiling (spiralN cfg)))%nat ->
  heartPos p = None
  /\ selectTarget HEART p = position p
  /\ forall delta (positions : list float32) c v,
       (c < 3)%nat ->
       Math_fround (at3 (position p) c) = Finite v ->
       positions !! (i * 3 + c)%nat = Some (Finite v) ->
       0 <= delta -> delta <= 1 # 2 ->
       exists positions',
         Particles_useFrame (generateTreePoints random cfg theme s).1 HEART
           delta (Some positions) = Some positions'
         /\ positions' !! (i * 3 + c)%nat = Some (Finite v).
Proof.
  intros Hp Hi.
  destruct (generateTreePoints_split random cfg
              (fun p => heartPos p = None) (fun _ => True) theme
              (spiralParticle_heartPos random cfg (tree theme))
              (fun _ => I) s)
    as (spiral & fill & E & N1 & _ & F1 & _).
  assert (Hheart : heartPos p = None).
  { pose proof Hp as Hp'. rewrite E, lookup_app_l in Hp' by lia.
    rewrite Forall_forall in F1. apply F1.
    eapply list_elem_of_lookup_2. eassumption. }
  assert (Htarget : selectTarget HEART p = position p).
  { unfold selectTarget. simpl. rewrite Hheart. reflexivity. }
  repeat apply conj; try assumption.
  intros delta positions c v Hc Hrest Hv H0 H1.
  destruct (Particles_useFrame_lookup _ HEART delta positions i p c _ Hp Hc Hv)
    as (positions' & Hrun & Hv').
  exists positions'. split; [exact Hrun |].
  rewrite Hv', Htarget. cbn [lerp]. f_equal.
  apply lerp_rests; [assumption | lra | lra].
Qed.

Lemma C6_spiral_particles_stay_in_heart_mode_witness :
  let points := (generateTreePoints halves tinyConfig red 0%nat).1 in
  let p := (spiralParticle halves tinyConfig (tree red) 0%nat).1 in
  heartPos p = None
  /\ selectTarget HEART p = position p
  /\ forall delta (positions : list float32) c v,
       (c < 3)%nat ->
       Math_fround (at3 (position p) c) = Finite v ->
       positions !! (0 * 3 + c)%nat = Some (Finite v) ->
       0 <= delta -> delta <= 1 # 2 ->
       exists positions',
         Particles_useFrame points HEART delta (Some positions) = Some positions'
         /\ positions' !! (0 * 3 + c)%nat = Some (Finite v).
Proof.
  apply (C6_spiral_particles_stay_in_heart_mode approxMath halves tinyConfig
           red 0%nat 0%nat).
  - vm_compute. reflexivity.
  - vm_compute. lia.
Defined.

(** C6 as stated fails on a long frame.  With every draw 0 the first
    canopy particle, a spiral particle, has height 0.2, which is no
    binary32 number: the buffer built from the base positions holds
    13421773 / 2^26 in its place.  A HEART-mode frame of three seconds
    moves that entry, which rests at the base position, one binary32
    step down. *)
Lemma C6_counterexample :
  let points := (generateTreePoints zeros CONFIG classic 0%nat).1 in
  exists p positions',
    canonical zeros
    /\ points !! 0%nat = Some p
    /\ (0 < Z.to_nat (Qceiling (spiralN CONFIG)))%nat
    /\ heartPos p = None
    /\ at3 (position p) 1 == 0.2
    /\ positionsArray points !! 1%nat = Some (Finite (13421773 # 67108864))
    /\ Particles_useFrame points HEART 3 (Some (positionsArray points))
       = Some positions'
    /\ positions' !! 1%nat = Some (Finite (3355443 # 16777216))
    /\ positions' !! 1%nat <> positionsArray points !! 1%nat.
Proof.
  intros points.
  assert (Hn : (0 < Z.to_nat (Qceiling (spiralN CONFIG)))%nat).
  { replace (Qceiling (spiralN CONFIG)) with 35000%Z by (vm_compute; reflexivity).
    lia. }
  pose proof (generateTreePoints_first zeros CONFIG classic 0%nat Hn) as Hp.
  fold points in Hp. clearbody points.
  set (p := (spiralParticle zeros CONFIG (tree classic) 0%nat).1) in *.
  assert (Hc : (1 < 3)%nat) by lia.
  pose proof (positionsArray_lookup points 0 p 1 Hp Hc) as Hrest.
  destruct (Particles_useFrame_lookup points HEART 3 (positionsArray points)
              0 p 1 _ Hp Hc Hrest) as (positions' & Hrun & Hv').
  change (0 * 3 + 1)%nat with 1%nat in Hrest, Hv'.
  assert (E0 : Math_fround (at3 (position p) 1) = Finite (13421773 # 67108864))
    by (vm_compute; reflexivity).
  assert (E1 : lerp (Math_fround (at3 (position p) 1))
                 (at3 (selectTarget HEART p) 1) (2.0 * 3)
               = Finite (3355443 # 16777216))
    by (vm_compute; reflexivity).
  rewrite E0 in Hrest. rewrite E1 in Hv'.
  exists p, positions'.
  repeat apply conj; try assumption.
  - intros n. split; [discriminate | reflexivity].
  - vm_compute. reflexivity.
  - vm_compute. reflexivity.
  - rewrite Hv', Hrest. discriminate.
Qed.

(** ** Gesture classifier *)






(** The examples of the specification, on the code's table. *)
Example classify_examples (M : JSMath) :
  stateOf (classify 0.02 0.50 scatterState) = set_mode HEART scatterState
  /\ stateOf (classify 0.10 0.20 scatterState) = set_mode TREE scatterState
  /\ stateOf (classify 0.10 0.50 initialGestureState)
     = set_mode SCATTER initialGestureState
  /\ stateOf (classify 0.10 0.32 scatterState) = scatterState.
Proof. repeat split. Qed.

Example openHand_is_scatter :
  mode (stateOf (processGestures {| landmarks := Some [openHand] |}
                   initialGestureState)) = SCATTER
  /\ exists pinchDist openDist,
       features openHand = Some (pinchDist, openDist)
       /\ pinchDist == 0.3 /\ openDist == 0.5.
Proof.
  split; [vm_compute; reflexivity |].
  eexists. eexists. split; [vm_compute; reflexivity |]. split; reflexivity.
Qed.

(** C4.  On a frame without a detected hand the classifier sets
    [hand.detected] to false and the mode to TREE, whatever the previous
    mode. *)
Theorem C4_no_hand_falls_back_to_tree (M : JSMath)
    (result : HandLandmarkerResult) (gs : GestureState) :
  noHand result ->
  exists gs',
    processGestures result gs = Normal gs' HintWaiting
    /\ Hand.detected (hand gs') = false
    /\ mode gs' = TREE.
Proof.
  intros [H | H]; unfold processGestures; rewrite H;
    eexists; repeat split.
Qed.

Lemma C4_no_hand_falls_back_to_tree_witness :
  exists gs',
    processGestures {| landmarks := Some [] |} scatterState
    = Normal gs' HintWaiting
    /\ Hand.detected (hand gs') = false
    /\ mode gs' = TREE.
Proof.
  apply (C4_no_hand_falls_back_to_tree approxMath {| landmarks := Some [] |}
           scatterState).
  right. reflexivity.
Defined.

Lemma processGestures_rotation {M : JSMath} result gs :
  rotation (stateOf (processGestures result gs)) = rotation gs.
Proof.
  unfold processGestures.
  destruct (landmarks result) as [[| lm rest] |]; try reflexivity.
  destruct (lm !! 9%nat) as [lm9 |]; [| reflexivity].
  destruct (features lm) as [[pinchDist openDist] |]; [| reflexivity].
  unfold classify.
  destruct (Qltb pinchDist 0.05); [reflexivity |].
  destruct (Qltb openDist 0.30); [reflexivity |].
  destruct (Qltb 0.35 openDist); reflexivity.
Qed.

Lemma processGestures_noHand_hand {M : JSMath} result gs :
  noHand result ->
  Hand.x (hand (stateOf (processGestures result gs))) = Hand.x (hand gs)
  /\ Hand.y (hand (stateOf (processGestures result gs))) = Hand.y (hand gs)
  /\ Hand.detected (hand (stateOf (processGestures result gs))) = false
  /\ mode (stateOf (processGestures result gs)) = TREE.
Proof.
  intros [H | H]; unfold processGestures; rewrite H; repeat split.
Qed.

Lemma processGestures_detected_hand {M : JSMath} result lm rest lm9 gs :
  landmarks result = Some (lm :: rest) ->
  lm !! 9%nat = Some lm9 ->
  Hand.x (hand (stateOf (processGestures result gs)))
  = (Landmark.x lm9 - 0.5) * 2
  /\ Hand.y (hand (stateOf (processGestures result gs)))
     = (Landmark.y lm9 - 0.5) * 2
  /\ Hand.detected (hand (stateOf (processGestures result gs))) = true.
Proof.
  intros Hlm H9. unfold processGestures. rewrite Hlm, H9.
  destruct (features lm) as [[pinchDist openDist] |]; [| repeat split].
  unfold classify.
  destruct (Qltb pinchDist 0.05); [repeat split |].
  destruct (Qltb openDist 0.30); [repeat split |].
  destruct (Qltb 0.35 openDist); repeat split.
Qed.

Lemma processFrames_noHand {M : JSMath} results :
  Forall noHand results ->
  forall gs,
    Hand.x (hand (processFrames results gs)) = Hand.x (hand gs)
    /\ Hand.y (hand (processFrames results gs)) = Hand.y (hand gs)
    /\ (results <> [] ->
        Hand.detected (hand (processFrames results gs)) = false
        /\ mode (processFrames results gs) = TREE).
Proof.
  induction 1 as [| result results Hno _ IH]; intros gs.
  - repeat split; congruence.
  - change (processFrames (result :: results) gs)
      with (processFrames results (stateOf (processGestures result gs))).
    destruct (IH (stateOf (processGestures result gs))) as (Hx & Hy & Hd).
    destruct (processGestures_noHand_hand result gs Hno) as (Hx1 & Hy1 & Hd1 & Hm1).
    rewrite Hx, Hy, Hx1, Hy1. repeat apply conj; try reflexivity.
    intros _. destruct results as [| r results'].
    + split; assumption.
    + apply Hd. discriminate.
Qed.

Lemma processFrames_rotation {M : JSMath} results :
  forall gs, rotation (processFrames results gs) = rotation gs.
Proof.
  induction results as [| f frames IH]; intros gs; [reflexivity |].
  change (processFrames (f :: frames) gs)
    with (processFrames frames (stateOf (processGestures f gs))).
  rewrite IH. apply processGestures_rotation.
Qed.

(** C10.  On a frame without a hand the classifier writes only
    [hand.detected] and [mode]: [hand.x], [hand.y] and the rotation keep
    their values.  So after a frame with a hand followed by any number of
    frames without one, [hand.x] and [hand.y] still hold the position
    seen in that last detected frame, while [hand.detected] is false.
    On no frame, with or without a hand, does the classifier write the
    rotation. *)
Theorem C10_classifier_writes (M : JSMath)
    (noHandFrame anyFrame : HandLandmarkerResult) (gs : GestureState)
    (lm : list Landmark.t) (rest : list (list Landmark.t))
    (lm9 : Landmark.t) (later : list HandLandmarkerResult) :
  noHand noHandFrame ->
  lm !! 9%nat = Some lm9 ->
  Forall noHand later ->
  (Hand.x (hand (stateOf (processGestures noHandFrame gs))) = Hand.x (hand gs)
   /\ Hand.y (hand (stateOf (processGestures noHandFrame gs))) = Hand.y (hand gs)
   /\ rotation (stateOf (processGestures noHandFrame gs)) = rotation gs)
  /\ rotation (stateOf (processGestures anyFrame gs)) = rotation gs
  /\ rotation (processFrames (anyFrame :: later) gs) = rotation gs
  /\ (let gs' := processFrames ({| landmarks := Some (lm :: rest) |} :: later) gs in
      Hand.x (hand gs') = (Landmark.x lm9 - 0.5) * 2
      /\ Hand.y (hand gs') = (Landmark.y lm9 - 0.5) * 2
      /\ (later <> [] -> Hand.detected (hand gs') = false)).
Proof.
  intros Hno H9 Hlater.
  destruct (processGestures_noHand_hand noHandFrame gs Hno) as (Hx & Hy & _ & _).
  cbv zeta.
  set (first := {| landmarks := Some (lm :: rest) |}).
  change (processFrames (first :: later) gs)
    with (processFrames later (stateOf (processGestures first gs))).
  destruct (processFrames_noHand later Hlater (stateOf (processGestures first gs)))
    as (Hx' & Hy' & Hd').
  destruct (processGestures_detected_hand first lm rest lm9 gs eq_refl H9)
    as (Hx1 & Hy1 & _).
  rewrite Hx', Hy', Hx1, Hy1.
  repeat apply conj; try assumption; try reflexivity;
    try apply processGestures_rotation; try apply processFrames_rotation.
  intros Hne. apply Hd'. assumption.
Qed.

Lemma C10_classifier_writes_witness :
  let noHandFrame := {| landmarks := None |} in
  let seen := {| landmarks := Some [openHand] |} in
  let later := [noHandFrame; noHandFrame] in
  (Hand.x (hand (stateOf (processGestures noHandFrame scatterState)))
   = Hand.x (hand scatterState)
   /\ Hand.y (hand (stateOf (processGestures noHandFrame scatterState)))
      = Hand.y (hand scatterState)
   /\ rotation (stateOf (processGestures noHandFrame scatterState))
      = rotation scatterState)
  /\ rotation (stateOf (processGestures seen scatterState))
     = rotation scatterState
  /\ rotation (processFrames (seen :: later) scatterState)
     = rotation scatterState
  /\ (let gs' := processFrames ({| landmarks := Some (openHand :: []) |} :: later)
                   scatterState in
      Hand.x (hand gs') = (Landmark.x (point 0.75 0.25) - 0.5) * 2
      /\ Hand.y (hand gs') = (Landmark.y (point 0.75 0.25) - 0.5) * 2
      /\ (later <> [] -> Hand.detected (hand gs') = false)).
Proof.
  apply (C10_classifier_writes approxMath {| landmarks := None |}
           {| landmarks := Some [openHand] |} scatterState openHand []
           (point 0.75 0.25) [{| landmarks := None |}; {| landmarks := None |}]).
  - left. reflexivity.
  - reflexivity.
  - repeat constructor.
Defined.

(** ** Rotation controller *)

Lemma Math_max_cases (u v : Q) :
  (u < v /\ Math_max u v = v) \/ (v <= u /\ Math_max u v = u).
Proof.
  unfold Math_max. destruct (Qltb u v) eqn:E;
    [apply Qltb_true in E; left | apply Qltb_false in E; right]; auto.
Qed.

Lemma Qabs_cases (v : Q) :
  (0 <= v /\ Qabs v == v) \/ (v <= 0 /\ Qabs v == - v).
Proof. apply Qabs_case; intros H; [left | right]; split; lra. Qed.

Lemma excess_spec (threshold v : Q) :
  0 <= threshold ->
  Qabs (excess threshold v) == Math_max 0 (Qabs v - threshold)
  /\ 0 <= excess threshold v * v
  /\ (Qabs v <= threshold -> excess threshold v = 0).
Proof.
  intros Ht.
  destruct (Math_max_cases 0 (Qabs v - threshold)) as [[Hm ->] | [Hm ->]];
    destruct (Qabs_cases v) as [[Hv Ea] | [Hv Ea]];
    unfold excess;
    (destruct (Qltb threshold v) eqn:E1;
       [apply Qltb_true in E1 | apply Qltb_false in E1;
        destruct (Qltb v (- threshold)) eqn:E2;
          [apply Qltb_true in E2 | apply Qltb_false in E2]]);
    repeat apply conj;
    try (intros; reflexivity);
    try (intros; exfalso; lra);
    try (intros; nra);
    try (apply Qabs_case; intros; lra).
Qed.

Lemma rotateByGesture_scatter (delta : Q) (gs : GestureState) :
  mode gs = SCATTER ->
  Hand.detected (hand gs) = true ->
  mode (rotateByGesture delta gs) = mode gs
  /\ hand (rotateByGesture delta gs) = hand gs
  /\ Rotation.y (rotation (rotateByGesture delta gs))
     == Rotation.y (rotation gs) + 1.2 * delta * excess 0.3 (Hand.x (hand gs))
  /\ Rotation.x (rotation (rotateByGesture delta gs))
     == Rotation.x (rotation gs) + 1.2 * delta * excess 0.3 (Hand.y (hand gs))
  /\ (excess 0.3 (Hand.x (hand gs)) = 0 ->
      Rotation.y (rotation (rotateByGesture delta gs)) = Rotation.y (rotation gs))
  /\ (excess 0.3 (Hand.y (hand gs)) = 0 ->
      Rotation.x (rotation (rotateByGesture delta gs)) = Rotation.x (rotation gs)).
Proof.
  destruct gs as [m [d hx hy] [rx ry]]. simpl. intros -> ->.
  unfold rotateByGesture, excess. simpl.
  destruct (Qltb 0.3 hx) eqn:X1; [| destruct (Qltb hx (Qopp 0.3)) eqn:X2];
    (destruct (Qltb 0.3 hy) eqn:Y1; [| destruct (Qltb hy (Qopp 0.3)) eqn:Y2]);
    simpl; rewrite ?X1, ?X2, ?Y1, ?Y2; simpl;
    repeat apply conj; try reflexivity; try lra; intros E;
    repeat match goal with
           | H : Qltb _ _ = true |- _ => apply Qltb_true in H
           | H : Qltb _ _ = false |- _ => apply Qltb_false in H
           end;
    exfalso;
    match type of E with
    | ?a = 0 => assert (E' : a == 0) by (rewrite E; reflexivity)
    end;
    lra.
Qed.

(** C8.  On a frame of the scene in SCATTER mode with a hand detected,
    the yaw [rotation.y] advances by [1.2 * delta] times the part of
    [hand.x] beyond the dead zone of half-width 0.3, and the pitch
    [rotation.x] by [1.2 * delta] times the part of [hand.y] beyond it:
    that part has the sign of the coordinate and the magnitude
    [max(0, |coordinate| - 0.3)].  When [|hand.x| <= 0.3] and
    [|hand.y| <= 0.3] neither [rotation.x] nor [rotation.y] is changed. *)
Theorem C8_scatter_edge_rotation (delta : Q) (gs : GestureState)
    (group : Rotation.t) :
  mode gs = SCATTER ->
  Hand.detected (hand gs) = true ->
  exists gs' group' ex ey,
    Scene_useFrame delta {| groupRef := Some group; gestureState := Some gs |}
    = {| groupRef := Some group'; gestureState := Some gs' |}
    /\ (Rotation.x group' = Rotation.x (rotation gs')
        /\ Rotation.y group' = Rotation.y (rotation gs'))
    /\ (mode gs' = mode gs /\ hand gs' = hand gs)
    /\ Rotation.y (rotation gs') == Rotation.y (rotation gs) + 1.2 * delta * ex
    /\ Rotation.x (rotation gs') == Rotation.x (rotation gs) + 1.2 * delta * ey
    /\ (Qabs ex == Math_max 0 (Qabs (Hand.x (hand gs)) - 0.3)
        /\ 0 <= ex * Hand.x (hand gs))
    /\ (Qabs ey == Math_max 0 (Qabs (Hand.y (hand gs)) - 0.3)
        /\ 0 <= ey * Hand.y (hand gs))
    /\ (Qabs (Hand.x (hand gs)) <= 0.3 ->
        Rotation.y (rotation gs') = Rotation.y (rotation gs))
    /\ (Qabs (Hand.y (hand gs)) <= 0.3 ->
        Rotation.x (rotation gs') = Rotation.x (rotation gs))
    /\ (Qabs (Hand.x (hand gs)) <= 0.3 -> Qabs (Hand.y (hand gs)) <= 0.3 ->
        rotation gs' = rotation gs).
Proof.
  intros Hmode Hdet.
  destruct (rotateByGesture_scatter delta gs Hmode Hdet)
    as (Hm & Hh & Hy & Hx & Hy0 & Hx0).
  assert (H03 : 0 <= 0.3) by lra.
  destruct (excess_spec 0.3 (Hand.x (hand gs)) H03) as (Hax & Hsx & Hzx).
  destruct (excess_spec 0.3 (Hand.y (hand gs)) H03) as (Hay & Hsy & Hzy).
  exists (rotateByGesture delta gs).
  eexists. exists (excess 0.3 (Hand.x (hand gs))), (excess 0.3 (Hand.y (hand gs))).
  split; [reflexivity |].
  repeat apply conj; try assumption; try reflexivity.
  - intros H. apply Hy0, Hzx, H.
  - intros H. apply Hx0, Hzy, H.
  - intros H1 H2. specialize (Hy0 (Hzx H1)). specialize (Hx0 (Hzy H2)).
    destruct (rotation (rotateByGesture delta gs)), (rotation gs).
    simpl in *. congruence.
Qed.

Lemma C8_scatter_edge_rotation_witness :
  exists gs' group' ex ey,
    Scene_useFrame (1 # 60)
      {| groupRef := Some {| Rotation.x := 0; Rotation.y := 0 |};
         gestureState := Some scatterState |}
    = {| groupRef := Some group'; gestureState := Some gs' |}
    /\ (Rotation.x group' = Rotation.x (rotation gs')
        /\ Rotation.y group' = Rotation.y (rotation gs'))
    /\ (mode gs' = mode scatterState /\ hand gs' = hand scatterState)
    /\ Rotation.y (rotation gs')
       == Rotation.y (rotation scatterState) + 1.2 * (1 # 60) * ex
    /\ Rotation.x (rotation gs')
       == Rotation.x (rotation scatterState) + 1.2 * (1 # 60) * ey
    /\ (Qabs ex == Math_max 0 (Qabs (Hand.x (hand scatterState)) - 0.3)
        /\ 0 <= ex * Hand.x (hand scatterState))
    /\ (Qabs ey == Math_max 0 (Qabs (Hand.y (hand scatterState)) - 0.3)
        /\ 0 <= ey * Hand.y (hand scatterState))
    /\ (Qabs (Hand.x (hand scatterState)) <= 0.3 ->
        Rotation.y (rotation gs') = Rotation.y (rotation scatterState))
    /\ (Qabs (Hand.y (hand scatterState)) <= 0.3 ->
        Rotation.x (rotation gs') = Rotation.x (rotation scatterState))
    /\ (Qabs (Hand.x (hand scatterState)) <= 0.3 ->
        Qabs (Hand.y (hand scatterState)) <= 0.3 ->
        rotation gs' = rotation scatterState).
Proof.
  apply (C8_scatter_edge_rotation (1 # 60) scatterState
           {| Rotation.x := 0; Rotation.y := 0 |});
    reflexivity.
Defined.

(** On the sample state the hand is 0.5 beyond the right edge of the dead
    zone and inside it vertically: the yaw advances by 1.2 * delta * 0.5,
    the pitch is untouched. *)
Example scatterState_frame :
  Rotation.y (rotation (rotateByGesture (1 # 60) scatterState)) == 1.51
  /\ Rotation.x (rotation (rotateByGesture (1 # 60) scatterState)) = 0.25.
Proof. split; reflexivity. Qed.

(** ** Ornamental field *)

Lemma appends_from_empty {A : Type} (k : nat) (P : A -> Prop)
    (body : list A -> Gen (list A)) (s : nat) :
  appends k P body ->
  length (body [] s).1 = k /\ Forall P (body [] s).1.
Proof.
  intros H. destruct (H [] s) as (ps & E & L & F).
  rewrite E. simpl. auto.
Qed.

Lemma Qceiling_Z (z : Z) : Qceiling (inject_Z z) = z.
Proof.
  unfold Qceiling. change (- inject_Z z) with (inject_Z (- z)).
  rewrite Qfloor_Z. lia.
Qed.

Section StarFacts.
Context {M : JSMath}.
Variable random : nat -> Q.
Variable cfg : Config.

Lemma starParticle_scatterPos min max cx cy cz scale i s :
  scatterPos (starParticle random cfg min max cx cy cz scale i s).1
  = Some (position (starParticle random cfg min max cx cy cz scale i s).1).
Proof. unfold starParticle. rewrite !Gen_bind_run. reflexivity. Qed.

Lemma smallHeart_appends (P : Particle -> Prop) min max :
  (forall cx cy cz scale i s,
     P (starParticle random cfg min max cx cy cz scale i s).1) ->
  appends (Z.to_nat (Qfloor (STAR_POINTS cfg / 15)) * 1) P
          (smallHeart random cfg min max).
Proof.
  intros HP acc s. unfold smallHeart. rewrite !Gen_bind_run.
  rewrite <- (Qceiling_Z (Qfloor (STAR_POINTS cfg / 15))).
  apply for_lt_appends. intros i. apply push_appends. intros s'. apply HP.
Qed.

Lemma generateStarPoints_spec (P : Particle -> Prop) theme s :
  (forall cx cy cz scale i s,
     P (starParticle random cfg (fst (stars theme)) (snd (stars theme))
          cx cy cz scale i s).1) ->
  length (generateStarPoints random cfg theme s).1
  = (15 * Z.to_nat (Qfloor (STAR_POINTS cfg / 15)))%nat
  /\ Forall P (generateStarPoints random cfg theme s).1.
Proof.
  intros HP. unfold generateStarPoints. destruct (stars theme) as [min max].
  rewrite Gen_bind_run. cbn [mret Gen_ret fst].
  pose proof (for_lt_appends _ P numHearts
                (fun _ points => smallHeart random cfg min max points)
                (fun _ => smallHeart_appends P min max HP)) as H.
  apply (appends_from_empty _ _ _ s) in H. destruct H as [L F].
  split; [| exact F]. rewrite L. vm_compute Qceiling. lia.
Qed.

End StarFacts.

Lemma STAR_POINTS_floor (n : Q) :
  0 <= n ->
  (0 <= Qfloor (n / 15))%Z
  /\ inject_Z (15 * Qfloor (n / 15)) <= n
  /\ ((forall k : Z, ~ n == inject_Z (15 * k)) ->
      inject_Z (15 * Qfloor (n / 15)) < n).
Proof.
  intros Hn.
  pose proof (Qfloor_le (n / 15)) as Hle.
  assert (H0 : (0 <= Qfloor (n / 15))%Z).
  { rewrite <- (Qfloor_Z 0). apply Qfloor_resp_le.
    change (inject_Z 0) with 0. qconst. lra. }
  rewrite inject_Z_mult. change (inject_Z 15) with 15.
  set (z := inject_Z (Qfloor (n / 15))) in *.
  assert (Hle' : 15 * z <= n) by (qconst; lra).
  repeat apply conj; try assumption.
  intros Hdiv.
  destruct (Qlt_le_dec (15 * z) n) as [| Hge]; [assumption |].
  exfalso. apply (Hdiv (Qfloor (n / 15))).
  rewrite inject_Z_mult. change (inject_Z 15) with 15. fold z. lra.
Qed.

(** C9.  Under every theme and every random draw the ornamental group
    holds exactly [15 * floor(STAR_POINTS / 15)] particles, which is 1200
    for the program's [STAR_POINTS = 1200]; the group is never larger than
    [STAR_POINTS] and is strictly smaller whenever [STAR_POINTS] is not a
    multiple of 15.  The scatter target of every particle of the group is
    its base position. *)
Theorem C9_star_group (M : JSMath) (random : nat -> Q) (cfg : Config)
    (theme : Theme) (s : nat) :
  0 <= STAR_POINTS cfg ->
  Z.of_nat (length (generateStarPoints random cfg theme s).1)
  = (15 * Qfloor (STAR_POINTS cfg / 15))%Z
  /\ ofNat (length (generateStarPoints random cfg theme s).1) <= STAR_POINTS cfg
  /\ ((forall k : Z, ~ STAR_POINTS cfg == inject_Z (15 * k)) ->
      ofNat (length (generateStarPoints random cfg theme s).1) < STAR_POINTS cfg)
  /\ Forall (fun p => scatterPos p = Some (position p))
            (generateStarPoints random cfg theme s).1
  /\ Z.of_nat (length (generateStarPoints random CONFIG theme s).1) = 1200%Z.
Proof.
  intros Hn.
  destruct (generateStarPoints_spec random cfg
              (fun p => scatterPos p = Some (position p)) theme s
              (starParticle_scatterPos random cfg _ _)) as [L F].
  destruct (generateStarPoints_spec random CONFIG (fun _ => True) theme s
              (fun _ _ _ _ _ _ => I)) as [L' _].
  destruct (STAR_POINTS_floor (STAR_POINTS cfg) Hn) as (H0 & Hle & Hlt).
  assert (E : Z.of_nat (length (generateStarPoints random cfg theme s).1)
              = (15 * Qfloor (STAR_POINTS cfg / 15))%Z) by (rewrite L; lia).
  unfold ofNat. rewrite E.
  repeat apply conj; try assumption; try reflexivity.
  rewrite L'. vm_compute. reflexivity.
Qed.

Lemma C9_star_group_witness :
  Z.of_nat (length (generateStarPoints halves tinyConfig purple 0%nat).1)
  = (15 * Qfloor (STAR_POINTS tinyConfig / 15))%Z
  /\ ofNat (length (generateStarPoints halves tinyConfig purple 0%nat).1)
     <= STAR_POINTS tinyConfig
  /\ ((forall k : Z, ~ STAR_POINTS tinyConfig == inject_Z (15 * k)) ->
      ofNat (length (generateStarPoints halves tinyConfig purple 0%nat).1)
      < STAR_POINTS tinyConfig)
  /\ Forall (fun p => scatterPos p = Some (position p))
            (generateStarPoints halves tinyConfig purple 0%nat).1
  /\ Z.of_nat (length (generateStarPoints halves CONFIG purple 0%nat).1) = 1200%Z.
Proof.
  apply (C9_star_group approxMath halves tinyConfig purple 0%nat).
  vm_compute. discriminate.
Defined.

(** With [STAR_POINTS = 31] the group has 30 particles. *)
Example tiny_star_group :
  length (generateStarPoints halves tinyConfig purple 0%nat).1 = 30%nat.
Proof. vm_compute. reflexivity. Qed.

(** ** Colours *)

Lemma Math_min_cases (u v : Q) :
  (v < u /\ Math_min u v = v) \/ (u <= v /\ Math_min u v = u).
Proof.
  unfold Math_min. destruct (Qltb v u) eqn:E;
    [apply Qltb_true in E; left | apply Qltb_false in E; right]; auto.
Qed.

(** A floored value between two bounds. *)
Lemma Math_floor_within (v hi : Q) :
  0 <= v -> v <= hi -> 0 <= Math_floor v /\ Math_floor v <= hi.
Proof.
  intros H0 H1. split.
  - apply (Math_floor_ge 0). exact H0.
  - pose proof (Math_floor_le v). lra.
Qed.

Ltac color_goal :=
  unfold color_within, mkColor; cbn [THREE.r THREE.g THREE.b]; qconst.

Section ColourFacts.
Context {M : JSMath}.
Variable random : nat -> Q.
Hypothesis random_canonical : canonical random.

Lemma shimmer_within hi c s :
  1 <= hi -> shimmer_ok hi c -> color_within hi (shimmer random c s).1.
Proof.
  destruct c as [[cr cg] cb]. intros Hhi ((Hr0 & Hr1) & (Hg0 & Hg1) & (Hb0 & Hb1)).
  unfold shimmer. rewrite !Gen_bind_run. cbn [Math_random mret Gen_ret fst snd].
  destruct (random_canonical s), (random_canonical (Datatypes.S s)).
  color_goal. repeat split; lra.
Qed.

Lemma brightness_within hi (v lo : Q) (k1 k2 k3 : Q) s :
  1 <= hi -> 0 <= v -> 0 <= lo -> v + lo <= 255 ->
  0 <= k1 <= 1 -> 0 <= k2 <= 1 -> 0 <= k3 <= 1 ->
  color_within hi
    (mkColor (Math_floor (random s * v + lo) * k1 / 255)
             (Math_floor (random s * v + lo) * k2 / 255)
             (Math_floor (random s * v + lo) * k3 / 255)).
Proof.
  intros Hhi Hv Hlo Hsum [? ?] [? ?] [? ?].
  destruct (random_canonical s) as [R0 R1].
  destruct (Math_floor_within (random s * v + lo) 255) as [F0 F1]; [nra | nra |].
  set (f := Math_floor (random s * v + lo)) in *.
  color_goal. repeat split; nra.
Qed.

Lemma spiralColor_within hi colors s :
  tree_palette_ok hi colors ->
  color_within hi (spiralColor random colors s).1.
Proof.
  intros (Hhi & Hdeep & Hmedium & Hlight & Hlift).
  unfold spiralColor. rewrite Gen_bind_run. cbn [Math_random fst snd].
  destruct (deepIs_0_80_0 colors && Qltb (random s) 0.10).
  { cbn [mret Gen_ret fst]. color_goal. repeat split; lra. }
  destruct (Qltb (random s) 0.15); [now apply shimmer_within |].
  destruct (Qltb (random s) 0.3); [now apply shimmer_within |].
  destruct (Qltb (random s) 0.45); [now apply shimmer_within |].
  destruct (white colors).
  - destruct (deepIs_0_80_0 colors);
      rewrite Gen_bind_run; cbn [Math_random mret Gen_ret fst snd].
    + pose proof (brightness_within hi 25 60 0.15 1 0.15 (Datatypes.S s)) as B.
      unfold color_within, mkColor in *. cbn [THREE.r THREE.g THREE.b] in *.
      rewrite Qmult_1_r in B. apply B; lra.
    + pose proof (brightness_within hi 50 205 1 1 1 (Datatypes.S s)) as B.
      unfold color_within, mkColor in *. cbn [THREE.r THREE.g THREE.b] in *.
      rewrite Qmult_1_r in B. apply B; lra.
  - destruct (light colors) as [[cr cg] cb].
    destruct (Hlift eq_refl) as ((? & ?) & (? & ?) & (? & ?)).
    cbn [mret Gen_ret fst]. color_goal. repeat split; lra.
Qed.

Lemma fillColor_within hi colors s :
  tree_palette_ok hi colors ->
  color_within hi (fillColor random colors s).1.
Proof.
  intros (Hhi & Hdeep & Hmedium & Hlight & Hlift).
  unfold fillColor. rewrite Gen_bind_run. cbn [Math_random fst snd].
  destruct (Qltb (random s) 0.25); [now apply shimmer_within |].
  destruct (Qltb (random s) 0.5); [now apply shimmer_within |].
  destruct (Qltb (random s) 0.75); [now apply shimmer_within |].
  destruct (white colors).
  - destruct (deepIs_0_80_0 colors);
      rewrite Gen_bind_run; cbn [Math_random mret Gen_ret fst snd].
    + pose proof (brightness_within hi 30 100 0.2 1 0.2 (Datatypes.S s)) as B.
      unfold color_within, mkColor in *. cbn [THREE.r THREE.g THREE.b] in *.
      rewrite Qmult_1_r in B. apply B; lra.
    + pose proof (brightness_within hi 50 205 1 1 1 (Datatypes.S s)) as B.
      unfold color_within, mkColor in *. cbn [THREE.r THREE.g THREE.b] in *.
      rewrite Qmult_1_r in B. apply B; lra.
  - destruct (light colors) as [[cr cg] cb].
    destruct (Hlift eq_refl) as ((? & ?) & (? & ?) & (? & ?)).
    cbn [mret Gen_ret fst]. color_goal. repeat split; lra.
Qed.

End ColourFacts.

Lemma color_within_weaken (lo hi : Q) (c : THREE.Color) :
  lo <= hi -> color_within lo c -> color_within hi c.
Proof.
  unfold color_within. intros H ((? & ?) & (? & ?) & (? & ?)).
  repeat split; lra.
Qed.

Lemma levels_within (cr cg cb : Q) :
  level cr -> level cg -> level cb ->
  color_within 1 (mkColor (cr / 255) (cg / 255) (cb / 255)).
Proof.
  unfold level. intros [? ?] [? ?] [? ?]. color_goal. repeat split; lra.
Qed.

Lemma Math_floor_level (v : Q) : level v -> level (Math_floor v).
Proof. unfold level. intros [? ?]. now apply Math_floor_within. Qed.

Section PaletteFacts.
Context {M : JSMath}.
Variable random : nat -> Q.
Hypothesis random_canonical : canonical random.
Variable cfg : Config.

(** A value drawn between two levels is a level. *)
Lemma between_levels (lo hi : Q) s :
  level lo -> level hi -> level (random s * (hi - lo) + lo).
Proof.
  unfold level. intros [? ?] [? ?]. destruct (random_canonical s). split; nra.
Qed.

Lemma above_level (lo w : Q) s :
  0 <= lo -> 0 <= w -> lo + w <= 255 -> level (random s * w + lo).
Proof.
  unfold level. intros ? ? ?. destruct (random_canonical s). split; nra.
Qed.

Lemma groundColor_within ground s :
  ground_palette_ok ground ->
  color_within 1 (groundColor random ground s).1.
Proof.
  intros ((Hr0 & Hr1 & Hr30) & (Hg0 & Hg1 & Hg40) & Hb).
  assert (Htop : level (blueTop (b ground)))
    by (destruct (b ground); [exact Hb | apply Hb]).
  unfold groundColor. rewrite Gen_bind_run. cbn [Math_random fst snd].
  destruct (Qltb (random s) 0.3); [| destruct (Qltb (random s) 0.6)].
  - rewrite !Gen_bind_run. cbn [Math_random fst snd].
    destruct (b ground) as [v | lo hi];
      [| rewrite Gen_bind_run]; cbn [Math_random mret Gen_ret fst snd];
      apply levels_within;
      try (apply Math_floor_level, between_levels; tauto); tauto.
  - rewrite !Gen_bind_run. cbn [Math_random mret Gen_ret fst snd].
    apply levels_within; try assumption;
      apply Math_floor_level, above_level; unfold level in *; lra.
  - rewrite !Gen_bind_run. cbn [Math_random mret Gen_ret fst snd].
    apply levels_within; try assumption;
      apply Math_floor_level, above_level; unfold level in *; try lra.
    + destruct (Math_min_cases 150 (snd (r ground))) as [[? ->] | [? ->]]; lra.
    + destruct (Math_min_cases 150 (snd (r ground))) as [[? ->] | [? ->]]; lra.
    + destruct (Math_min_cases 200 (snd (g ground))) as [[? ->] | [? ->]]; lra.
    + destruct (Math_min_cases 200 (snd (g ground))) as [[? ->] | [? ->]]; lra.
Qed.

Lemma spiralParticle_color colors s :
  exists s', color (spiralParticle random cfg colors s).1
             = (spiralColor random colors s').1.
Proof. unfold spiralParticle. rewrite !Gen_bind_run. eexists. reflexivity. Qed.

Lemma fillParticle_color colors s :
  exists s', color (fillParticle random cfg colors s).1
             = (fillColor random colors s').1.
Proof. unfold fillParticle. rewrite !Gen_bind_run. eexists. reflexivity. Qed.

Lemma groundParticle_color ground s :
  exists s', color (groundParticle random ground s).1
             = (groundColor random ground s').1.
Proof.
  unfold groundParticle. rewrite !Gen_bind_run. eexists. reflexivity.
Qed.

Lemma starParticle_color min max cx cy cz scale i s :
  level min -> level max ->
  color_within 1 (color (starParticle random cfg min max cx cy cz scale i s).1).
Proof.
  intros Hmin Hmax. unfold starParticle. rewrite !Gen_bind_run.
  cbn [Math_random mret Gen_ret fst snd color].
  apply levels_within; try (apply Math_floor_level, between_levels; assumption).
  unfold level. lra.
Qed.

Lemma generateTreePoints_colors hi theme s :
  tree_palette_ok hi (tree theme) ->
  Forall (fun p => color_within hi (color p))
         (generateTreePoints random cfg theme s).1.
Proof.
  intros Hok.
  destruct (generateTreePoints_split random cfg
              (fun p => color_within hi (color p))
              (fun p => color_within hi (color p)) theme) with (s := s)
    as (spiral & fill & E & _ & _ & F1 & F2).
  - intros s'. destruct (spiralParticle_color (tree theme) s') as [s'' ->].
    now apply spiralColor_within.
  - intros s'. destruct (fillParticle_color (tree theme) s') as [s'' ->].
    now apply fillColor_within.
  - rewrite E. apply Forall_app. auto.
Qed.

Lemma generateGroundPoints_colors theme s :
  ground_palette_ok (ground theme) ->
  Forall (fun p => color_within 1 (color p))
         (generateGroundPoints random cfg theme s).1.
Proof.
  intros Hok. unfold generateGroundPoints.
  rewrite Gen_bind_run. cbn [mret Gen_ret fst].
  eapply appends_from_empty.
  apply for_lt_appends. intros i. apply push_appends. intros s'.
  destruct (groundParticle_color (ground theme) s') as [s'' ->].
  now apply groundColor_within.
Qed.

Lemma generateStarPoints_colors theme s :
  level (fst (stars theme)) -> level (snd (stars theme)) ->
  Forall (fun p => color_within 1 (color p))
         (generateStarPoints random cfg theme s).1.
Proof.
  intros Hmin Hmax.
  apply (generateStarPoints_spec random cfg
           (fun p => color_within 1 (color p)) theme s).
  intros cx cy cz scale i s'. now apply starParticle_color.
Qed.

End PaletteFacts.

Ltac palette_facts :=
  unfold theme_ok, tree_palette_ok, ground_palette_ok, shimmer_ok, lifted_ok,
    level;
  cbn;
  repeat apply conj; try lra; try (intros H; discriminate H).

Lemma classic_ok : theme_ok 1 classic.
Proof. palette_facts. Qed.

Lemma traditional_ok : theme_ok 1 traditional.
Proof. palette_facts. Qed.

Lemma purple_ok : theme_ok 1 purple.
Proof. palette_facts. Qed.

Lemma red_ok : theme_ok (295 # 255) red.
Proof. palette_facts. Qed.

Lemma blue_ok : theme_ok (295 # 255) blue.
Proof. palette_facts. Qed.

Lemma tree_palette_ok_weaken (lo hi : Q) colors :
  lo <= hi -> tree_palette_ok lo colors -> tree_palette_ok hi colors.
Proof.
  unfold tree_palette_ok, shimmer_ok, lifted_ok.
  destruct (deep colors) as [[? ?] ?], (medium colors) as [[? ?] ?],
    (light colors) as [[? ?] ?].
  intros H (? & D & Md & L & W).
  repeat apply conj; try lra; try tauto;
    try (intros E; specialize (W E)); intuition lra.
Qed.

(** Every theme of the program has a well-formed ground and star palette
    and a canopy palette that stays within 295/255; three of them stay
    within 1. *)
Lemma COLOR_THEMES_ok theme :
  In theme (map snd COLOR_THEMES) ->
  theme_ok (295 # 255) theme
  /\ (theme = classic \/ theme = traditional \/ theme = purple ->
      theme_ok 1 theme).
Proof.
  assert (W : forall t, theme_ok 1 t -> theme_ok (295 # 255) t).
  { intros t (Ht & Hg & Hs). split; [| tauto].
    apply (tree_palette_ok_weaken 1); [lra | assumption]. }
  simpl. intros [<- | [<- | [<- | [<- | [<- | []]]]]]; split;
    try (apply W; first [apply classic_ok | apply traditional_ok | apply purple_ok]);
    try apply red_ok; try apply blue_ok;
    intros [E | [E | E]];
    first [apply classic_ok | apply traditional_ok | apply purple_ok
          | discriminate E].
Qed.

(** C7 (amended).  Under every theme of the program and every random
    draw, each colour channel of every generated particle is a
    non-negative number: at most 1 for every ground and ornamental
    particle, and for every canopy particle under the themes classic,
    traditional and purple; at most 295/255 for the canopy particles of
    the themes red and blue, whose channels may exceed 1. *)
Theorem C7_color_ranges (M : JSMath) (random : nat -> Q) (cfg : Config)
    (theme : Theme) (s : nat) :
  canonical random ->
  In theme (map snd COLOR_THEMES) ->
  Forall (fun p => color_within 1 (color p))
         (generateGroundPoints random cfg theme s).1
  /\ Forall (fun p => color_within 1 (color p))
            (generateStarPoints random cfg theme s).1
  /\ Forall (fun p => color_within (295 # 255) (color p))
            (generateTreePoints random cfg theme s).1
  /\ (theme = classic \/ theme = traditional \/ theme = purple ->
      Forall (fun p => color_within 1 (color p))
             (generateTreePoints random cfg theme s).1).
Proof.
  intros Hrandom Hin.
  destruct (COLOR_THEMES_ok theme Hin) as ((Ht & Hg & Hs0 & Hs1) & H1).
  repeat apply conj.
  - now apply generateGroundPoints_colors.
  - now apply generateStarPoints_colors.
  - now apply generateTreePoints_colors.
  - intros E. destruct (H1 E) as (Ht1 & _).
    now apply generateTreePoints_colors.
Qed.

Lemma halves_canonical : canonical halves.
Proof. intros n. split; [discriminate | reflexivity]. Qed.

Lemma C7_color_ranges_witness :
  Forall (fun p => color_within 1 (color p))
         (generateGroundPoints halves tinyConfig red 0%nat).1
  /\ Forall (fun p => color_within 1 (color p))
            (generateStarPoints halves tinyConfig red 0%nat).1
  /\ Forall (fun p => color_within (295 # 255) (color p))
            (generateTreePoints halves tinyConfig red 0%nat).1
  /\ (red = classic \/ red = traditional \/ red = purple ->
      Forall (fun p => color_within 1 (color p))
             (generateTreePoints halves tinyConfig red 0%nat).1).
Proof.
  apply (C7_color_ranges approxMath halves tinyConfig red 0%nat).
  - intros n. split; [discriminate | reflexivity].
  - simpl. right. right. left. reflexivity.
Defined.

(** C7 as stated fails.  Under the theme red, whose palette has no
    white, a colour draw of 0.5 takes the branch that raises the light
    colour (255, 99, 71) by 30 levels: the red channel of the first canopy
    particle is 285/255, above 1. *)
Lemma C7_counterexample :
  exists p,
    (generateTreePoints halves CONFIG red 0%nat).1 !! 0%nat = Some p
    /\ In red (map snd COLOR_THEMES)
    /\ canonical halves
    /\ THREE.r (color p) == 285 # 255
    /\ ~ THREE.r (color p) <= 1
    /\ ~ color_within 1 (color p).
Proof.
  exists (spiralParticle halves CONFIG (tree red) 0%nat).1.
  split.
  { apply generateTreePoints_first.
    replace (Qceiling (spiralN CONFIG)) with 35000%Z by (vm_compute; reflexivity).
    lia. }
  split; [simpl; tauto |].
  split; [apply halves_canonical |].
  assert (E : THREE.r (color (spiralParticle halves CONFIG (tree red) 0%nat).1)
              == 285 # 255) by (vm_compute; reflexivity).
  split; [exact E |].
  split.
  - rewrite E. intros H. vm_compute in H. apply H. reflexivity.
  - unfold color_within. rewrite E. intros ((_ & H) & _).
    vm_compute in H. apply H. reflexivity.
Qed.

(** * Further properties of the program *)

(** ** Generated groups *)

Ltac gen_run :=
  repeat rewrite Gen_bind_run; cbn [Math_random mret Gen_ret fst snd].

(** Bring in the range of every draw the goal mentions. *)
Ltac canon Hc :=
  repeat match goal with
         | |- context [?random ?n] =>
             lazymatch type of Hc with
             | canonical random =>
                 lazymatch goal with
                 | _ : 0 <= random n /\ random n < 1 |- _ => fail
                 | _ => pose proof (Hc n)
                 end
             end
         end.

Section GroupFacts.
Context {M : JSMath}.
Variable random : nat -> Q.
Variable cfg : Config.

Lemma groundParticle_shape ground s :
  at3 (position (groundParticle random ground s).1) 1 = -0.25
  /\ is_Some (scatterPos (groundParticle random ground s).1)
  /\ is_Some (heartPos (groundParticle random ground s).1).
Proof.
  unfold groundParticle. gen_run.
  repeat split; eexists; reflexivity.
Qed.

Lemma generateGroundPoints_appends (P : Particle -> Prop) theme :
  (forall s, P (groundParticle random (ground theme) s).1) ->
  forall s,
    length (generateGroundPoints random cfg theme s).1
    = Z.to_nat (Qceiling (GROUND_POINTS cfg))
    /\ Forall P (generateGroundPoints random cfg theme s).1.
Proof.
  intros HP s. unfold generateGroundPoints. gen_run.
  pose proof (for_lt_appends 1 P (GROUND_POINTS cfg) _
                (fun _ => push_appends P _ HP)) as H.
  apply (appends_from_empty _ _ _ s) in H. destruct H as [L F].
  split; [rewrite L; lia | exact F].
Qed.

Hypothesis random_canonical : canonical random.

Lemma spiralParticle_scatter colors s :
  scatter_near_plane 0.2 (spiralParticle random cfg colors s).1.
Proof.
  unfold spiralParticle, scatter_near_plane. gen_run.
  eexists _, _, _. split; [reflexivity |].
  canon random_canonical. lra.
Qed.

Lemma fillParticle_scatter colors s :
  scatter_near_plane 0.06 (fillParticle random cfg colors s).1.
Proof.
  unfold fillParticle, scatter_near_plane. gen_run.
  eexists _, _, _. split; [reflexivity |].
  canon random_canonical. lra.
Qed.

Lemma groundParticle_scatter ground s :
  scatter_near_plane 0.1 (groundParticle random ground s).1.
Proof.
  unfold groundParticle, scatter_near_plane. gen_run.
  match goal with |- context [Qltb ?a 0.85] => destruct (Qltb a 0.85) end;
    gen_run; eexists _, _, _; (split; [reflexivity |]);
    canon random_canonical; lra.
Qed.

Lemma ring_index_in_range s :
  exists ring,
    rings !! Z.to_nat (Qfloor (random s * ofNat (length rings))) = Some ring.
Proof.
  destruct (random_canonical s) as [H0 H1].
  apply lookup_lt_is_Some_2.
  change (ofNat (length rings)) with 6. change (length rings) with 6%nat.
  assert (L : (0 <= Qfloor (random s * 6))%Z).
  { rewrite <- (Qfloor_Z 0). apply Qfloor_resp_le.
    change (inject_Z 0) with 0. lra. }
  assert (U : (Qfloor (random s * 6) < 6)%Z).
  { rewrite Zlt_Qlt. pose proof (Qfloor_le (random s * 6)).
    change (inject_Z 6) with 6. lra. }
  lia.
Qed.

Lemma groundParticle_on_a_ring ground s :
  on_a_ring (groundParticle random ground s).1.
Proof.
  destruct (ring_index_in_range s) as [ring Hring].
  unfold groundParticle, on_a_ring. gen_run. rewrite Hring. cbn [default].
  exists ring, (ring + (random (Datatypes.S s) - 0.5) * 0.6),
    (random (Datatypes.S (Datatypes.S s)) * Math_PI * 2).
  split; [eapply list_elem_of_lookup_2; exact Hring |].
  destruct (random_canonical (Datatypes.S s)).
  repeat split; lra.
Qed.

Lemma starParticle_in_field min max cx cy cz scale i s :
  in_star_field (starParticle random cfg min max cx cy cz scale i s).1.
Proof.
  unfold starParticle, in_star_field. gen_run. cbn [position color at3].
  unfold mkColor. cbn [THREE.r THREE.g THREE.b].
  canon random_canonical.
  repeat apply conj; try reflexivity; lra.
Qed.

End GroupFacts.

(** X1.  The ground group has as many particles as the loop bound
    [GROUND_POINTS] asks for (4000 in the program); every one of them lies
    at height -0.25 and carries both a scatter and a heart target. *)
Theorem ground_group_shape (M : JSMath) (random : nat -> Q) (cfg : Config)
    (theme : Theme) (s : nat) :
  length (generateGroundPoints random cfg theme s).1
  = Z.to_nat (Qceiling (GROUND_POINTS cfg))
  /\ Z.of_nat (length (generateGroundPoints random CONFIG theme s).1) = 4000%Z
  /\ Forall (fun p => at3 (position p) 1 = -0.25
                      /\ is_Some (scatterPos p) /\ is_Some (heartPos p))
            (generateGroundPoints random cfg theme s).1.
Proof.
  destruct (generateGroundPoints_appends random cfg
              (fun p => at3 (position p) 1 = -0.25
                        /\ is_Some (scatterPos p) /\ is_Some (heartPos p))
              theme (groundParticle_shape random (ground theme)) s) as [L F].
  destruct (generateGroundPoints_appends random CONFIG (fun _ => True) theme
              (fun _ => I) s) as [L' _].
  repeat apply conj; try assumption.
  rewrite L', Z2Nat.id; vm_compute; [reflexivity | discriminate].
Qed.

(** X2.  With draws in [0, 1) every scatter target of the canopy and of
    the ground lies in a thin slab around the plane y = -2: within 0.2
    for the spiral particles, 0.06 for the fill particles and 0.1 for the
    ground.  In particular each of these particles has a scatter
    target. *)
Theorem scatter_targets_near_plane (M : JSMath) (random : nat -> Q)
    (cfg : Config) (theme : Theme) (s : nat) :
  canonical random ->
  (exists spiral fill,
     (generateTreePoints random cfg theme s).1 = spiral ++ fill
     /\ length spiral = Z.to_nat (Qceiling (spiralN cfg))
     /\ Forall (scatter_near_plane 0.2) spiral
     /\ Forall (scatter_near_plane 0.06) fill)
  /\ Forall (scatter_near_plane 0.1) (generateGroundPoints random cfg theme s).1.
Proof.
  intros Hc. split.
  - destruct (generateTreePoints_split random cfg
                (scatter_near_plane 0.2) (scatter_near_plane 0.06) theme
                (spiralParticle_scatter random cfg Hc (tree theme))
                (fillParticle_scatter random cfg Hc (tree theme)) s)
      as (spiral & fill & E & N1 & _ & F1 & F2).
    exists spiral, fill. auto.
  - apply generateGroundPoints_appends. intros s'.
    now apply groundParticle_scatter.
Qed.

Lemma scatter_targets_near_plane_witness :
  (exists spiral fill,
     (generateTreePoints halves tinyConfig blue 0%nat).1 = spiral ++ fill
     /\ length spiral = Z.to_nat (Qceiling (spiralN tinyConfig))
     /\ Forall (scatter_near_plane 0.2) spiral
     /\ Forall (scatter_near_plane 0.06) fill)
  /\ Forall (scatter_near_plane 0.1)
            (generateGroundPoints halves tinyConfig blue 0%nat).1.
Proof.
  apply (scatter_targets_near_plane approxMath halves tinyConfig blue 0%nat).
  intros n. split; [discriminate | reflexivity].
Defined.

(** X3.  With draws in [0, 1) the ring index computed for a ground
    particle is always inside the array of rings, so every ground
    particle sits on a circle of radius within 0.3 of one of the six
    rings, at height -0.25. *)
Theorem ground_particles_on_rings (M : JSMath) (random : nat -> Q)
    (cfg : Config) (theme : Theme) (s : nat) :
  canonical random ->
  Forall on_a_ring (generateGroundPoints random cfg theme s).1.
Proof.
  intros Hc. apply generateGroundPoints_appends. intros s'.
  now apply groundParticle_on_a_ring.
Qed.

Lemma ground_particles_on_rings_witness :
  Forall on_a_ring (generateGroundPoints halves tinyConfig classic 0%nat).1.
Proof.
  apply (ground_particles_on_rings approxMath halves tinyConfig classic 0%nat).
  intros n. split; [discriminate | reflexivity].
Defined.

(** X4.  With draws in [0, 1) every ornamental particle has its base
    position in the box [-18, 18] x [3, 18] x [-18, 18], and a colour
    with equal red and green channels and blue channel 1. *)
Theorem star_particles_in_field (M : JSMath) (random : nat -> Q)
    (cfg : Config) (theme : Theme) (s : nat) :
  canonical random ->
  Forall in_star_field (generateStarPoints random cfg theme s).1.
Proof.
  intros Hc.
  apply (generateStarPoints_spec random cfg in_star_field theme s).
  intros cx cy cz scale i s'. now apply starParticle_in_field.
Qed.

Lemma star_particles_in_field_witness :
  Forall in_star_field (generateStarPoints halves tinyConfig red 0%nat).1.
Proof.
  apply (star_particles_in_field approxMath halves tinyConfig red 0%nat).
  intros n. split; [discriminate | reflexivity].
Defined.

Lemma for_range_blocks {A : Type} (B : list A -> Prop)
    (body : nat -> list A -> Gen (list A)) :
  (forall i, appends_block B (body i)) ->
  forall n i acc s, exists blocks,
    (for_range i n body acc s).1 = acc ++ concat blocks
    /\ length blocks = n /\ Forall B blocks.
Proof.
  intros Hbody. induction n as [| n IH]; intros i acc s.
  - exists []. simpl. rewrite app_nil_r. auto.
  - destruct (Hbody i acc s) as (ps & E1 & B1).
    destruct (IH (Datatypes.S i) (body i acc s).1 (body i acc s).2)
      as (blocks & E2 & L2 & F2).
    exists (ps :: blocks).
    change (for_range i (Datatypes.S n) body acc s)
      with ((acc' ← body i acc; for_range (Datatypes.S i) n body acc') s).
    rewrite Gen_bind_run, E2, E1, <- app_assoc.
    repeat split; [simpl; lia | constructor; assumption].
Qed.

Lemma starParticle_heartPos {M : JSMath} random cfg min max cx cy cz scale i s :
  exists hx hy,
    heartPos (starParticle random cfg min max cx cy cz scale i s).1
    = Some (hx, hy, cz).
Proof. unfold starParticle. gen_run. eexists _, _. reflexivity. Qed.

Lemma smallHeart_flat {M : JSMath} random cfg min max :
  canonical random ->
  appends_block (flat_heart (Z.to_nat (Qfloor (STAR_POINTS cfg / 15))))
                (smallHeart random cfg min max).
Proof.
  intros Hc acc s. unfold smallHeart. gen_run.
  set (cz := (random (Datatypes.S (Datatypes.S s)) - 0.5) * 30).
  match goal with
  | |- context [for_lt ?k ?body acc ?s'] =>
      destruct (for_lt_appends 1
                  (fun p => exists hx hy, heartPos p = Some (hx, hy, cz))
                  k body
                  (fun i => push_appends _ _
                     (fun s0 => starParticle_heartPos random cfg min max _ _ cz _ i s0))
                  acc s')
        as (ps & E & L & F)
  end.
  exists ps. split; [exact E |]. split.
  - rewrite L. unfold particlesPerHeart, Math_floor. rewrite Qceiling_Z.
    change numHearts with 15. lia.
  - exists cz. split; [| exact F].
    subst cz. destruct (Hc (Datatypes.S (Datatypes.S s))). split; lra.
Qed.

(** X5.  With draws in [0, 1) the ornamental group is 15 consecutive
    blocks of [floor(STAR_POINTS / 15)] particles, one block per small
    heart; the heart targets of the particles of a block all lie at one
    depth, the depth of that heart's centre, which is in [-15, 15). *)
Theorem star_group_is_flat_hearts (M : JSMath) (random : nat -> Q)
    (cfg : Config) (theme : Theme) (s : nat) :
  canonical random ->
  exists hearts,
    (generateStarPoints random cfg theme s).1 = concat hearts
    /\ length hearts = 15%nat
    /\ Forall (flat_heart (Z.to_nat (Qfloor (STAR_POINTS cfg / 15)))) hearts.
Proof.
  intros Hc. unfold generateStarPoints. destruct (stars theme) as [min max].
  gen_run. unfold for_lt.
  destruct (for_range_blocks
              (flat_heart (Z.to_nat (Qfloor (STAR_POINTS cfg / 15))))
              (fun _ points => smallHeart random cfg min max points)
              (fun _ => smallHeart_flat random cfg min max Hc)
              (Z.to_nat (Qceiling numHearts)) 0%nat [] s)
    as (hearts & E & L & F).
  exists hearts. repeat split; assumption.
Qed.

Lemma star_group_is_flat_hearts_witness :
  exists hearts,
    (generateStarPoints halves tinyConfig purple 0%nat).1 = concat hearts
    /\ length hearts = 15%nat
    /\ Forall (flat_heart (Z.to_nat (Qfloor (STAR_POINTS tinyConfig / 15))))
              hearts.
Proof.
  apply (star_group_is_flat_hearts approxMath halves tinyConfig purple 0%nat).
  intros n. split; [discriminate | reflexivity].
Defined.

(** ** Buffers and frames of [Particles] *)

(** X6.  The position and colour buffers built for a group hold three
    entries per particle, in the order of the group: entry [3 i + c] is
    the binary32 rounding of coordinate [c] of the base position,
    respectively of channel [c] of the colour, of particle [i].  The
    zeroed buffer filled by [forEach] is the concatenation of the rounded
    base positions, so no entry is left at zero by accident. *)
Theorem buffers_layout (points : list Particle) (i : nat) (p : Particle)
    (c : nat) :
  points !! i = Some p ->
  (c < 3)%nat ->
  length (positionsArray points) = (length points * 3)%nat
  /\ length (colorsArray points) = (length points * 3)%nat
  /\ positionsArray points !! (i * 3 + c)%nat
     = Some (Math_fround (at3 (position p) c))
  /\ colorsArray points !! (i * 3 + c)%nat
     = Some (Math_fround (channel (color p) c))
  /\ positionsArray points = initialPositions points.
Proof.
  intros Hp Hc.
  assert (Lc : length (colorsArray points) = (length points * 3)%nat).
  { unfold colorsArray.
    rewrite (forEach_write3_length (fun p k => Math_fround (channel (color p) k))).
    apply length_replicate. }
  repeat apply conj.
  - apply positionsArray_length.
  - exact Lc.
  - now apply positionsArray_lookup.
  - apply (forEach_write3_lookup
             (fun p k => Math_fround (channel (color p) k)) points 0
             (Float32Array_new (length points * 3)) i p c Hp Hc).
    unfold Float32Array_new. rewrite length_replicate.
    apply lookup_lt_Some in Hp. simpl. lia.
  - apply list_eq. intros j.
    destruct (decide (j < length points * 3)%nat) as [Hj | Hj].
    + assert (Hq : (j `div` 3 < length points)%nat)
        by (apply Nat.Div0.div_lt_upper_bound; lia).
      destruct (lookup_lt_is_Some_2 points (j `div` 3) Hq) as [q Hq'].
      assert (Hr : (j `mod` 3 < 3)%nat) by (apply Nat.mod_upper_bound; lia).
      replace j with ((j `div` 3) * 3 + j `mod` 3)%nat
        by (pose proof (Nat.div_mod_eq j 3); lia).
      rewrite (positionsArray_lookup points _ q _ Hq' Hr).
      now rewrite (initialPositions_lookup points _ q _ Hq' Hr).
    + rewrite !lookup_ge_None_2;
        [reflexivity | rewrite initialPositions_length; lia
        | rewrite positionsArray_length; lia].
Qed.

Lemma buffers_layout_witness :
  length (positionsArray [sampleParticle; sampleParticle])
  = (length [sampleParticle; sampleParticle] * 3)%nat
  /\ length (colorsArray [sampleParticle; sampleParticle])
     = (length [sampleParticle; sampleParticle] * 3)%nat
  /\ positionsArray [sampleParticle; sampleParticle] !! (1 * 3 + 0)%nat
     = Some (Math_fround (at3 (position sampleParticle) 0))
  /\ colorsArray [sampleParticle; sampleParticle] !! (1 * 3 + 0)%nat
     = Some (Math_fround (channel (color sampleParticle) 0))
  /\ positionsArray [sampleParticle; sampleParticle]
     = initialPositions [sampleParticle; sampleParticle].
Proof.
  apply (buffers_layout [sampleParticle; sampleParticle] 1 sampleParticle 0);
    [reflexivity | lia].
Defined.

Lemma moveParticle_length mode s i p (positions : list float32) :
  length (moveParticle mode s i p positions) = length positions.
Proof.
  unfold moveParticle. destruct (selectTarget mode p) as [[tx ty] tz].
  now rewrite !lerpAt_length.
Qed.

Lemma forEach_move_length mode s (points : list Particle) :
  forall k (positions : list float32),
    length (forEach_from k (moveParticle mode s) points positions)
    = length positions.
Proof.
  induction points as [| p points IH]; intros k positions; simpl;
    [reflexivity |].
  now rewrite IH, moveParticle_length.
Qed.

Lemma forEach_move_lookup_after mode s (points : list Particle) :
  forall k (positions : list float32) j,
    ((k + length points) * 3 <= j)%nat ->
    forEach_from k (moveParticle mode s) points positions !! j = positions !! j.
Proof.
  induction points as [| p points IH]; intros k positions j Hj; simpl;
    [reflexivity |].
  simpl in Hj. rewrite IH by lia. apply moveParticle_lookup_other. lia.
Qed.

(** X7.  A frame never resizes the position buffer and never touches an
    entry beyond the three per particle of the group; with the mesh not
    yet mounted it does nothing.  A buffer shorter than the group is
    updated where it has entries and is not extended. *)
Theorem frame_keeps_buffer_shape (points : list Particle) (mode : Mode)
    (delta : Q) (positions : list float32) (j : nat) :
  (length points * 3 <= j)%nat ->
  Particles_useFrame points mode delta None = None
  /\ exists positions',
       Particles_useFrame points mode delta (Some positions) = Some positions'
       /\ length positions' = length positions
       /\ positions' !! j = positions !! j.
Proof.
  intros Hj. split; [reflexivity |].
  eexists. split; [reflexivity |]. split.
  - apply forEach_move_length.
  - apply forEach_move_lookup_after. simpl. lia.
Qed.

Lemma frame_keeps_buffer_shape_witness :
  Particles_useFrame [sampleParticle] HEART (1 # 60) None = None
  /\ exists positions',
       Particles_useFrame [sampleParticle] HEART (1 # 60)
         (Some [Finite 0; Finite 0; Finite 0; Finite 7]) = Some positions'
       /\ length positions' = length [Finite 0; Finite 0; Finite 0; Finite 7]
       /\ positions' !! 3%nat
          = [Finite 0; Finite 0; Finite 0; Finite 7] !! 3%nat.
Proof.
  apply (frame_keeps_buffer_shape [sampleParticle] HEART (1 # 60)
           [Finite 0; Finite 0; Finite 0; Finite 7] 3%nat).
  simpl. lia.
Defined.

(** X8.  Started from the initial buffer, a group in TREE mode stays at
    rest under frames of at most half a second: after any run of such
    frames an entry whose base coordinate has a finite binary32 rounding
    still holds that rounding, the value it was initialised to. *)
Theorem tree_mode_is_at_rest (points : list Particle) (deltas : list Q)
    (i : nat) (p : Particle) (c : nat) (v : Q) :
  points !! i = Some p ->
  (c < 3)%nat ->
  Math_fround (at3 (position p) c) = Finite v ->
  Forall (fun delta => 0 <= delta /\ delta <= 1 # 2) deltas ->
  positionsArray points !! (i * 3 + c)%nat = Some (Finite v)
  /\ exists positions',
       Particles_frames points TREE deltas (Some (positionsArray points))
       = Some positions'
       /\ positions' !! (i * 3 + c)%nat = Some (Finite v).
Proof.
  intros Hp Hc Hv HF.
  pose proof (positionsArray_lookup points i p c Hp Hc) as H0.
  rewrite Hv in H0. split; [exact H0 |].
  destruct (Particles_frames_invariant (fun cur => cur = Finite v)
              (fun delta => 0 <= delta /\ delta <= 1 # 2)
              points TREE i p c Hp Hc)
    with (deltas := deltas) (positions := positionsArray points)
         (cur := Finite v)
    as (positions' & cur' & Hrun & Hv' & ->).
  - intros delta cur [D0 D1] ->. cbn [lerp].
    change (selectTarget TREE p) with (position p).
    apply lerp_rests; [assumption | lra | lra].
  - assumption.
  - assumption.
  - reflexivity.
  - exists positions'. split; assumption.
Qed.

Lemma tree_mode_is_at_rest_witness :
  positionsArray [sampleParticle] !! (0 * 3 + 0)%nat = Some (Finite 1)
  /\ exists positions',
       Particles_frames [sampleParticle] TREE [1 # 60; 0; 1 # 2]
         (Some (positionsArray [sampleParticle]))
       = Some positions'
       /\ positions' !! (0 * 3 + 0)%nat = Some (Finite 1).
Proof.
  apply (tree_mode_is_at_rest [sampleParticle] [1 # 60; 0; 1 # 2] 0%nat
           sampleParticle 0%nat 1).
  - reflexivity.
  - lia.
  - vm_compute. reflexivity.
  - repeat constructor; discriminate.
Defined.

(** X9.  A frame of duration 0 leaves every entry that holds a binary32
    number as it is.  And the interpolator never repairs an entry that is
    an infinity or NaN: after any run of frames, of any durations, such
    an entry still is an infinity or NaN. *)
Theorem zero_frame_and_non_finite_entries (points : list Particle)
    (mode : Mode) (i : nat) (p : Particle) (c : nat) :
  points !! i = Some p ->
  (c < 3)%nat ->
  (forall (positions : list float32) v,
     positions !! (i * 3 + c)%nat = Some (Finite v) ->
     is_float32 v ->
     exists positions',
       Particles_useFrame points mode 0 (Some positions) = Some positions'
       /\ positions' !! (i * 3 + c)%nat = Some (Finite v))
  /\ (forall deltas (positions : list float32) cur,
        positions !! (i * 3 + c)%nat = Some cur ->
        (forall v, cur <> Finite v) ->
        exists positions' cur',
          Particles_frames points mode deltas (Some positions)
          = Some positions'
          /\ positions' !! (i * 3 + c)%nat = Some cur'
          /\ forall v, cur' <> Finite v).
Proof.
  intros Hp Hc. split.
  - intros positions v Hv Fv.
    destruct (Particles_useFrame_lookup points mode 0 positions i p c _
                Hp Hc Hv) as (positions' & Hrun & Hv').
    exists positions'. split; [exact Hrun |].
    rewrite Hv'. cbn [lerp]. f_equal. rewrite <- Fv.
    apply Math_fround_comp. ring.
  - intros deltas positions cur Hv Hnf.
    apply (Particles_frames_invariant (fun cur => forall v, cur <> Finite v)
             (fun _ => True) points mode i p c Hp Hc)
      with (cur := cur); try assumption.
    + intros delta [v | negative |] _ Hcur w.
      * exfalso. now apply (Hcur v).
      * cbn [lerp]. destruct (Qltb (2.0 * delta) 0); discriminate.
      * discriminate.
    + clear. induction deltas; constructor; auto.
Qed.

Lemma zero_frame_and_non_finite_entries_witness :
  (forall (positions : list float32) v,
     positions !! (0 * 3 + 1)%nat = Some (Finite v) ->
     is_float32 v ->
     exists positions',
       Particles_useFrame [sampleParticle] SCATTER 0 (Some positions)
       = Some positions'
       /\ positions' !! (0 * 3 + 1)%nat = Some (Finite v))
  /\ (forall deltas (positions : list float32) cur,
        positions !! (0 * 3 + 1)%nat = Some cur ->
        (forall v, cur <> Finite v) ->
        exists positions' cur',
          Particles_frames [sampleParticle] SCATTER deltas (Some positions)
          = Some positions'
          /\ positions' !! (0 * 3 + 1)%nat = Some cur'
          /\ forall v, cur' <> Finite v).
Proof.
  apply (zero_frame_and_non_finite_entries [sampleParticle] SCATTER 0%nat
           sampleParticle 1%nat);
    [reflexivity | lia].
Defined.

(** A run on a buffer with an infinite entry: a frame of a sixtieth of a
    second turns it into NaN, where it stays. *)
Example infinite_entry_becomes_NaN :
  Particles_frames [sampleParticle] SCATTER [0; 1 # 60; 1]
    (Some [Finite (5 # 2); Infinite false; NaN])
  = Some [Finite (7776939 # 1048576); NaN; NaN]
  /\ Particles_useFrame [sampleParticle] SCATTER 0
       (Some [Finite (5 # 2); Infinite false; NaN])
     = Some [Finite (5 # 2); NaN; NaN].
Proof. split; vm_compute; reflexivity. Qed.

(** ** Classifier: failures, ranges and invariants *)

Lemma features_spec {M : JSMath} (lm : list Landmark.t) :
  ((length lm < 21)%nat /\ features lm = None)
  \/ ((21 <= length lm)%nat
      /\ exists pinchDist openDist, features lm = Some (pinchDist, openDist)).
Proof.
  do 21 (destruct lm as [| ? lm];
         [left; split; [simpl; lia | reflexivity] |]).
  right. split; [simpl; lia | eexists _, _; reflexivity].
Qed.

Lemma classify_is_normal {M : JSMath} pinchDist openDist gs :
  exists gs' hint, classify pinchDist openDist gs = Normal gs' hint.
Proof.
  unfold classify.
  destruct (Qltb pinchDist 0.05); [eexists _, _; reflexivity |].
  destruct (Qltb openDist 0.30); [eexists _, _; reflexivity |].
  destruct (Qltb 0.35 openDist); eexists _, _; reflexivity.
Qed.

(** X10.  On a frame with a hand, [processGestures] ends in a TypeError
    exactly when the hand has fewer than 21 landmarks.  By then
    [hand.detected] is already true; the mode is left as it was;
    [hand.x] and [hand.y] are left as they were when landmark 9 is
    missing, and already hold the new position when it is present. *)
Theorem classifier_throws_on_short_hand (M : JSMath)
    (result : HandLandmarkerResult) (lm : list Landmark.t)
    (rest : list (list Landmark.t)) (gs : GestureState) :
  landmarks result = Some (lm :: rest) ->
  ((length lm < 21)%nat <-> exists gs', processGestures result gs = Throw gs')
  /\ ((length lm < 21)%nat ->
      mode (stateOf (processGestures result gs)) = mode gs
      /\ rotation (stateOf (processGestures result gs)) = rotation gs
      /\ Hand.detected (hand (stateOf (processGestures result gs))) = true
      /\ ((length lm <= 9)%nat ->
          Hand.x (hand (stateOf (processGestures result gs))) = Hand.x (hand gs)
          /\ Hand.y (hand (stateOf (processGestures result gs)))
             = Hand.y (hand gs))
      /\ (forall lm9, lm !! 9%nat = Some lm9 ->
          Hand.x (hand (stateOf (processGestures result gs)))
          = (Landmark.x lm9 - 0.5) * 2
          /\ Hand.y (hand (stateOf (processGestures result gs)))
             = (Landmark.y lm9 - 0.5) * 2)).
Proof.
  intros Hlm. unfold processGestures. rewrite Hlm.
  destruct (features_spec lm) as [[Hshort Hf] | [Hlong (pd & od & Hf)]];
    rewrite Hf.
  - destruct (lm !! 9%nat) as [lm9 |] eqn:H9.
    + split; [split; [intros _; eexists; reflexivity | intros _; exact Hshort] |].
      intros _. repeat apply conj; try reflexivity.
      * intros Hle. apply lookup_lt_Some in H9. lia.
      * intros lm9' E. injection E as <-. split; reflexivity.
    + split; [split; [intros _; eexists; reflexivity | intros _; exact Hshort] |].
      intros _. repeat apply conj; try reflexivity.
      * intros _. split; reflexivity.
      * intros lm9' E. discriminate E.
  - destruct (lookup_lt_is_Some_2 lm 9) as [lm9 H9]; [lia |].
    rewrite H9.
    match goal with
    | |- context [classify pd od ?g] =>
        destruct (classify_is_normal pd od g) as (gs' & hint & Hc)
    end.
    rewrite Hc.
    split; [split; [intros H; lia | intros [gs'' E]; discriminate E] |].
    intros H. lia.
Qed.

Lemma classifier_throws_on_short_hand_witness :
  let result := {| landmarks := Some [[point 0.5 0.5; point 0.4 0.4]] |} in
  let lm := [point 0.5 0.5; point 0.4 0.4] in
  let gs := scatterState in
  ((length lm < 21)%nat <-> exists gs', processGestures result gs = Throw gs')
  /\ ((length lm < 21)%nat ->
      mode (stateOf (processGestures result gs)) = mode gs
      /\ rotation (stateOf (processGestures result gs)) = rotation gs
      /\ Hand.detected (hand (stateOf (processGestures result gs))) = true
      /\ ((length lm <= 9)%nat ->
          Hand.x (hand (stateOf (processGestures result gs))) = Hand.x (hand gs)
          /\ Hand.y (hand (stateOf (processGestures result gs)))
             = Hand.y (hand gs))
      /\ (forall lm9, lm !! 9%nat = Some lm9 ->
          Hand.x (hand (stateOf (processGestures result gs)))
          = (Landmark.x lm9 - 0.5) * 2
          /\ Hand.y (hand (stateOf (processGestures result gs)))
             = (Landmark.y lm9 - 0.5) * 2)).
Proof.
  apply (classifier_throws_on_short_hand approxMath
           {| landmarks := Some [[point 0.5 0.5; point 0.4 0.4]] |}
           [point 0.5 0.5; point 0.4 0.4] [] scatterState).
  reflexivity.
Defined.

(** X11.  When the reference landmark 9 of the detected hand has its
    coordinates in [0, 1], the classifier stores a hand position with
    both coordinates in [-1, 1], whether or not it then completes. *)
Theorem hand_position_in_range (M : JSMath) (result : HandLandmarkerResult)
    (lm : list Landmark.t) (rest : list (list Landmark.t))
    (lm9 : Landmark.t) (gs : GestureState) :
  landmarks result = Some (lm :: rest) ->
  lm !! 9%nat = Some lm9 ->
  0 <= Landmark.x lm9 -> Landmark.x lm9 <= 1 ->
  0 <= Landmark.y lm9 -> Landmark.y lm9 <= 1 ->
  (-1 <= Hand.x (hand (stateOf (processGestures result gs)))
   /\ Hand.x (hand (stateOf (processGestures result gs))) <= 1)
  /\ (-1 <= Hand.y (hand (stateOf (processGestures result gs)))
      /\ Hand.y (hand (stateOf (processGestures result gs))) <= 1).
Proof.
  intros Hlm H9 Hx0 Hx1 Hy0 Hy1.
  destruct (processGestures_detected_hand result lm rest lm9 gs Hlm H9)
    as (-> & -> & _).
  repeat split; lra.
Qed.

Lemma hand_position_in_range_witness :
  (-1 <= Hand.x (hand (stateOf (processGestures
                                 {| landmarks := Some [openHand] |}
                                 initialGestureState)))
   /\ Hand.x (hand (stateOf (processGestures
                               {| landmarks := Some [openHand] |}
                               initialGestureState))) <= 1)
  /\ (-1 <= Hand.y (hand (stateOf (processGestures
                                    {| landmarks := Some [openHand] |}
                                    initialGestureState)))
      /\ Hand.y (hand (stateOf (processGestures
                                  {| landmarks := Some [openHand] |}
                                  initialGestureState))) <= 1).
Proof.
  apply (hand_position_in_range approxMath {| landmarks := Some [openHand] |}
           openHand [] (point 0.75 0.25) initialGestureState);
    try reflexivity; discriminate.
Defined.

(** X12.  Classifying the same frame twice in a row leaves the state
    the first classification produced: the classifier has no counter or
    history beyond the mode it holds. *)
Theorem classifier_is_idempotent (M : JSMath) (result : HandLandmarkerResult)
    (gs : GestureState) :
  stateOf (processGestures result (stateOf (processGestures result gs)))
  = stateOf (processGestures result gs).
Proof.
  unfold processGestures.
  destruct (landmarks result) as [[| lm rest] |]; try reflexivity.
  destruct (lm !! 9%nat) as [lm9 |]; [| reflexivity].
  destruct (features lm) as [[pinchDist openDist] |]; [| reflexivity].
  unfold classify.
  destruct (Qltb pinchDist 0.05) eqn:E1; [reflexivity |].
  destruct (Qltb openDist 0.30) eqn:E2; [reflexivity |].
  destruct (Qltb 0.35 openDist) eqn:E3; reflexivity.
Qed.

Lemma processGestures_dead_band {M : JSMath} result gs :
  in_dead_band result ->
  mode (stateOf (processGestures result gs)) = mode gs.
Proof.
  intros (lm & rest & pd & od & Hlm & Hlen & Hf & Hp & Ho1 & Ho2).
  destruct (lookup_lt_is_Some_2 lm 9) as [lm9 H9]; [lia |].
  unfold processGestures. rewrite Hlm, H9, Hf. unfold classify.
  assert (E1 : Qltb pd 0.05 = false) by (apply Qltb_false; lra).
  assert (E2 : Qltb od 0.30 = false) by (apply Qltb_false; lra).
  assert (E3 : Qltb 0.35 od = false) by (apply Qltb_false; lra).
  rewrite E1, E2, E3. reflexivity.
Qed.

(** X13.  While the hand stays in the dead band (pinch distance at least
    0.05, openness between 0.30 and 0.35) the mode does not change,
    however many frames are classified and whatever the mode was. *)
Theorem dead_band_holds_mode (M : JSMath)
    (results : list HandLandmarkerResult) (gs : GestureState) :
  Forall in_dead_band results ->
  mode (processFrames results gs) = mode gs.
Proof.
  intros H. revert gs. induction H as [| result results Hd _ IH]; intros gs.
  - reflexivity.
  - change (processFrames (result :: results) gs)
      with (processFrames results (stateOf (processGestures result gs))).
    rewrite IH. now apply processGestures_dead_band.
Qed.

(** A hand between fist and open palm: finger tips 0.32 from the wrist,
    thumb and index tips 0.3 apart. *)
Example halfOpenHand_features :
  exists pinchDist openDist,
    features (mkHand (point 0.5 0.72) (point 0.2 0.4) (point 0.5 0.4)
                     (point 0.5 0.4) (point 0.5 0.4) (point 0.5 0.4)
                     (point 0.5 0.5))
    = Some (pinchDist, openDist)
    /\ 0.05 <= pinchDist /\ 0.30 <= openDist /\ openDist <= 0.35.
Proof.
  eexists _, _. split; [vm_compute; reflexivity |].
  repeat split; discriminate.
Qed.

Lemma dead_band_holds_mode_witness :
  let frame :=
    {| landmarks :=
         Some [mkHand (point 0.5 0.72) (point 0.2 0.4) (point 0.5 0.4)
                      (point 0.5 0.4) (point 0.5 0.4) (point 0.5 0.4)
                      (point 0.5 0.5)] |} in
  mode (processFrames [frame; frame; frame] scatterState) = mode scatterState.
Proof.
  apply (dead_band_holds_mode approxMath).
  repeat constructor;
    destruct halfOpenHand_features as (pd & od & Hf & Hp & Ho1 & Ho2);
    eexists _, [], pd, od; repeat split; try eassumption; reflexivity.
Defined.

Lemma processGestures_tracked {M : JSMath} result gs :
  tracked (stateOf (processGestures result gs)).
Proof.
  unfold tracked, processGestures.
  destruct (landmarks result) as [[| lm rest] |]; try reflexivity.
  destruct (lm !! 9%nat) as [lm9 |]; [| discriminate].
  destruct (features lm) as [[pinchDist openDist] |]; [| discriminate].
  unfold classify.
  destruct (Qltb pinchDist 0.05); [discriminate |].
  destruct (Qltb openDist 0.30); [discriminate |].
  destruct (Qltb 0.35 openDist); discriminate.
Qed.

Lemma rotateByGesture_mode_hand delta gs :
  mode (rotateByGesture delta gs) = mode gs
  /\ hand (rotateByGesture delta gs) = hand gs.
Proof.
  unfold rotateByGesture.
  destruct (Mode_eqb (mode gs) SCATTER && Hand.detected (hand gs)).
  - destruct (Qltb 0.3 (Hand.x (hand gs)));
      [| destruct (Qltb (Hand.x (hand gs)) (Qopp 0.3))];
      cbn [hand set_rotation_y set_rotation_x mode];
      (destruct (Qltb 0.3 (Hand.y (hand gs)));
         [| destruct (Qltb (Hand.y (hand gs)) (Qopp 0.3))]);
      split; reflexivity.
  - destruct (Mode_eqb (mode gs) TREE); [split; reflexivity |].
    destruct (Mode_eqb (mode gs) HEART); split; reflexivity.
Qed.

Lemma Scene_useFrame_gestureState delta st :
  gestureState (Scene_useFrame delta st)
  = match groupRef st with
    | Some _ => rotateByGesture delta <$> gestureState st
    | None => gestureState st
    end.
Proof.
  unfold Scene_useFrame.
  destruct (groupRef st), (gestureState st); reflexivity.
Qed.

Lemma runEvent_tracked {M : JSMath} e st :
  (forall gs, gestureState st = Some gs -> tracked gs) ->
  forall gs, gestureState (runEvent e st) = Some gs -> tracked gs.
Proof.
  intros Hst gs. destruct e as [result | delta]; simpl.
  - destruct (gestureState st) as [gs0 |]; simpl; [| discriminate].
    intros E. injection E as <-. apply processGestures_tracked.
  - rewrite Scene_useFrame_gestureState.
    destruct (groupRef st); [| apply Hst].
    destruct (gestureState st) as [gs0 |] eqn:E0; simpl; [| discriminate].
    intros E. injection E as <-.
    destruct (rotateByGesture_mode_hand delta gs0) as [Hm Hh].
    unfold tracked. rewrite Hm, Hh. now apply Hst.
Qed.

Lemma runEvents_gestureState_some {M : JSMath} events :
  forall st gs0,
    gestureState st = Some gs0 ->
    exists gs, gestureState (runEvents events st) = Some gs.
Proof.
  induction events as [| e events IH]; intros st gs0 H0.
  - exists gs0. exact H0.
  - change (runEvents (e :: events) st) with (runEvents events (runEvent e st)).
    destruct e as [result | delta].
    + eapply IH. simpl. rewrite H0. reflexivity.
    + pose proof (Scene_useFrame_gestureState delta st) as E.
      rewrite H0 in E. destruct (groupRef st); eapply IH; exact E.
Qed.

Lemma runEvents_tracked {M : JSMath} events :
  forall st,
    (forall gs, gestureState st = Some gs -> tracked gs) ->
    forall gs, gestureState (runEvents events st) = Some gs -> tracked gs.
Proof.
  induction events as [| e events IH]; intros st Hst; [exact Hst |].
  change (runEvents (e :: events) st) with (runEvents events (runEvent e st)).
  apply IH. now apply runEvent_tracked.
Qed.

(** X14.  Over any interleaving of classifications and rendered frames,
    starting from a state that shows TREE whenever no hand is detected
    (as the initial state does), the shared state keeps that property:
    without a detected hand the mode is TREE.  So SCATTER mode always
    comes with a detected hand, and the rotation controller never meets
    the case its last branch (the drift for SCATTER without a hand) is
    written for. *)
Theorem mode_without_hand_is_tree (M : JSMath) (events : list Event)
    (group : option Rotation.t) (gs0 : GestureState) :
  tracked gs0 ->
  exists gs,
    gestureState (runEvents events
                    {| groupRef := group; gestureState := Some gs0 |})
    = Some gs
    /\ (Hand.detected (hand gs) = false -> mode gs = TREE)
    /\ (mode gs = SCATTER -> Hand.detected (hand gs) = true).
Proof.
  intros H0.
  destruct (runEvents_gestureState_some events
              {| groupRef := group; gestureState := Some gs0 |} gs0 eq_refl)
    as [gs Hgs].
  assert (T : tracked gs).
  { eapply runEvents_tracked; [| exact Hgs].
    simpl. intros gs' E. injection E as <-. exact H0. }
  exists gs. split; [exact Hgs |]. split; [exact T |].
  intros Hm. destruct (Hand.detected (hand gs)) eqn:Hd; [reflexivity |].
  rewrite (T Hd) in Hm. discriminate Hm.
Qed.

Lemma mode_without_hand_is_tree_witness :
  let events :=
    [Render (1 # 60); Classify {| landmarks := Some [openHand] |};
     Render (1 # 60); Classify {| landmarks := None |}; Render (1 # 30)] in
  exists gs,
    gestureState (runEvents events
                    {| groupRef := Some {| Rotation.x := 0; Rotation.y := 0 |};
                       gestureState := Some initialGestureState |})
    = Some gs
    /\ (Hand.detected (hand gs) = false -> mode gs = TREE)
    /\ (mode gs = SCATTER -> Hand.detected (hand gs) = true).
Proof.
  apply (mode_without_hand_is_tree approxMath).
  intros _. reflexivity.
Defined.

Lemma processGestures_classified {M : JSMath} result gs1 gs2 :
  mode gs1 = mode gs2 ->
  hand gs1 = hand gs2 ->
  mode (stateOf (processGestures result gs1))
  = mode (stateOf (processGestures result gs2))
  /\ hand (stateOf (processGestures result gs1))
     = hand (stateOf (processGestures result gs2)).
Proof.
  destruct gs1 as [m1 h1 r1], gs2 as [m2 h2 r2]. simpl. intros -> ->.
  unfold processGestures.
  destruct (landmarks result) as [[| lm rest] |]; try (split; reflexivity).
  destruct (lm !! 9%nat) as [lm9 |]; [| split; reflexivity].
  destruct (features lm) as [[pinchDist openDist] |]; [| split; reflexivity].
  unfold classify.
  destruct (Qltb pinchDist 0.05); [split; reflexivity |].
  destruct (Qltb openDist 0.30); [split; reflexivity |].
  destruct (Qltb 0.35 openDist); split; reflexivity.
Qed.

Lemma classified_eq st1 st2 :
  classified st1 = classified st2 <->
  match gestureState st1, gestureState st2 with
  | Some gs1, Some gs2 => mode gs1 = mode gs2 /\ hand gs1 = hand gs2
  | None, None => True
  | _, _ => False
  end.
Proof.
  unfold classified.
  destruct (gestureState st1), (gestureState st2); simpl;
    split; try tauto; try discriminate.
  - intros E. injection E as -> ->. auto.
  - intros [-> ->]. reflexivity.
Qed.

Lemma runEvent_classified {M : JSMath} e st1 st2 :
  classified st1 = classified st2 ->
  classified (runEvent e st1)
  = if isClassify e then classified (runEvent e st2) else classified st2.
Proof.
  intros H. destruct e as [result | delta]; cbn [isClassify].
  - apply classified_eq. apply classified_eq in H. simpl.
    destruct (gestureState st1), (gestureState st2); simpl; try tauto.
    destruct H. now apply processGestures_classified.
  - rewrite <- H. unfold classified. simpl.
    rewrite Scene_useFrame_gestureState.
    destruct (groupRef st1); [| reflexivity].
    destruct (gestureState st1) as [gs |]; [| reflexivity]. simpl.
    destruct (rotateByGesture_mode_hand delta gs) as [-> ->]. reflexivity.
Qed.

(** X15.  The two writers of the shared state keep to their fields.
    The mode and the hand after any interleaving of classifications and
    rendered frames are those the classifications alone would have
    produced: rendering never changes what the classifier owns.  And a
    classification changes neither the rotation in the shared state nor
    the rotation of the scene group. *)
Theorem writers_keep_to_their_fields (M : JSMath) (events : list Event)
    (result : HandLandmarkerResult) (st : SceneState) :
  classified (runEvents events st)
  = classified (runEvents (List.filter isClassify events) st)
  /\ groupRef (runEvent (Classify result) st) = groupRef st
  /\ rotation <$> gestureState (runEvent (Classify result) st)
     = rotation <$> gestureState st.
Proof.
  split.
  - assert (G : forall st1 st2,
               classified st1 = classified st2 ->
               classified (runEvents events st1)
               = classified (runEvents (List.filter isClassify events) st2)).
    { induction events as [| e events IH]; intros st1 st2 H; [exact H |].
      change (runEvents (e :: events) st1)
        with (runEvents events (runEvent e st1)).
      pose proof (runEvent_classified e st1 st2 H) as E.
      simpl List.filter. destruct (isClassify e).
      - change (runEvents (e :: List.filter isClassify events) st2)
          with (runEvents (List.filter isClassify events) (runEvent e st2)).
        now apply IH.
      - now apply IH. }
    now apply G.
  - split; [reflexivity |]. simpl.
    destruct (gestureState st) as [gs |]; [| reflexivity]. simpl.
    now rewrite processGestures_rotation.
Qed.

(** X16.  The detection loop classifies a video frame once: a second
    round at the same video time changes nothing, as does a round while
    the video element is unset.  A round at a new video time records
    that time and classifies the detection, or leaves the gesture state
    alone when no detection is available. *)
Theorem detection_classifies_a_frame_once (M : JSMath) (t : Q)
    (d1 d2 : option HandLandmarkerResult) (st : DetectState) :
  detectGestures (Some t) d2 (detectGestures (Some t) d1 st)
  = detectGestures (Some t) d1 st
  /\ detectGestures None d1 st = st
  /\ (t == lastVideoTime st -> detectGestures (Some t) d1 st = st)
  /\ (~ t == lastVideoTime st ->
      lastVideoTime (detectGestures (Some t) d1 st) = t
      /\ gesture (detectGestures (Some t) d1 st)
         = match d1 with
           | Some result => stateOf (processGestures result (gesture st))
           | None => gesture st
           end).
Proof.
  unfold detectGestures, Qeqb.
  destruct (Qeq_bool t (lastVideoTime st)) eqn:E; simpl.
  - rewrite E. simpl. apply Qeq_bool_iff in E.
    repeat apply conj; try reflexivity. intros H. contradiction.
  - assert (R : Qeq_bool t t = true) by (apply Qeq_bool_iff; reflexivity).
    rewrite R. simpl.
    repeat apply conj; try reflexivity.
    + intros H. apply Qeq_bool_iff in H. congruence.
    + intros _. split; reflexivity.
Qed.

Lemma detection_classifies_a_frame_once_witness :
  let st := {| lastVideoTime := -1; gesture := initialGestureState |} in
  let d1 := Some {| landmarks := Some [openHand] |} in
  let d2 := Some {| landmarks := None |} in
  detectGestures (Some 0.04) d2 (detectGestures (Some 0.04) d1 st)
  = detectGestures (Some 0.04) d1 st
  /\ detectGestures None d1 st = st
  /\ (0.04 == lastVideoTime st -> detectGestures (Some 0.04) d1 st = st)
  /\ (~ 0.04 == lastVideoTime st ->
      lastVideoTime (detectGestures (Some 0.04) d1 st) = 0.04
      /\ gesture (detectGestures (Some 0.04) d1 st)
         = match d1 with
           | Some result => stateOf (processGestures result (gesture st))
           | None => gesture st
           end).
Proof.
  apply (detection_classifies_a_frame_once approxMath 0.04
           (Some {| landmarks := Some [openHand] |})
           (Some {| landmarks := None |})
           {| lastVideoTime := -1; gesture := initialGestureState |}).
Defined.

(** ** Rotation controller: the automatic policies *)

Lemma rotateByGesture_tree delta gs :
  mode gs = TREE ->
  rotateByGesture delta gs
  = {| mode := TREE; hand := hand gs;
       rotation :=
         {| Rotation.x := Rotation.x (rotation gs)
                          + (0 - Rotation.x (rotation gs)) * 2.0 * delta;
            Rotation.y := Rotation.y (rotation gs) + 0.15 * delta |} |}.
Proof.
  destruct gs as [m h r]. simpl. intros ->. reflexivity.
Qed.

Lemma rotateByGesture_heart delta gs :
  mode gs = HEART ->
  rotateByGesture delta gs
  = {| mode := HEART; hand := hand gs;
       rotation :=
         {| Rotation.x := Rotation.x (rotation gs)
                          + (0 - Rotation.x (rotation gs)) * 1.5 * delta;
            Rotation.y := Rotation.y (rotation gs) + 0.1 * delta |} |}.
Proof.
  destruct gs as [m h r]. simpl. intros ->. reflexivity.
Qed.

Lemma rotateByGesture_drift delta gs :
  mode gs = SCATTER ->
  Hand.detected (hand gs) = false ->
  rotateByGesture delta gs
  = {| mode := SCATTER; hand := hand gs;
       rotation :=
         {| Rotation.x := Rotation.x (rotation gs);
            Rotation.y := Rotation.y (rotation gs) + 0.05 * delta |} |}.
Proof.
  destruct gs as [m h r]. simpl. intros -> Hd.
  unfold rotateByGesture. simpl. rewrite Hd. reflexivity.
Qed.

Lemma Scene_useFrame_mounted delta group gs :
  Scene_useFrame delta {| groupRef := Some group; gestureState := Some gs |}
  = {| groupRef :=
         Some {| Rotation.x := Rotation.x (rotation (rotateByGesture delta gs));
                 Rotation.y := Rotation.y (rotation (rotateByGesture delta gs)) |};
       gestureState := Some (rotateByGesture delta gs) |}.
Proof. reflexivity. Qed.

Lemma tree_frames {M : JSMath} deltas :
  forall group gs,
    mode gs = TREE ->
    exists group' gs',
      runEvents (Render <$> deltas)
        {| groupRef := Some group; gestureState := Some gs |}
      = {| groupRef := Some group'; gestureState := Some gs' |}
      /\ mode gs' = TREE
      /\ hand gs' = hand gs
      /\ Rotation.y (rotation gs')
         == Rotation.y (rotation gs) + 0.15 * elapsed deltas
      /\ Rotation.x (rotation gs') == Rotation.x (rotation gs) * decay deltas
      /\ (deltas <> [] ->
          Rotation.x group' = Rotation.x (rotation gs')
          /\ Rotation.y group' = Rotation.y (rotation gs')).
Proof.
  induction deltas as [| delta deltas IH]; intros group gs Hm.
  - exists group, gs.
    change (elapsed []) with 0. change (decay []) with 1.
    repeat apply conj; try reflexivity; try lra; try assumption.
    intros H. congruence.
  - change (runEvents (Render <$> delta :: deltas)
              {| groupRef := Some group; gestureState := Some gs |})
      with (runEvents (Render <$> deltas)
              (Scene_useFrame delta
                 {| groupRef := Some group; gestureState := Some gs |})).
    rewrite Scene_useFrame_mounted, (rotateByGesture_tree delta gs Hm).
    cbn [rotation Rotation.x Rotation.y].
    match goal with
    | |- context [runEvents _ {| groupRef := Some ?g1; gestureState := Some ?g2 |}] =>
        destruct (IH g1 g2 eq_refl)
          as (group' & gs' & Hrun & Hm' & Hh & Hy & Hx & Hg)
    end.
    cbn [rotation Rotation.x Rotation.y hand] in Hh, Hy, Hx.
    exists group', gs'. rewrite Hrun.
    repeat apply conj; try assumption; try reflexivity.
    + rewrite Hy. change (elapsed (delta :: deltas)) with (delta + elapsed deltas).
      lra.
    + rewrite Hx, decay_cons. lra.
    + intros _. destruct deltas as [| d deltas'].
      * cbn in Hrun. injection Hrun as <- <-. split; reflexivity.
      * apply Hg. discriminate.
Qed.

(** X17.  While the mode is TREE the rotation controller turns the scene
    at a constant rate and recentres the pitch: after a run of rendered
    frames the yaw has advanced by 0.15 radian per second of elapsed
    time, the pitch has been scaled by [1 - 2 * delta] once per frame,
    mode and hand are untouched, and the scene group shows the rotation
    of the shared state.  For frames shorter than half a second the
    pitch has shrunk to at most its initial size divided by
    [1 + 2 * elapsed]. *)
Theorem tree_mode_auto_rotation (M : JSMath) (deltas : list Q)
    (group : Rotation.t) (gs : GestureState) :
  mode gs = TREE ->
  deltas <> [] ->
  exists gs',
    runEvents (Render <$> deltas)
      {| groupRef := Some group; gestureState := Some gs |}
    = {| groupRef := Some (rotation gs'); gestureState := Some gs' |}
    /\ mode gs' = TREE
    /\ hand gs' = hand gs
    /\ Rotation.y (rotation gs')
       == Rotation.y (rotation gs) + 0.15 * elapsed deltas
    /\ Rotation.x (rotation gs') == Rotation.x (rotation gs) * decay deltas
    /\ (Forall short_frame deltas ->
        Qabs (Rotation.x (rotation gs')) * (1 + 2 * elapsed deltas)
        <= Qabs (Rotation.x (rotation gs))).
Proof.
  intros Hm Hne.
  destruct (tree_frames deltas group gs Hm)
    as (group' & gs' & Hrun & Hm' & Hh & Hy & Hx & Hg).
  destruct (Hg Hne) as [Gx Gy].
  exists gs'. repeat apply conj; try assumption.
  - rewrite Hrun. f_equal. f_equal.
    destruct group', (rotation gs'). simpl in *. congruence.
  - intros Hshort.
    destruct (decay_short deltas Hshort) as (D0 & D1 & D2 & T0).
    rewrite (Qabs_scale _ _ (decay deltas) (Qlt_le_weak _ _ D0) Hx).
    pose proof (Qabs_nonneg (Rotation.x (rotation gs))).
    set (a := Qabs (Rotation.x (rotation gs))) in *.
    set (D := decay deltas) in *. set (T := elapsed deltas) in *. nra.
Qed.

Lemma tree_mode_auto_rotation_witness :
  exists gs',
    runEvents (Render <$> [1 # 60; 1 # 30])
      {| groupRef := Some {| Rotation.x := 0; Rotation.y := 0 |};
         gestureState := Some (set_mode TREE scatterState) |}
    = {| groupRef := Some (rotation gs'); gestureState := Some gs' |}
    /\ mode gs' = TREE
    /\ hand gs' = hand (set_mode TREE scatterState)
    /\ Rotation.y (rotation gs')
       == Rotation.y (rotation (set_mode TREE scatterState))
          + 0.15 * elapsed [1 # 60; 1 # 30]
    /\ Rotation.x (rotation gs')
       == Rotation.x (rotation (set_mode TREE scatterState))
          * decay [1 # 60; 1 # 30]
    /\ (Forall short_frame [1 # 60; 1 # 30] ->
        Qabs (Rotation.x (rotation gs')) * (1 + 2 * elapsed [1 # 60; 1 # 30])
        <= Qabs (Rotation.x (rotation (set_mode TREE scatterState)))).
Proof.
  apply (tree_mode_auto_rotation approxMath [1 # 60; 1 # 30]
           {| Rotation.x := 0; Rotation.y := 0 |} (set_mode TREE scatterState));
    [reflexivity | discriminate].
Defined.

(** X18.  Under the automatic policies, that is whenever the mode is not
    SCATTER with a detected hand, a rendered frame of non-negative
    duration never turns the yaw back.  In HEART mode the yaw advances
    by [0.1 * delta] and the pitch is scaled by [1 - 1.5 * delta]; in
    SCATTER mode without a hand the yaw advances by [0.05 * delta] and
    the pitch is left alone. *)
Theorem auto_rotation_never_turns_back (delta : Q) (gs : GestureState) :
  0 <= delta ->
  mode gs <> SCATTER \/ Hand.detected (hand gs) = false ->
  Rotation.y (rotation gs) <= Rotation.y (rotation (rotateByGesture delta gs))
  /\ (mode gs = HEART ->
      Rotation.y (rotation (rotateByGesture delta gs))
      == Rotation.y (rotation gs) + 0.1 * delta
      /\ Rotation.x (rotation (rotateByGesture delta gs))
         == Rotation.x (rotation gs) * (1 - 1.5 * delta))
  /\ (mode gs = SCATTER ->
      Rotation.y (rotation (rotateByGesture delta gs))
      == Rotation.y (rotation gs) + 0.05 * delta
      /\ Rotation.x (rotation (rotateByGesture delta gs))
         = Rotation.x (rotation gs)).
Proof.
  intros Hd Hauto.
  destruct (mode gs) eqn:Hm.
  - rewrite (rotateByGesture_tree delta gs Hm). simpl.
    repeat apply conj; try (intros E; discriminate E). lra.
  - destruct Hauto as [Hne | Hnohand]; [congruence |].
    rewrite (rotateByGesture_drift delta gs Hm Hnohand). simpl.
    repeat apply conj; try (intros E; discriminate E); try lra.
    intros _. split; [lra | reflexivity].
  - rewrite (rotateByGesture_heart delta gs Hm). simpl.
    repeat apply conj; try (intros E; discriminate E); lra.
Qed.

Lemma auto_rotation_never_turns_back_witness :
  let gs := set_mode HEART scatterState in
  Rotation.y (rotation gs)
  <= Rotation.y (rotation (rotateByGesture (1 # 60) gs))
  /\ (mode gs = HEART ->
      Rotation.y (rotation (rotateByGesture (1 # 60) gs))
      == Rotation.y (rotation gs) + 0.1 * (1 # 60)
      /\ Rotation.x (rotation (rotateByGesture (1 # 60) gs))
         == Rotation.x (rotation gs) * (1 - 1.5 * (1 # 60)))
  /\ (mode gs = SCATTER ->
      Rotation.y (rotation (rotateByGesture (1 # 60) gs))
      == Rotation.y (rotation gs) + 0.05 * (1 # 60)
      /\ Rotation.x (rotation (rotateByGesture (1 # 60) gs))
         = Rotation.x (rotation gs)).
Proof.
  apply (auto_rotation_never_turns_back (1 # 60) (set_mode HEART scatterState)).
  - discriminate.
  - left. discriminate.
Defined.

Lemma fallback_frames {M : JSMath} deltas :
  forall group,
    exists group',
      runEvents (Render <$> deltas)
        {| groupRef := Some group; gestureState := None |}
      = {| groupRef := Some group'; gestureState := None |}
      /\ Rotation.x group' = Rotation.x group
      /\ Rotation.y group'
         == Rotation.y group + 0.002 * ofNat (length deltas).
Proof.
  induction deltas as [| delta deltas IH]; intros group.
  - exists group. repeat apply conj; try reflexivity.
    change (ofNat (length [])) with 0. lra.
  - change (runEvents (Render <$> delta :: deltas)
              {| groupRef := Some group; gestureState := None |})
      with (runEvents (Render <$> deltas)
              {| groupRef := Some {| Rotation.x := Rotation.x group;
                                     Rotation.y := Rotation.y group + 0.002 |};
                 gestureState := None |}).
    destruct (IH {| Rotation.x := Rotation.x group;
                    Rotation.y := Rotation.y group + 0.002 |})
      as (group' & Hrun & Hx & Hy).
    exists group'. split; [exact Hrun |]. split; [exact Hx |].
    rewrite Hy. cbn [Rotation.y length]. unfold ofNat.
    rewrite Nat2Z.inj_succ, <- Z.add_1_r, inject_Z_plus.
    change (inject_Z 1) with 1. lra.
Qed.

(** X19.  Without a gesture state the scene turns by a fixed 0.002
    radian per rendered frame, whatever the frame durations: after [n]
    frames the yaw of the group has advanced by [0.002 * n] and its
    pitch is unchanged.  While the scene group is not mounted a frame
    changes nothing at all, not even the shared rotation. *)
Theorem fallback_rotation_counts_frames (M : JSMath) (deltas : list Q)
    (group : Rotation.t) (delta : Q) (gs : option GestureState) :
  (exists group',
     runEvents (Render <$> deltas)
       {| groupRef := Some group; gestureState := None |}
     = {| groupRef := Some group'; gestureState := None |}
     /\ Rotation.x group' = Rotation.x group
     /\ Rotation.y group' == Rotation.y group + 0.002 * ofNat (length deltas))
  /\ Scene_useFrame delta {| groupRef := None; gestureState := gs |}
     = {| groupRef := None; gestureState := gs |}.
Proof.
  split; [apply fallback_frames | reflexivity].
Qed.

(** ** The star on top *)

Lemma heart_levels theme :
  In theme (map snd COLOR_THEMES) ->
  level (at3 (heart theme) 0) /\ level (at3 (heart theme) 1)
  /\ level (at3 (heart theme) 2).
Proof.
  simpl. unfold level.
  intros [<- | [<- | [<- | [<- | [<- | []]]]]]; simpl; repeat split; lra.
Qed.

Lemma Math_max_0_level (v : Q) :
  level v -> level (Math_max 0 (v - 50)) /\ Math_max 0 (v - 50) <= v.
Proof.
  unfold level. intros [? ?].
  destruct (Math_max_cases 0 (v - 50)) as [[? ->] | [? ->]];
    repeat split; lra.
Qed.

(** X20.  Under every theme of the program the colour of the star and
    its emissive colour have all channels in [0, 1], and no channel of
    the emissive colour exceeds that channel of the star's colour: the
    subtraction of 50 levels is floored at 0. *)
Theorem star_mesh_colors (theme : Theme) :
  In theme (map snd COLOR_THEMES) ->
  color_within 1 (starColor theme)
  /\ color_within 1 (emissiveColor theme)
  /\ THREE.r (emissiveColor theme) <= THREE.r (starColor theme)
  /\ THREE.g (emissiveColor theme) <= THREE.g (starColor theme)
  /\ THREE.b (emissiveColor theme) <= THREE.b (starColor theme).
Proof.
  intros Hin. destruct (heart_levels theme Hin) as (Hr & Hg & Hb).
  unfold starColor, emissiveColor.
  destruct (heart theme) as [[hr hg] hb]. simpl in Hr, Hg, Hb.
  destruct (Math_max_0_level hr Hr) as [Lr Er].
  destruct (Math_max_0_level hg Hg) as [Lg Eg].
  destruct (Math_max_0_level hb Hb) as [Lb Eb].
  split; [now apply levels_within |].
  split; [now apply levels_within |].
  unfold mkColor. cbn [THREE.r THREE.g THREE.b]. qconst.
  repeat split; lra.
Qed.

Lemma star_mesh_colors_witness :
  color_within 1 (starColor blue)
  /\ color_within 1 (emissiveColor blue)
  /\ THREE.r (emissiveColor blue) <= THREE.r (starColor blue)
  /\ THREE.g (emissiveColor blue) <= THREE.g (starColor blue)
  /\ THREE.b (emissiveColor blue) <= THREE.b (starColor blue).
Proof.
  apply (star_mesh_colors blue). simpl. tauto.
Defined.

(** ** Snowflakes *)

Lemma replicate_Gen_spec {A : Type} (P : A -> Prop) (f : Gen A) :
  (forall s, P (f s).1) ->
  forall n s,
    length (replicate_Gen n f s).1 = n /\ Forall P (replicate_Gen n f s).1.
Proof.
  intros HP. induction n as [| n IH]; intros s.
  - split; [reflexivity | constructor].
  - change (replicate_Gen (Datatypes.S n) f s)
      with ((a ← f; rest ← replicate_Gen n f; mret (a :: rest)) s).
    rewrite !Gen_bind_run. cbn [mret Gen_ret fst].
    destruct (IH (f s).2) as [L F].
    split; [simpl; now rewrite L | constructor; [apply HP | exact F]].
Qed.

Lemma map_Gen_spec {A B : Type} (R : A -> B -> Prop) (f : A -> Gen B) :
  (forall a s, R a (f a s).1) ->
  forall l s, Forall2 R l (map_Gen f l s).1.
Proof.
  intros HR. induction l as [| a l IH]; intros s.
  - constructor.
  - change (map_Gen f (a :: l) s)
      with ((b ← f a; rest ← map_Gen f l; mret (b :: rest)) s).
    rewrite !Gen_bind_run. cbn [mret Gen_ret fst].
    constructor; [apply HR | apply IH].
Qed.

Section SnowFacts.
Variable random : nat -> Q.
Hypothesis random_canonical : canonical random.

Lemma newFlake_fresh window s :
  fresh_flake match window with
              | Some w => innerWidth w
              | None => 1600
              end
              (newFlake random window s).1.
Proof.
  unfold newFlake, fresh_flake. gen_run.
  cbn [Flake.x Flake.y Flake.radius Flake.speed].
  canon random_canonical.
  repeat apply conj; try lra.
  exists (random s). repeat split; lra.
Qed.

Lemma moveFlake_step window delta flake s :
  flake_step window delta flake (moveFlake random window delta flake s).1.
Proof.
  unfold moveFlake, flake_step.
  destruct (Qltb (innerHeight window + 50)
                 (Flake.y flake + Flake.speed flake * delta)) eqn:E;
    [apply Qltb_true in E | apply Qltb_false in E];
    gen_run; cbn [Flake.x Flake.y Flake.radius Flake.speed].
  - split; [reflexivity |]. split; [reflexivity |]. right.
    canon random_canonical.
    split; [exact E |]. split; [split; lra |].
    exists (random (Datatypes.S s)). repeat split; tauto.
  - split; [reflexivity |]. split; [reflexivity |]. left.
    repeat split. exact E.
Qed.

End SnowFacts.

(** X21.  With draws in [0, 1) the overlay starts with
    [SNOW2D_POINTS] flakes (10 in the program), every one of them above
    the top edge of the window (y in [-150, -80]), with radius in
    [10, 16], speed in [30, 45] and a horizontal position that is a
    fraction in [0, 1] of the window width, or of 1600 where there is no
    window. *)
Theorem initial_flakes_are_fresh (random : nat -> Q) (cfg : Config)
    (window : option Window) (s : nat) :
  canonical random ->
  length (initialFlakes random cfg window s).1 = ToLength (SNOW2D_POINTS cfg)
  /\ length (initialFlakes random CONFIG window s).1 = 10%nat
  /\ Forall (fresh_flake match window with
                         | Some w => innerWidth w
                         | None => 1600
                         end)
            (initialFlakes random cfg window s).1.
Proof.
  intros Hc. unfold initialFlakes.
  destruct (replicate_Gen_spec _ _ (newFlake_fresh random Hc window)
              (ToLength (SNOW2D_POINTS cfg)) s) as [L F].
  destruct (replicate_Gen_spec (fun _ => True) (newFlake random window)
              (fun _ => I) (ToLength (SNOW2D_POINTS CONFIG)) s) as [L' _].
  repeat apply conj; assumption.
Qed.

Lemma initial_flakes_are_fresh_witness :
  length (initialFlakes halves CONFIG None 0%nat).1
  = ToLength (SNOW2D_POINTS CONFIG)
  /\ length (initialFlakes halves CONFIG None 0%nat).1 = 10%nat
  /\ Forall (fresh_flake 1600) (initialFlakes halves CONFIG None 0%nat).1.
Proof.
  apply (initial_flakes_are_fresh halves CONFIG None 0%nat).
  intros n. split; [discriminate | reflexivity].
Defined.

(** X22.  One tick of the snow animation keeps the number of flakes and
    the radius and speed of each.  A flake either falls by
    [speed * delta] in its column or, when that would carry it more than
    50 below the bottom edge, restarts above the top edge at a new
    column.  So in a window at least -130 high no flake is ever left
    more than 50 below the bottom edge. *)
Theorem snow_tick (random : nat -> Q) (window : Window) (now lastTime : Q)
    (prev : list Flake.t) (s : nat) :
  canonical random ->
  -130 <= innerHeight window ->
  length (animate random window now lastTime prev s).1 = length prev
  /\ Forall2 (flake_step window ((now - lastTime) / 1000)) prev
             (animate random window now lastTime prev s).1
  /\ Forall (fun flake' => Flake.y flake' <= innerHeight window + 50)
            (animate random window now lastTime prev s).1.
Proof.
  intros Hc Hh. unfold animate.
  pose proof (map_Gen_spec _ _
                (moveFlake_step random Hc window ((now - lastTime) / 1000))
                prev s) as F.
  split; [symmetry; eapply Forall2_length; exact F |].
  split; [exact F |].
  induction F as [| flake flake' prev result (_ & _ & Hstep) _ IH];
    constructor; [| exact IH].
  destruct Hstep as [(Hle & _ & ->) | (_ & (_ & Hy) & _)]; lra.
Qed.

Lemma snow_tick_witness :
  let window := {| innerWidth := 1280; innerHeight := 720 |} in
  let prev :=
    [ {| Flake.x := 100; Flake.y := 0; Flake.radius := 12; Flake.speed := 40 |};
      {| Flake.x := 300; Flake.y := 769.5; Flake.radius := 10;
         Flake.speed := 30 |} ] in
  length (animate halves window 1016 1000 prev 0%nat).1 = length prev
  /\ Forall2 (flake_step window ((1016 - 1000) / 1000)) prev
             (animate halves window 1016 1000 prev 0%nat).1
  /\ Forall (fun flake' => Flake.y flake' <= innerHeight window + 50)
            (animate halves window 1016 1000 prev 0%nat).1.
Proof.
  apply (snow_tick halves {| innerWidth := 1280; innerHeight := 720 |}
           1016 1000).
  - intros n. split; [discriminate | reflexivity].
  - discriminate.
Defined.

(** ** Theme selection *)

Lemma nextThemeOf_cases (currentTheme : string) :
  (currentTheme = "classic" /\ nextThemeOf currentTheme = Some "traditional")
  \/ (currentTheme = "traditional" /\ nextThemeOf currentTheme = Some "red")
  \/ (currentTheme = "red" /\ nextThemeOf currentTheme = Some "blue")
  \/ (currentTheme = "blue" /\ nextThemeOf currentTheme = Some "purple")
  \/ (currentTheme = "purple" /\ nextThemeOf currentTheme = Some "classic")
  \/ (~ In currentTheme themeKeys
      /\ nextThemeOf currentTheme = Some "classic")%string.
Proof.
  unfold nextThemeOf, themeKeys. simpl map. cbn [indexOf].
  destruct (String.eqb "classic" currentTheme) eqn:E1;
    [apply String.eqb_eq in E1; subst; left; split; reflexivity |].
  destruct (String.eqb "traditional" currentTheme) eqn:E2;
    [apply String.eqb_eq in E2; subst; right; left; split; reflexivity |].
  destruct (String.eqb "red" currentTheme) eqn:E3;
    [apply String.eqb_eq in E3; subst; do 2 right; left; split; reflexivity |].
  destruct (String.eqb "blue" currentTheme) eqn:E4;
    [apply String.eqb_eq in E4; subst; do 3 right; left; split; reflexivity |].
  destruct (String.eqb "purple" currentTheme) eqn:E5;
    [apply String.eqb_eq in E5; subst; do 4 right; left; split; reflexivity |].
  do 5 right. split; [| reflexivity].
  apply String.eqb_neq in E1, E2, E3, E4, E5.
  simpl. intros [H | [H | [H | [H | [H | []]]]]]; congruence.
Qed.

(** X23.  The theme button always yields a theme of the program, never
    [undefined] and never the theme it started from: from a theme of the
    program it yields the next one in the order classic, traditional,
    red, blue, purple, and from any other string it yields classic.
    Five presses bring a theme of the program back to itself and fewer
    do not. *)
Theorem theme_button_cycles (currentTheme : string) :
  (exists t,
     nextThemeOf currentTheme = Some t
     /\ In t themeKeys
     /\ t <> currentTheme
     /\ (~ In currentTheme themeKeys -> t = "classic"%string))
  /\ (In currentTheme themeKeys ->
      cycleN 5 currentTheme = Some currentTheme
      /\ forall n, (0 < n < 5)%nat -> cycleN n currentTheme <> Some currentTheme).
Proof.
  split.
  - destruct (nextThemeOf_cases currentTheme)
      as [[-> ->] | [[-> ->] | [[-> ->] | [[-> ->] | [[-> ->] | [Hout ->]]]]]];
      eexists; (split; [reflexivity |]);
      (split; [simpl; tauto |]);
      (split; [| intros H; try reflexivity; exfalso; apply H; simpl; tauto]);
      try discriminate.
    intros <-. apply Hout. simpl. tauto.
  - simpl. intros [<- | [<- | [<- | [<- | [<- | []]]]]];
      (split; [reflexivity |]);
      intros n Hn;
      (destruct n as [| [| [| [| [| n]]]]]; [lia | | | | | lia]);
      vm_compute; discriminate.
Qed.

Lemma theme_button_cycles_witness :
  (exists t,
     nextThemeOf "red" = Some t
     /\ In t themeKeys
     /\ t <> "red"%string
     /\ (~ In "red"%string themeKeys -> t = "classic"%string))
  /\ (In "red"%string themeKeys ->
      cycleN 5 "red" = Some "red"%string
      /\ forall n, (0 < n < 5)%nat -> cycleN n "red" <> Some "red"%string).
Proof.
  apply (theme_button_cycles "red").
Defined.

Lemma ownProperty_themeKeys key :
  is_Some (ownProperty COLOR_THEMES key) <-> In key themeKeys.
Proof.
  unfold themeKeys, COLOR_THEMES. cbn [ownProperty map fst].
  destruct (String.eqb "classic" key) eqn:E1;
    [apply String.eqb_eq in E1; subst;
     split; [intros _; simpl; tauto | eexists; reflexivity] |].
  destruct (String.eqb "traditional" key) eqn:E2;
    [apply String.eqb_eq in E2; subst;
     split; [intros _; simpl; tauto | eexists; reflexivity] |].
  destruct (String.eqb "red" key) eqn:E3;
    [apply String.eqb_eq in E3; subst;
     split; [intros _; simpl; tauto | eexists; reflexivity] |].
  destruct (String.eqb "blue" key) eqn:E4;
    [apply String.eqb_eq in E4; subst;
     split; [intros _; simpl; tauto | eexists; reflexivity] |].
  destruct (String.eqb "purple" key) eqn:E5;
    [apply String.eqb_eq in E5; subst;
     split; [intros _; simpl; tauto | eexists; reflexivity] |].
  apply String.eqb_neq in E1, E2, E3, E4, E5.
  split; [intros [t H]; discriminate H |].
  intros [H | [H | [H | [H | [H | []]]]]]; congruence.
Qed.

(** X24.  The saved theme survives a reload: after a press of the theme
    button, the initial theme computed from the storage is the theme
    the button selected, a theme of the program, and the other entries
    of the storage are untouched.  With nothing saved the initial theme
    is classic. *)
Theorem saved_theme_round_trip (inherited : string -> bool)
    (currentTheme : string) (localStorage : gmap string string)
    (key : string) :
  key <> "christmasTheme"%string ->
  (exists t,
     (cycleTheme currentTheme localStorage).1 = Some t
     /\ is_Some (ownProperty COLOR_THEMES t)
     /\ initialTheme inherited (cycleTheme currentTheme localStorage).2 = t)
  /\ (cycleTheme currentTheme localStorage).2 !! key = localStorage !! key
  /\ (localStorage !! "christmasTheme"%string = None ->
      initialTheme inherited localStorage = "classic"%string).
Proof.
  intros Hkey. unfold cycleTheme. cbn [fst snd].
  split; [| split].
  - assert (N : exists t, nextThemeOf currentTheme = Some t /\ In t themeKeys).
    { destruct (nextThemeOf_cases currentTheme)
        as [[_ ->] | [[_ ->] | [[_ ->] | [[_ ->] | [[_ ->] | [_ ->]]]]]];
        eexists; (split; [reflexivity | simpl; tauto]). }
    destruct N as (t & -> & Hin). exists t.
    apply ownProperty_themeKeys in Hin as Hown.
    split; [reflexivity |]. split; [exact Hown |].
    assert (Hp : hasProperty inherited t = true).
    { unfold hasProperty. destruct Hown as [theme ->]. reflexivity. }
    assert (E : String.eqb t "" = false).
    { apply String.eqb_neq. intros ->. simpl in Hin.
      destruct Hin as [H | [H | [H | [H | [H | []]]]]]; discriminate H. }
    unfold initialTheme. rewrite lookup_insert_eq.
    change (default "undefined"%string (Some t)) with t.
    rewrite E, Hp. reflexivity.
  - apply lookup_insert_ne. congruence.
  - intros Hnone. unfold initialTheme. rewrite Hnone. reflexivity.
Qed.

Lemma saved_theme_round_trip_witness :
  let inherited := fun k => String.eqb k "toString" in
  let localStorage : gmap string string :=
    {[ "christmasName"%string := "W.Yr."%string ]} in
  (exists t,
     (cycleTheme "purple" localStorage).1 = Some t
     /\ is_Some (ownProperty COLOR_THEMES t)
     /\ initialTheme inherited (cycleTheme "purple" localStorage).2 = t)
  /\ (cycleTheme "purple" localStorage).2 !! "christmasName"%string
     = localStorage !! "christmasName"%string
  /\ (localStorage !! "christmasTheme"%string = None ->
      initialTheme inherited localStorage = "classic"%string).
Proof.
  apply (saved_theme_round_trip (fun k => String.eqb k "toString") "purple"
           {[ "christmasName"%string := "W.Yr."%string ]}
           "christmasName").
  discriminate.
Defined.

(** X25.  What the initial theme can be.  A saved theme of the program
    is restored.  A saved string that is neither a theme nor a property
    name the theme table inherits is replaced by classic, as is the
    empty string.  But a saved name of an inherited property is accepted
    as it is, although the theme table has no theme of that name. *)
Theorem initial_theme_cases (inherited : string -> bool) (saved : string)
    (localStorage : gmap string string) :
  localStorage !! "christmasTheme"%string = Some saved ->
  (In saved themeKeys -> initialTheme inherited localStorage = saved)
  /\ (~ In saved themeKeys -> inherited saved = false ->
      initialTheme inherited localStorage = "classic"%string)
  /\ (saved = ""%string ->
      initialTheme inherited localStorage = "classic"%string)
  /\ (~ In saved themeKeys -> saved <> ""%string -> inherited saved = true ->
      initialTheme inherited localStorage = saved
      /\ ownProperty COLOR_THEMES (initialTheme inherited localStorage) = None).
Proof.
  intros Hsaved. unfold initialTheme, hasProperty. rewrite Hsaved.
  pose proof (ownProperty_themeKeys saved) as Hown.
  repeat apply conj.
  - intros Hin. apply Hown in Hin as [theme Et].
    assert (E : String.eqb saved "" = false).
    { apply String.eqb_neq. intros Es. subst saved.
      vm_compute in Et. discriminate Et. }
    rewrite Et, E. reflexivity.
  - intros Hout Hinh.
    destruct (ownProperty COLOR_THEMES saved) as [theme |] eqn:E.
    + exfalso. apply Hout, Hown. eexists. reflexivity.
    + rewrite Hinh, andb_false_r. reflexivity.
  - intros ->. reflexivity.
  - intros Hout Hne Hinh.
    destruct (ownProperty COLOR_THEMES saved) as [theme |] eqn:E.
    + exfalso. apply Hout, Hown. eexists. reflexivity.
    + apply String.eqb_neq in Hne. rewrite Hne, Hinh. simpl.
      split; [reflexivity | exact E].
Qed.

Lemma initial_theme_cases_witness :
  let inherited := fun k => String.eqb k "toString" in
  let localStorage : gmap string string :=
    {[ "christmasTheme"%string := "toString"%string ]} in
  (In "toString"%string themeKeys ->
   initialTheme inherited localStorage = "toString"%string)
  /\ (~ In "toString"%string themeKeys -> inherited "toString"%string = false ->
      initialTheme inherited localStorage = "classic"%string)
  /\ ("toString"%string = ""%string ->
      initialTheme inherited localStorage = "classic"%string)
  /\ (~ In "toString"%string themeKeys -> "toString"%string <> ""%string ->
      inherited "toString"%string = true ->
      initialTheme inherited localStorage = "toString"%string
      /\ ownProperty COLOR_THEMES (initialTheme inherited localStorage) = None).
Proof.
  apply (initial_theme_cases (fun k => String.eqb k "toString") "toString"
           {[ "christmasTheme"%string := "toString"%string ]}).
  reflexivity.
Defined.

(** ** Electron permission handlers *)

(** X26.  The permission check handler grants exactly the permission
    "media", and every permission it grants is also granted by the
    permission request handler, which grants exactly its seven listed
    permissions. *)
Theorem permission_handlers (permission : string) :
  (permissionCheckHandler permission = true <-> permission = "media"%string)
  /\ (permissionCheckHandler permission = true ->
      permissionRequestHandler permission = true)
  /\ (permissionRequestHandler permission = true <->
      In permission allowedPermissions).
Proof.
  unfold permissionCheckHandler, permissionRequestHandler.
  assert (R : existsb (String.eqb permission) allowedPermissions = true
              <-> In permission allowedPermissions).
  { rewrite existsb_exists. split.
    - intros (k & Hin & E). apply String.eqb_eq in E. now subst.
    - intros Hin. exists permission. split; [exact Hin | apply String.eqb_refl]. }
  repeat apply conj.
  - apply String.eqb_eq.
  - apply String.eqb_eq.
  - intros E. apply String.eqb_eq in E. subst. reflexivity.
  - apply R.
  - apply R.
Qed.

Lemma permission_handlers_witness :
  (permissionCheckHandler "media" = true <-> "media"%string = "media"%string)
  /\ (permissionCheckHandler "media" = true ->
      permissionRequestHandler "media" = true)
  /\ (permissionRequestHandler "media" = true <->
      In "media"%string allowedPermissions).
Proof.
  apply (permission_handlers "media").
Defined.
